(** * Vital Web SDK audio transport: a shallow embedding and its properties

  The development follows the JavaScript/TypeScript sources of the SDK:

  - [RingBuffer]       src/libs/vital-web-sdk/src/ring_buffer.js  (ControlQueue)
  - [AudioRingBuffer]  audio_ring_buffer.js                        (AudioStreamBuffer)
  - [Worker]           src/libs/vital-web-sdk/src/piano_worker.js  (SynthesisWorker)
  - [Worklet]          src/libs/vital-web-sdk/src/piano_worklet.js (OutputCallback)
  - [SDK]              src/libs/vital-web-sdk/src/index.ts         (VitalSDK)
  - [Pipeline]         the SDK and the worker over one shared region
  - [Store]            stores/audio.ts                             (orchestration)
  - [Bringup]          the ['init'] message and [initWasm] of piano_worker.js
  - [Lifecycle]        [destroy()] of index.ts
  - [MidiUtils]        the note names of piano_worklet.js
  - [Keyboard]         components/PianoGrid.vue, components/PianoKey.vue
  - [Stereo], [Notes]  sequences of whole calls over the two buffers

  Numbers that the code keeps in an [Int32Array] or a [Uint8Array] are
  integers of [Z] with the conversion of the store written out; a typed
  array is a [list] read with stdpp's lookup and written with its insert,
  and an index outside the array does what JavaScript does there (the
  store is dropped, the load yields [undefined]). Numbers that the code
  computes in floating point (frame counts of a write, velocities) are
  rationals: a double is given by its value, and the product and the
  quotient on the way of a velocity are rounded as IEEE 754 doubles are.
  The native synthesis engine is not part of the sources: a handle records
  the calls it receives, and what it renders or returns is a parameter. A
  call of one of the two contexts of a ring buffer is one step: what is
  proved about sequences of calls is proved for every interleaving of whole
  calls.

  The models come first, then the representation invariants and the inputs
  of the scenarios, then the properties: facts about each buffer, and the
  statements about the transport, the render loop, the output callback and
  the orchestration. *)

From Stdlib Require Import ZArith List Lia QArith Qround Qabs Qpower Bool Ascii.
From Stdlib Require DecimalString.
From stdpp Require Import base list strings.
Import ListNotations.
Open Scope Z_scope.


(** ** JavaScript numbers and typed arrays *)

Module JS.

(** [ToInt32]: what [Atomics.store] on an [Int32Array] keeps of an integer. *)
Definition toInt32 (x : Z) : Z := (x + 2 ^ 31) mod 2 ^ 32 - 2 ^ 31.

(** [ToUint8]: what a store into a [Uint8Array] keeps of an integer. *)
Definition toUint8 (x : Z) : Z := x mod 256.

(** [a % b] on integers: the remainder has the sign of [a]; [None] is [NaN]. *)
Definition rem (a b : Z) : option Z :=
  if b =? 0 then None else Some (Z.rem a b).

(** The position an index expression denotes in an array of [len] elements,
    if it denotes one. [-0] is position 0; [NaN] and negative or too large
    numbers are no position. *)
Definition position (len : nat) (i : option Z) : option nat :=
  match i with
  | Some z => if (0 <=? z) && (z <? Z.of_nat len) then Some (Z.to_nat z) else None
  | None => None
  end.

(** [a[i]]: [None] is [undefined]. *)
Definition get {A} (a : list A) (i : option Z) : option A :=
  match position (length a) i with
  | Some n => a !! n
  | None => None
  end.

(** [a[i] = v] on a typed array: dropped when [i] is no position. *)
Definition put {A} (i : option Z) (v : A) (a : list A) : list A :=
  match position (length a) i with
  | Some n => <[n := v]> a
  | None => a
  end.

(** A relative index of [subarray], clamped as the standard prescribes. *)
Definition clamp (len : nat) (k : Z) : nat :=
  if k <? 0 then Z.to_nat (Z.max (Z.of_nat len + k) 0)
  else Z.to_nat (Z.min k (Z.of_nat len)).

(** [a.subarray(b)] and [a.subarray(b, e)] (contents of the view). *)
Definition subarray_from {A} (b : Z) (a : list A) : list A :=
  drop (clamp (length a) b) a.
Definition subarray {A} (b e : Z) (a : list A) : list A :=
  let b' := clamp (length a) b in
  let e' := clamp (length a) e in
  take (e' - b') (drop b' a).

(** [dst.set(src, offset)]: [None] is the [RangeError] thrown when the
    offset is negative or the source does not fit. *)
Definition set {A} (src : list A) (offset : Z) (dst : list A) : option (list A) :=
  if (offset <? 0) || (Z.of_nat (length dst) <? offset + Z.of_nat (length src))
  then None
  else Some (take (Z.to_nat offset) dst ++ src
             ++ drop (Z.to_nat offset + length src) dst).

(** Truncation toward zero of a rational ([ToIntegerOrInfinity]). *)
Definition trunc (q : Q) : Z := Z.quot (Qnum q) (Zpos (Qden q)).

(** *** Doubles

    A number that is not an integer by its use is a double; the model has it
    by its value, a rational. *)

(** [floor(log2 |q|)] of a rational other than 0. *)
Definition exponent (q : Q) : Z :=
  let e := Z.log2 (Z.abs (Qnum q)) - Z.log2 (Zpos (Qden q)) in
  if Qle_bool (2 ^ e) (Qabs q) then e else e - 1.

(** The integer nearest to a rational, the even one of two that are equally
    near. *)
Definition roundEven (q : Q) : Z :=
  let f := Qfloor q in
  match (q - inject_Z f ?= 1 # 2)%Q with
  | Lt => f
  | Gt => f + 1
  | Eq => if Z.even f then f else f + 1
  end.

(** Rounding to a double (IEEE 754 binary64, round to nearest, ties to
    even): 53 significant bits, the smallest exponent that of the
    subnormal numbers. The exponent is not bounded above here; a result of
    [2 ^ 1024] or more stands for an infinity. *)
Definition nearest (q : Q) : Q :=
  if Qeq_bool q 0 then 0%Q
  else
    let ulp := (2 ^ (Z.max (exponent q) (-1022) - 52))%Q in
    (inject_Z (roundEven (q / ulp)) * ulp)%Q.

Definition finite (q : Q) : bool := negb (Qle_bool (2 ^ 1024) (Qabs q)).

(** [x * y] on doubles, given by their values: the product rounded to a
    double; [None] is an infinity. *)
Definition mul (x y : Q) : option Q :=
  let p := nearest (x * y) in if finite p then Some p else None.

(** [Math.floor(x)] as a typed array stores it: an infinity is stored as 0. *)
Definition floor (x : option Q) : Z :=
  match x with Some q => Qfloor q | None => 0 end.

End JS.

(** ** ControlQueue: ring_buffer.js *)

Module RingBuffer.

(** The object: [size], the two header words [header[0]] (write index) and
    [header[1]] (read index), the data bytes, and the consumer's scratch
    array [_tempBuffer] ([None] until the first non-empty drain). *)
Record t := mk {
  size : Z;
  writeIndex : Z;
  readIndex : Z;
  buffer : list Z;
  tempBuffer : option (list Z)
}.

(** [new RingBuffer(null, size)]: [size || 4096] bytes, all zero. *)
Definition create (sz : Z) : t :=
  let sz' := if sz =? 0 then 4096 else sz in
  {| size := sz'; writeIndex := 0; readIndex := 0;
     buffer := replicate (Z.to_nat sz') 0; tempBuffer := None |}.

(** [new RingBuffer(sab)] over the region of [rb], in another context: the
    same header and data, [sab.byteLength - HEADER_SIZE] bytes, and a
    scratch array of its own. *)
Definition attach (rb : t) : t :=
  {| size := Z.of_nat (length (buffer rb));
     writeIndex := writeIndex rb; readIndex := readIndex rb;
     buffer := buffer rb; tempBuffer := None |}.

(** [this.buffer[k % this.size] = v] *)
Definition store (sz k v : Z) (buf : list Z) : list Z :=
  JS.put (JS.rem k sz) (JS.toUint8 v) buf.

(** [this.buffer[k % this.size]] *)
Definition load (sz k : Z) (buf : list Z) : option Z :=
  JS.get buf (JS.rem k sz).

(** The body loop of [write]: [buffer[(writeIndex + 1 + i) % size] = data[i]];
    [base] is [writeIndex + 1 + i]. *)
Fixpoint write_bytes (sz base : Z) (data : list Z) (buf : list Z) : list Z :=
  match data with
  | [] => buf
  | d :: ds => write_bytes sz (base + 1) ds (store sz base d buf)
  end.

Definition write (data : list Z) (rb : t) : bool * t :=
  let length := Z.of_nat (length data) in
  let required := length + 1 in
  let writeIndex := writeIndex rb in
  let readIndex := readIndex rb in
  let available := size rb - (writeIndex - readIndex) in
  if available <? required then (false, rb)
  else
    let buf1 := store (size rb) writeIndex length (buffer rb) in
    let buf2 := write_bytes (size rb) (writeIndex + 1) data buf1 in
    (true, {| size := size rb;
              writeIndex := JS.toInt32 (writeIndex + required);
              readIndex := readIndex;
              buffer := buf2;
              tempBuffer := tempBuffer rb |}).

(** The copy loop of [read]: [_tempBuffer[i] = buffer[(readIndex + 1 + i) % size]]
    for [n] more iterations; [base] is [readIndex + 1 + i]. A load outside
    the data is [undefined], which a [Uint8Array] keeps as 0. *)
Fixpoint read_bytes (n : nat) (sz base : Z) (buf : list Z) (i : nat)
    (temp : list Z) : list Z :=
  match n with
  | O => temp
  | S n' =>
      let v := match load sz base buf with Some b => b | None => 0 end in
      read_bytes n' sz (base + 1) buf (S i) (<[i := JS.toUint8 v]> temp)
  end.

(** The [while (readIndex < writeIndex)] loop. It returns the records handed
    to the callback in order (the contents of [view] at the time of the
    call), the scratch array and the cursor, where [None] is [NaN].

    Every iteration moves the cursor by at least one, so
    [writeIndex - readIndex] iterations are always enough
    ([drain_loop_fuel] below): [fuel] only makes the recursion structural. *)
Fixpoint drain_loop (fuel : nat) (sz writeIndex : Z) (buf : list Z)
    (readIndex : Z) (temp : list Z) : list (list Z) * list Z * option Z :=
  match fuel with
  | O => ([], temp, Some readIndex)
  | S fuel' =>
      if readIndex <? writeIndex then
        match load sz readIndex buf with
        | None =>
            (* length is undefined: no copy, subarray(0, undefined) is the
               whole scratch array, readIndex becomes NaN and the loop ends *)
            ([temp], temp, None)
        | Some length =>
            let temp1 :=
              if Z.of_nat (List.length temp) <? length
              then replicate (Z.to_nat (length + 64)) 0
              else temp in
            let temp2 :=
              read_bytes (Z.to_nat length) sz (readIndex + 1) buf 0 temp1 in
            let view := JS.subarray 0 length temp2 in
            let '(rest, temp3, cursor) :=
              drain_loop fuel' sz writeIndex buf (readIndex + (length + 1)) temp2 in
            (view :: rest, temp3, cursor)
        end
      else ([], temp, Some readIndex)
  end.

(** [read(callback)]: the list is the sequence of calls of [callback]. *)
Definition read (rb : t) : list (list Z) * t :=
  let writeIndex := writeIndex rb in
  let readIndex := readIndex rb in
  if readIndex =? writeIndex then ([], rb)
  else
    let temp :=
      match tempBuffer rb with
      | Some tb => tb
      | None => replicate 256%nat 0
      end in
    let '(views, temp', cursor) :=
      drain_loop (Z.to_nat (writeIndex - readIndex)) (size rb) writeIndex
        (buffer rb) readIndex temp in
    let stored := match cursor with Some c => JS.toInt32 c | None => 0 end in
    (views, {| size := size rb;
               writeIndex := writeIndex;
               readIndex := stored;
               buffer := buffer rb;
               tempBuffer := Some temp' |}).

(** Calls of one producer and one consumer, one whole call at a time. *)
Inductive op := Write (data : list Z) | Drain.

(** Running a sequence of calls: the payloads whose [write] returned [true],
    the payloads handed to the drain callback, and the final object. *)
Fixpoint run (ops : list op) (rb : t) : list (list Z) * list (list Z) * t :=
  match ops with
  | [] => ([], [], rb)
  | Write data :: ops' =>
      let '(ok, rb1) := write data rb in
      let '(acc, del, rb') := run ops' rb1 in
      ((if ok then [data] else []) ++ acc, del, rb')
  | Drain :: ops' =>
      let '(views, rb1) := read rb in
      let '(acc, del, rb') := run ops' rb1 in
      (acc, views ++ del, rb')
  end.

End RingBuffer.


(** ** AudioStreamBuffer: audio_ring_buffer.js *)

Module AudioRingBuffer.

(** What a call gives back: a value, or the [RangeError] of a typed-array
    [set] that does not fit. *)
Inductive outcome (A : Type) := Returned (a : A) | RangeError.
Arguments Returned {A} a.
Arguments RangeError {A}.

Section Samples.

(** The buffer only moves samples, so their type is left open; [nan] is what
    a [Float32Array] keeps when [undefined] is stored into it. *)
Context {sample : Type} (nan : sample).

(** The object: channel count, capacity in frames, the two header words
    (write index and read index, in frames) and the interleaved samples. *)
Record t := mk {
  channelCount : Z;
  capacity : Z;
  writeIndex : Z;
  readIndex : Z;
  buffer : list sample
}.

(** [new AudioRingBuffer(null, channelCount, frameCapacity)] with every
    sample [zero]: [channelCount || 2] channels, [frameCapacity || 4096]
    frames. *)
Definition create (zero : sample) (channels frameCapacity : Z) : t :=
  let cc := if channels =? 0 then 2 else channels in
  let cap := if frameCapacity =? 0 then 4096 else frameCapacity in
  {| channelCount := cc; capacity := cap; writeIndex := 0; readIndex := 0;
     buffer := replicate (Z.to_nat (cap * cc)) zero |}.

(** [new AudioRingBuffer(sab, channelCount)] over the region of [rb], in
    another context: the same header and data, and the capacity
    [Math.floor(dataBytes / 4 / channelCount)] with four bytes a sample. *)
Definition attach (channels : Z) (rb : t) : t :=
  let cc := if channels =? 0 then 2 else channels in
  let dataBytes := Z.of_nat (length (buffer rb)) * 4 in
  {| channelCount := cc; capacity := dataBytes / 4 / cc;
     writeIndex := writeIndex rb; readIndex := readIndex rb;
     buffer := buffer rb |}.

Definition availableWrite (rb : t) : Z :=
  capacity rb - (writeIndex rb - readIndex rb).

Definition availableRead (rb : t) : Z :=
  writeIndex rb - readIndex rb.

(** [inputInterleaved.length / this.channelCount], a JavaScript number. *)
Definition framesOf (input : list sample) (rb : t) : Q :=
  (inject_Z (Z.of_nat (length input)) / inject_Z (channelCount rb))%Q.

Definition with_buffer (rb : t) (buf : list sample) : t :=
  {| channelCount := channelCount rb; capacity := capacity rb;
     writeIndex := writeIndex rb; readIndex := readIndex rb; buffer := buf |}.

Definition write (input : list sample) (rb : t) : outcome Q * t :=
  let framesToWrite := framesOf input rb in
  let available := availableWrite rb in
  if negb (Qle_bool framesToWrite (inject_Z available)) then (Returned 0%Q, rb)
  else
    let writeIndex := writeIndex rb in
    let samplesToWrite := Z.of_nat (length input) in
    let bufferLength := Z.of_nat (length (buffer rb)) in
    let copied :=
      match JS.rem writeIndex (capacity rb) with
      | Some k =>
          let offset := k * channelCount rb in
          if offset + samplesToWrite <=? bufferLength then
            (* single contiguous write *)
            match JS.set input offset (buffer rb) with
            | Some b => inl b
            | None => inr (buffer rb)
            end
          else
            (* split write *)
            let firstChunkSamples := bufferLength - offset in
            match JS.set (JS.subarray 0 firstChunkSamples input) offset (buffer rb) with
            | Some b1 =>
                match JS.set (JS.subarray_from firstChunkSamples input) 0 b1 with
                | Some b2 => inl b2
                | None => inr b1
                end
            | None => inr (buffer rb)
            end
      | None =>
          (* the offset is NaN: the comparison fails, the first chunk is
             empty and the second is the whole input, set at 0 *)
          match JS.set input 0 (buffer rb) with
          | Some b => inl b
          | None => inr (buffer rb)
          end
      end in
    match copied with
    | inl b =>
        (Returned framesToWrite,
         {| channelCount := channelCount rb; capacity := capacity rb;
            writeIndex := JS.toInt32 (JS.trunc (inject_Z writeIndex + framesToWrite));
            readIndex := readIndex rb; buffer := b |})
    | inr b => (RangeError, with_buffer rb b)
    end.

(** The closure [deinterleave(src, srcOffset, dstOffset, count)] of [read]:
    two samples of [src] per frame, whatever [channelCount] is. *)
Fixpoint deinterleave (src : list sample) (srcIdx dstIdx : Z) (count : nat)
    (leftOut rightOut : list sample) : list sample * list sample :=
  match count with
  | O => (leftOut, rightOut)
  | S count' =>
      let l := default nan (JS.get src (Some srcIdx)) in
      let r := default nan (JS.get src (Some (srcIdx + 1))) in
      deinterleave src (srcIdx + 2) (dstIdx + 1) count'
        (JS.put (Some dstIdx) l leftOut) (JS.put (Some dstIdx) r rightOut)
  end.

(** [read(outputChannels, framesToRead)] with [outputChannels = [leftOut,
    rightOut]] and an integer [framesToRead]. [firstChunkFrames] is the
    exact quotient whenever the data array holds whole frames, as it does
    for every buffer made by the constructor. *)
Definition read (leftOut rightOut : list sample) (framesToRead : Z) (rb : t)
    : bool * (list sample * list sample) * t :=
  let available := availableRead rb in
  if available <? framesToRead then (false, (leftOut, rightOut), rb)
  else
    let readIndex := readIndex rb in
    let samplesToRead := framesToRead * channelCount rb in
    let bufferLength := Z.of_nat (length (buffer rb)) in
    let outs :=
      match JS.rem readIndex (capacity rb) with
      | Some k =>
          let offset := k * channelCount rb in
          if offset + samplesToRead <=? bufferLength then
            deinterleave (buffer rb) offset 0 (Z.to_nat framesToRead) leftOut rightOut
          else
            let firstChunkSamples := bufferLength - offset in
            let firstChunkFrames := firstChunkSamples / channelCount rb in
            let '(l1, r1) :=
              deinterleave (buffer rb) offset 0 (Z.to_nat firstChunkFrames)
                leftOut rightOut in
            deinterleave (buffer rb) 0 firstChunkFrames
              (Z.to_nat (framesToRead - firstChunkFrames)) l1 r1
      | None => (leftOut, rightOut)
      end in
    (true, outs,
     {| channelCount := channelCount rb; capacity := capacity rb;
        writeIndex := writeIndex rb;
        readIndex := JS.toInt32 (readIndex + framesToRead);
        buffer := buffer rb |}).

(** Calls of the producer and of the consumer, one whole call at a time; a
    frame count is a natural number. *)
Inductive op :=
| Write (input : list sample)
| Read (leftOut rightOut : list sample) (frames : nat).

Definition step (o : op) (rb : t) : t :=
  match o with
  | Write input => snd (write input rb)
  | Read l r n => snd (read l r (Z.of_nat n) rb)
  end.

(** The frames a call adds to the write index. *)
Definition accepted (o : op) (rb : t) : Z :=
  match o with
  | Write input =>
      match fst (write input rb) with
      | Returned f => JS.trunc f
      | RangeError => 0
      end
  | Read _ _ _ => 0
  end.

(** Running a sequence of calls: the frames accepted in all and the final
    object. *)
Fixpoint run (ops : list op) (rb : t) : Z * t :=
  match ops with
  | [] => (0, rb)
  | o :: ops' =>
      let '(n, rb') := run ops' (step o rb) in
      (accepted o rb + n, rb')
  end.

End Samples.

Arguments t : clear implicits.
Arguments op : clear implicits.

End AudioRingBuffer.

(** ** The engine handle

    The synthesis engine is native code behind [moduleInstance]. A handle is
    the sequence of calls it has received, oldest first; an argument that
    JavaScript would pass as [undefined] or [NaN] is [None]. Numbers that
    the code computes in floating point (velocities) are rationals. *)

Module Engine.

(** [SetVolume v] is the one-argument call [_render(v)] of the worker. *)
Inductive call :=
| Init (sampleRate framesPerBlock : Z)
| Render (frames : Z)
| NoteOn (midi : option Z) (velocity : option Q)
| NoteOff (midi : option Z)
| LoadPreset (bytes : list Z)
| SetVolume (volume : Q).

Definition handle := list call.

Definition is_render (c : call) : bool :=
  match c with Render _ => true | _ => false end.

(** The blocks rendered so far. *)
Definition renders (e : handle) : nat := length (List.filter is_render e).

End Engine.

(** ** SynthesisWorker: piano_worker.js *)

Module Worker.

Definition CMD_NOTE_ON : Z := 1.
Definition CMD_NOTE_OFF : Z := 2.

(** Messages of [postMessage] from the worker. *)
Inductive reply := Ready | Error (message : string) | PresetLoaded.

(** Messages handled by [handleCommand] after initialisation. *)
Inductive message :=
| MsgNoteOn (note : Z) (velocity : Q)
| MsgNoteOff (note : Z)
| MsgSetVolume (volume : Q)
| MsgLoadPreset (presetData : list Z).

(** How [renderLoop] ends: a timer, a microtask, or an exception that
    nothing catches (the loop is then not scheduled again). *)
Inductive schedule := SetTimeout (ms : Z) | QueueMicrotask | Uncaught.

Section Samples.

Context {sample : Type} (nan : sample).

(** What [leftView] and [rightView] hold after [_render(outLPtr, outRPtr,
    frames)], given the calls the engine has received. *)
Context (rendered : Engine.handle -> Z -> list sample * list sample).

(** The module-level variables of the worker script. *)
Record t := mk {
  moduleInstance : option Engine.handle;
  audioRingBuffer : option (AudioRingBuffer.t sample);
  commandRingBuffer : option RingBuffer.t;
  tempBufferInterleaved : list sample;
  isReady : bool;
  targetBufferSize : Z;
  bufferSize : Z;
  posted : list reply
}.

Definition with_engine (w : t) (e : Engine.handle) : t :=
  {| moduleInstance := Some e; audioRingBuffer := audioRingBuffer w;
     commandRingBuffer := commandRingBuffer w;
     tempBufferInterleaved := tempBufferInterleaved w; isReady := isReady w;
     targetBufferSize := targetBufferSize w; bufferSize := bufferSize w;
     posted := posted w |}.

Definition with_command (w : t) (rb : RingBuffer.t) : t :=
  {| moduleInstance := moduleInstance w; audioRingBuffer := audioRingBuffer w;
     commandRingBuffer := Some rb;
     tempBufferInterleaved := tempBufferInterleaved w; isReady := isReady w;
     targetBufferSize := targetBufferSize w; bufferSize := bufferSize w;
     posted := posted w |}.

Definition with_audio (w : t) (temp : list sample) (rb : AudioRingBuffer.t sample) : t :=
  {| moduleInstance := moduleInstance w; audioRingBuffer := Some rb;
     commandRingBuffer := commandRingBuffer w;
     tempBufferInterleaved := temp; isReady := isReady w;
     targetBufferSize := targetBufferSize w; bufferSize := bufferSize w;
     posted := posted w |}.

Definition with_posted (w : t) (r : reply) : t :=
  {| moduleInstance := moduleInstance w; audioRingBuffer := audioRingBuffer w;
     commandRingBuffer := commandRingBuffer w;
     tempBufferInterleaved := tempBufferInterleaved w; isReady := isReady w;
     targetBufferSize := targetBufferSize w; bufferSize := bufferSize w;
     posted := posted w ++ [r] |}.

(** The callback of [processCommands] on one record. [data[2] / 127.0] is
    the quotient of two doubles, rounded to a double. *)
Definition command (e : Engine.handle) (data : list Z) : Engine.handle :=
  match data !! 0%nat with
  | Some cmd =>
      if cmd =? CMD_NOTE_ON then
        e ++ [Engine.NoteOn (data !! 1%nat)
                ((fun b => JS.nearest (inject_Z b / 127)) <$> data !! 2%nat)]
      else if cmd =? CMD_NOTE_OFF then
        e ++ [Engine.NoteOff (data !! 1%nat)]
      else e
  | None => e
  end.

(** Does the callback touch [moduleInstance] on this record? *)
Definition is_command (data : list Z) : bool :=
  match data !! 0%nat with
  | Some cmd => (cmd =? CMD_NOTE_ON) || (cmd =? CMD_NOTE_OFF)
  | None => false
  end.

(** [processCommands()]; [None] is the [TypeError] of a callback that finds
    [moduleInstance] null. *)
Definition processCommands (w : t) : option t :=
  match commandRingBuffer w with
  | None => Some w
  | Some rb =>
      let '(views, rb') := RingBuffer.read rb in
      match moduleInstance w with
      | Some e => Some (with_command (with_engine w (foldl command e views)) rb')
      | None =>
          if forallb (fun d => negb (is_command d)) views
          then Some (with_command w rb')
          else None
      end
  end.

(** The interleave loop: [temp[i * 2] = leftView[i]; temp[i * 2 + 1] =
    rightView[i]] for [n] more iterations from [i]. *)
Fixpoint interleave (n : nat) (i : Z) (leftView rightView temp : list sample)
    : list sample :=
  match n with
  | O => temp
  | S n' =>
      let l := default nan (JS.get leftView (Some i)) in
      let r := default nan (JS.get rightView (Some i)) in
      interleave n' (i + 1) leftView rightView
        (JS.put (Some (i * 2 + 1)) r (JS.put (Some (i * 2)) l temp))
  end.

(** One run of [renderLoop()]. *)
Definition renderLoop (w : t) : schedule * t :=
  match isReady w, audioRingBuffer w with
  | true, Some arb =>
      (* process queued commands *)
      match processCommands w with
      | None => (Uncaught, w)
      | Some w1 =>
          (* check buffered amount (latency control) *)
          let bufferedFrames := AudioRingBuffer.availableRead arb in
          let TARGET_AHEAD := targetBufferSize w1 in
          if TARGET_AHEAD <=? bufferedFrames then (SetTimeout 1, w1)
          else
            (* check actual space (overflow protection) *)
            let availableWrite := AudioRingBuffer.availableWrite arb in
            if availableWrite <? bufferSize w1 then (SetTimeout 1, w1)
            else
              match moduleInstance w1 with
              | None => (Uncaught, w1)
              | Some e =>
                  (* 1. render *)
                  let e' := e ++ [Engine.Render (bufferSize w1)] in
                  let '(leftView, rightView) := rendered e' (bufferSize w1) in
                  (* 2. interleave *)
                  let temp :=
                    interleave (Z.to_nat (bufferSize w1)) 0 leftView rightView
                      (tempBufferInterleaved w1) in
                  (* 3. write *)
                  let '(res, arb') := AudioRingBuffer.write temp arb in
                  let w2 := with_audio (with_engine w1 e') temp arb' in
                  match res with
                  | AudioRingBuffer.RangeError => (Uncaught, w2)
                  | AudioRingBuffer.Returned _ =>
                      if AudioRingBuffer.availableRead arb' <? TARGET_AHEAD
                      then (QueueMicrotask, w2)
                      else (SetTimeout 0, w2)
                  end
              end
      end
  | _, _ => (SetTimeout 100, w)
  end.

(** [loadPreset(presetData)] of the worker, for bytes: the return value of
    [_load_preset] is dropped and ['preset-loaded'] is posted. *)
Definition loadPreset (presetData : list Z) (w : t) : t :=
  match moduleInstance w with
  | None => w
  | Some e => with_posted (with_engine w (e ++ [Engine.LoadPreset presetData])) PresetLoaded
  end.

(** [handleCommand(data)] for the messages that follow initialisation;
    [None] is the [TypeError] of a call on a null [moduleInstance]. *)
Definition handleCommand (m : message) (w : t) : option t :=
  if negb (isReady w) && negb (bool_decide (is_Some (moduleInstance w))) then Some w
  else
    match m with
    | MsgNoteOn note velocity =>
        (fun e => with_engine w (e ++ [Engine.NoteOn (Some note) (Some velocity)]))
          <$> moduleInstance w
    | MsgNoteOff note =>
        (fun e => with_engine w (e ++ [Engine.NoteOff (Some note)]))
          <$> moduleInstance w
    | MsgSetVolume volume =>
        (fun e => with_engine w (e ++ [Engine.SetVolume volume]))
          <$> moduleInstance w
    | MsgLoadPreset presetData => Some (loadPreset presetData w)
    end.

End Samples.

Arguments t : clear implicits.

End Worker.

(** ** OutputCallback: piano_worklet.js *)

Module Worklet.

Section Samples.

Context {sample : Type} (nan : sample).

(** [VitalProcessor]: its one field. *)
Record t := mk { audioRingBuffer : option (AudioRingBuffer.t sample) }.

(** [handleMessage({type: 'init-audio-sab', sab})]. *)
Definition handleMessage (region : AudioRingBuffer.t sample) (p : t) : t :=
  {| audioRingBuffer := Some (AudioRingBuffer.attach 2 region) |}.

(** [process(inputs, outputs, parameters)] with [output = outputs[0]]. Next
    to the return value, the channels of [output] and the processor, the
    model gives the attempts on the ring buffer that the call made: the
    frames asked for and whether they were read. *)
Definition process (output : list (list sample)) (p : t)
    : bool * list (list sample) * t * list (Z * bool) :=
  match output !! 0%nat, output !! 1%nat with
  | Some channelL, Some channelR =>
      let blockSize := Z.of_nat (length channelL) in
      match audioRingBuffer p with
      | Some rb =>
          let '(success, (l, r), rb') :=
            AudioRingBuffer.read nan channelL channelR blockSize rb in
          (true, <[1%nat := r]> (<[0%nat := l]> output),
           {| audioRingBuffer := Some rb' |}, [(blockSize, success)])
      | None => (true, output, p, [])
      end
  | _, _ => (true, output, p, [])
  end.

End Samples.

Arguments t : clear implicits.

End Worklet.

(** ** Bring-up of the worker: the ['init'] message and [initWasm] *)

Module Bringup.

Section Samples.

Context {sample : Type} (nan zero : sample).
Context (rendered : Engine.handle -> Z -> list sample * list sample).

(** The ['init'] message as the SDK posts it ([presetData] is [undefined]
    there): the numbers, where 0 also stands for a number that is missing,
    and the two shared regions. *)
Record config := mkConfig {
  sampleRate : Z;
  bufferSize : Z;
  volume : Q;
  audioSab : option (AudioRingBuffer.t sample);
  commandSab : option RingBuffer.t;
  targetBufferFrames : Z
}.

(** The module-level variables when the script has been loaded. *)
Definition loaded : Worker.t sample :=
  {| Worker.moduleInstance := None;
     Worker.audioRingBuffer := None;
     Worker.commandRingBuffer := None;
     Worker.tempBufferInterleaved := [];
     Worker.isReady := false;
     Worker.targetBufferSize := 0;
     Worker.bufferSize := 128;
     Worker.posted := [] |}.

(** What the host does for [initWasm]: the error message of an import or
    an instantiation that fails ([None]: the engine is loaded), and the
    message of an exception thrown after that. *)
Record host := mkHost {
  loadEngine : option string;
  thrown : string
}.

(** The module-level variables when [initWasm] has initialized the engine,
    allocated [tempBufferInterleaved], set [isReady] and posted ['ready']:
    the state in which it calls [renderLoop()]. *)
Definition readied (engine : Engine.handle) (configBufferSize : Z)
    (w : Worker.t sample) : Worker.t sample :=
  {| Worker.moduleInstance := Some engine;
     Worker.audioRingBuffer := Worker.audioRingBuffer w;
     Worker.commandRingBuffer := Worker.commandRingBuffer w;
     Worker.tempBufferInterleaved :=
       replicate (Z.to_nat (configBufferSize * 2)) zero;
     Worker.isReady := true;
     Worker.targetBufferSize := Worker.targetBufferSize w;
     Worker.bufferSize := Worker.bufferSize w;
     Worker.posted := Worker.posted w ++ [Worker.Ready] |}.

(** [initWasm(config)] with [config = {sampleRate, bufferSize, volume}],
    once the import has settled; the engine exports [_render]. The first
    [renderLoop()] runs inside the [try]: what it throws is caught and
    posted like an error of the bring-up. Next to the worker, the result
    tells how the render loop goes on: [None] when it was not started or
    has ended in an exception. *)
Definition initWasm (h : host) (configSampleRate configBufferSize : Z)
    (configVolume : Q) (w : Worker.t sample)
    : option Worker.schedule * Worker.t sample :=
  match loadEngine h with
  | Some message => (None, Worker.with_posted w (Worker.Error message))
  | None =>
      let engine : Engine.handle :=
        [Engine.Init configSampleRate configBufferSize;
         Engine.SetVolume (if Qeq_bool configVolume 0 then 1%Q else configVolume)] in
      let w1 := Worker.with_engine w engine in
      if configBufferSize <? 0 then
        (* new Float32Array of a negative length *)
        (None, Worker.with_posted w1 (Worker.Error (thrown h)))
      else
        let w2 := readied engine configBufferSize w in
        match Worker.renderLoop nan rendered w2 with
        | (Worker.Uncaught, w3) =>
            (None, Worker.with_posted w3 (Worker.Error (thrown h)))
        | (s, w3) => (Some s, w3)
        end
  end.

(** [handleCommand(data)] for [data.type === 'init']. The [sampleRate]
    handed to [initWasm] is the module-level variable of that name, which
    no statement of the script assigns: it is 0. *)
Definition handleInit (h : host) (data : config) (w : Worker.t sample)
    : option Worker.schedule * Worker.t sample :=
  let bufferSize' := if bufferSize data =? 0 then 128 else bufferSize data in
  let targetBufferSize' :=
    if targetBufferFrames data =? 0 then 1024 else targetBufferFrames data in
  let w1 :=
    {| Worker.moduleInstance := Worker.moduleInstance w;
       Worker.audioRingBuffer :=
         match audioSab data with
         | Some region => Some (AudioRingBuffer.attach 2 region)
         | None => Worker.audioRingBuffer w
         end;
       Worker.commandRingBuffer :=
         match commandSab data with
         | Some region => Some (RingBuffer.attach region)
         | None => Worker.commandRingBuffer w
         end;
       Worker.tempBufferInterleaved := Worker.tempBufferInterleaved w;
       Worker.isReady := Worker.isReady w;
       Worker.targetBufferSize := targetBufferSize';
       Worker.bufferSize := bufferSize';
       Worker.posted := Worker.posted w |} in
  initWasm h 0 bufferSize' (volume data) w1.

End Samples.

Arguments config : clear implicits.

End Bringup.

(** ** VitalSDK: index.ts *)

Module SDK.

Definition CMD_NOTE_ON : Z := 1.
Definition CMD_NOTE_OFF : Z := 2.

(** A thrown value: [String(e)] is [name: message]. *)
Record error := mkError { name : string; message : string }.

(** How an [async] method ends: its promise resolves, is rejected, or never
    settles. *)
Inductive settled := Resolved | Rejected (e : error) | Pending.

(** What the host does for the calls of [init] that can fail ([None]: the
    call succeeds), the reply of the worker to its ['init'] message, the
    runs of the render loop that the worker has made by itself when the
    main thread handles that reply, and the values the host hands out. *)
Record env := mkEnv {
  newAudioContext : option error;
  contextSampleRate : Z;
  newWorker : option error;
  addModule : option error;
  newSharedArrayBuffer : option error;
  newWorkletNode : option error;
  workerReply : option Worker.reply;
  workerRuns : nat;
  loadWasm : option error;
  malloc : Z -> Z;
  createScriptProcessor : Z -> option error
}.

Section Samples.

Context {sample : Type} (nan zero : sample).

(** What [viewL] and [viewR] hold after [_render(outLPtr, outRPtr, len)]. *)
Context (rendered : Engine.handle -> Z -> list sample * list sample).

(** The preset sources ([File], [ArrayBuffer], [string]) and what the first
    half of [loadPreset] makes of one: the UTF-8 bytes of the cleaned JSON
    text, or the error thrown while the source is read, inflated or parsed
    by [JSON.parse]. *)
Context {preset : Type} (prepare : preset -> error + list Z).

(** The status [_load_preset] returns for these bytes, given the calls the
    engine has received. *)
Context (load_preset_rc : Engine.handle -> list Z -> Z).

(** The fields of the object. [worker] tells whether [this.worker] is set,
    and [toWorker] holds the messages posted to it once it is running;
    [ringBuffer] and [audioRingBuffer] are the objects of this context over
    the two shared regions. *)
Record t := mk {
  sampleRate : Z;
  bufferSize : Z;
  audioContext : bool;
  moduleInstance : option Engine.handle;
  worker : bool;
  toWorker : list Worker.message;
  initialized : bool;
  useWorklet : bool;
  scriptNode : bool;
  workletNode : bool;
  ringBuffer : option RingBuffer.t;
  audioRingBuffer : option (AudioRingBuffer.t sample);
  outLPtr : Z;
  outRPtr : Z
}.

(** [new VitalSDK({bufferSize, useWorklet})]. *)
Definition new (optBufferSize : Z) (optUseWorklet : bool) : t :=
  {| sampleRate := 44100;
     bufferSize := if optBufferSize =? 0 then 1024 else optBufferSize;
     audioContext := false; moduleInstance := None; worker := false;
     toWorker := []; initialized := false; useWorklet := optUseWorklet;
     scriptNode := false; workletNode := false; ringBuffer := None;
     audioRingBuffer := None; outLPtr := 0; outRPtr := 0 |}.

Definition isWorklet (s : t) : bool := initialized s && useWorklet s.

(** The ['init'] message that [_initWorkletAndWorker] posts: the sample
    rate of the context, [this.bufferSize] as the target, and the two
    shared regions. *)
Definition initMessage (contextRate targetFrames : Z)
    (audio : AudioRingBuffer.t sample) (command : RingBuffer.t)
    : Bringup.config sample :=
  {| Bringup.sampleRate := contextRate;
     Bringup.bufferSize := 128;
     Bringup.volume := 1;
     Bringup.audioSab := Some audio;
     Bringup.commandSab := Some command;
     Bringup.targetBufferFrames := targetFrames |}.

(** The worker at the time the main thread handles its ['ready']. The
    worker has loaded its engine and gone through [initWasm] on the
    ['init'] message, which posts ['ready'] and then makes the first run
    of the render loop; since then it has made [workerRuns] further runs.
    Nothing reads the audio buffer before the worklet node is connected,
    which the handler of ['ready'] does. *)
Definition workerAtReady (e : env) (contextRate targetFrames : Z)
    (audio : AudioRingBuffer.t sample) (command : RingBuffer.t)
    : Worker.t sample :=
  let started :=
    snd (Bringup.handleInit nan zero rendered
           {| Bringup.loadEngine := None; Bringup.thrown := EmptyString |}
           (initMessage contextRate targetFrames audio command) Bringup.loaded) in
  Nat.iter (workerRuns e) (fun w => snd (Worker.renderLoop nan rendered w)) started.

(** The object when the shared audio region is in another state. *)
Definition with_shared_audio (s : t) (audio : option (AudioRingBuffer.t sample))
    : t :=
  {| sampleRate := sampleRate s; bufferSize := bufferSize s;
     audioContext := audioContext s; moduleInstance := moduleInstance s;
     worker := worker s; toWorker := toWorker s;
     initialized := initialized s; useWorklet := useWorklet s;
     scriptNode := scriptNode s; workletNode := workletNode s;
     ringBuffer := ringBuffer s; audioRingBuffer := audio;
     outLPtr := outLPtr s; outRPtr := outRPtr s |}.

(** [_initWorkletAndWorker()], called with the context and the worker
    set. When the promise resolves, the shared audio region is what the
    worker has made of it. *)
Definition initWorkletAndWorker (e : env) (s : t) : settled * t :=
  match newSharedArrayBuffer e with
  | Some err => (Rejected err, s)
  | None =>
      let s1 :=
        {| sampleRate := sampleRate s; bufferSize := bufferSize s;
           audioContext := audioContext s; moduleInstance := moduleInstance s;
           worker := worker s; toWorker := toWorker s;
           initialized := initialized s; useWorklet := useWorklet s;
           scriptNode := scriptNode s; workletNode := false;
           ringBuffer := Some (RingBuffer.create 4096);
           audioRingBuffer := Some (AudioRingBuffer.create zero 2 4096);
           outLPtr := outLPtr s; outRPtr := outRPtr s |} in
      match newWorkletNode e with
      | Some err => (Rejected err, s1)
      | None =>
          let s2 :=
            {| sampleRate := sampleRate s1; bufferSize := bufferSize s1;
               audioContext := audioContext s1; moduleInstance := moduleInstance s1;
               worker := worker s1; toWorker := toWorker s1;
               initialized := initialized s1; useWorklet := useWorklet s1;
               scriptNode := scriptNode s1; workletNode := true;
               ringBuffer := ringBuffer s1; audioRingBuffer := audioRingBuffer s1;
               outLPtr := outLPtr s1; outRPtr := outRPtr s1 |} in
          match workerReply e with
          | Some Worker.Ready =>
              let w :=
                workerAtReady e (sampleRate s2) (bufferSize s2)
                  (AudioRingBuffer.create zero 2 4096) (RingBuffer.create 4096) in
              (Resolved, with_shared_audio s2 (Worker.audioRingBuffer w))
          | Some (Worker.Error m) => (Rejected (mkError "Error" m), s2)
          | _ => (Pending, s2)
          end
      end
  end.

(** [_loadWasm()] and [_initScriptProcessor(sampleRate)]. *)
Definition initScriptProcessor (e : env) (s : t) : settled * t :=
  match loadWasm e with
  | Some err => (Rejected err, s)
  | None =>
      let engine : Engine.handle := [Engine.Init (sampleRate s) (bufferSize s)] in
      let bytes := bufferSize s * 4 in
      let s1 :=
        {| sampleRate := sampleRate s; bufferSize := bufferSize s;
           audioContext := audioContext s; moduleInstance := Some engine;
           worker := worker s; toWorker := toWorker s;
           initialized := initialized s; useWorklet := useWorklet s;
           scriptNode := false; workletNode := workletNode s;
           ringBuffer := ringBuffer s; audioRingBuffer := audioRingBuffer s;
           outLPtr := malloc e bytes; outRPtr := malloc e bytes |} in
      match createScriptProcessor e (bufferSize s) with
      | Some err => (Rejected err, s1)
      | None =>
          (Resolved,
           {| sampleRate := sampleRate s1; bufferSize := bufferSize s1;
              audioContext := audioContext s1; moduleInstance := moduleInstance s1;
              worker := worker s1; toWorker := toWorker s1;
              initialized := initialized s1; useWorklet := useWorklet s1;
              scriptNode := true; workletNode := workletNode s1;
              ringBuffer := ringBuffer s1; audioRingBuffer := audioRingBuffer s1;
              outLPtr := outLPtr s1; outRPtr := outRPtr s1 |})
      end
  end.

Definition with_initialized (s : t) (b : bool) : t :=
  {| sampleRate := sampleRate s; bufferSize := bufferSize s;
     audioContext := audioContext s; moduleInstance := moduleInstance s;
     worker := worker s; toWorker := toWorker s;
     initialized := b; useWorklet := useWorklet s;
     scriptNode := scriptNode s; workletNode := workletNode s;
     ringBuffer := ringBuffer s; audioRingBuffer := audioRingBuffer s;
     outLPtr := outLPtr s; outRPtr := outRPtr s |}.

(** [init()]: on any error, [initialized] is reset and the error rethrown. *)
Definition init (e : env) (s : t) : settled * t :=
  if initialized s then (Resolved, s)
  else
    match newAudioContext e with
    | Some err => (Rejected err, s)
    | None =>
        let s1 :=
          {| sampleRate := contextSampleRate e; bufferSize := bufferSize s;
             audioContext := true; moduleInstance := moduleInstance s;
             worker := worker s; toWorker := toWorker s;
             initialized := true; useWorklet := useWorklet s;
             scriptNode := scriptNode s; workletNode := workletNode s;
             ringBuffer := ringBuffer s; audioRingBuffer := audioRingBuffer s;
             outLPtr := outLPtr s; outRPtr := outRPtr s |} in
        let '(r, s2) :=
          if useWorklet s1 then
            match newWorker e with
            | Some err => (Rejected err, s1)
            | None =>
                let s1' :=
                  {| sampleRate := sampleRate s1; bufferSize := bufferSize s1;
                     audioContext := audioContext s1;
                     moduleInstance := moduleInstance s1;
                     worker := true; toWorker := toWorker s1;
                     initialized := initialized s1; useWorklet := useWorklet s1;
                     scriptNode := scriptNode s1; workletNode := workletNode s1;
                     ringBuffer := ringBuffer s1;
                     audioRingBuffer := audioRingBuffer s1;
                     outLPtr := outLPtr s1; outRPtr := outRPtr s1 |} in
                match addModule e with
                | Some _ =>
                    (Rejected (mkError "Error" "Failed to load worklet"), s1')
                | None => initWorkletAndWorker e s1'
                end
            end
          else initScriptProcessor e s1 in
        match r with
        | Rejected err => (Rejected err, with_initialized s2 false)
        | _ => (r, s2)
        end
    end.

Definition with_engine (s : t) (e : Engine.handle) : t :=
  {| sampleRate := sampleRate s; bufferSize := bufferSize s;
     audioContext := audioContext s; moduleInstance := Some e;
     worker := worker s; toWorker := toWorker s;
     initialized := initialized s; useWorklet := useWorklet s;
     scriptNode := scriptNode s; workletNode := workletNode s;
     ringBuffer := ringBuffer s; audioRingBuffer := audioRingBuffer s;
     outLPtr := outLPtr s; outRPtr := outRPtr s |}.

Definition with_ringBuffer (s : t) (rb : RingBuffer.t) : t :=
  {| sampleRate := sampleRate s; bufferSize := bufferSize s;
     audioContext := audioContext s; moduleInstance := moduleInstance s;
     worker := worker s; toWorker := toWorker s;
     initialized := initialized s; useWorklet := useWorklet s;
     scriptNode := scriptNode s; workletNode := workletNode s;
     ringBuffer := Some rb; audioRingBuffer := audioRingBuffer s;
     outLPtr := outLPtr s; outRPtr := outRPtr s |}.

Definition post (s : t) (m : Worker.message) : t :=
  {| sampleRate := sampleRate s; bufferSize := bufferSize s;
     audioContext := audioContext s; moduleInstance := moduleInstance s;
     worker := worker s; toWorker := toWorker s ++ [m];
     initialized := initialized s; useWorklet := useWorklet s;
     scriptNode := scriptNode s; workletNode := workletNode s;
     ringBuffer := ringBuffer s; audioRingBuffer := audioRingBuffer s;
     outLPtr := outLPtr s; outRPtr := outRPtr s |}.

(** [new Uint8Array([...])]: every element goes through [ToUint8]. *)
Definition uint8Array (l : list Z) : list Z := map JS.toUint8 l.

(** [noteOn(midiNote, velocity)], with the value of [write] when the record
    goes to the ring buffer. *)
Definition noteOn (midiNote : Z) (velocity : Q) (s : t) : option bool * t :=
  if negb (initialized s) then (None, s)
  else
    match useWorklet s && worker s, ringBuffer s with
    | true, Some rb =>
        let velocityByte := JS.floor (JS.mul velocity 127) in
        let '(ret, rb') :=
          RingBuffer.write (uint8Array [CMD_NOTE_ON; midiNote; velocityByte]) rb in
        (Some ret, with_ringBuffer s rb')
    | _, _ =>
        match moduleInstance s with
        | Some e =>
            (None, with_engine s (e ++ [Engine.NoteOn (Some midiNote) (Some velocity)]))
        | None => (None, s)
        end
    end.

(** [noteOff(midiNote)]. *)
Definition noteOff (midiNote : Z) (s : t) : option bool * t :=
  if negb (initialized s) then (None, s)
  else
    match useWorklet s && worker s, ringBuffer s with
    | true, Some rb =>
        let '(ret, rb') :=
          RingBuffer.write (uint8Array [CMD_NOTE_OFF; midiNote]) rb in
        (Some ret, with_ringBuffer s rb')
    | _, _ =>
        match moduleInstance s with
        | Some e => (None, with_engine s (e ++ [Engine.NoteOff (Some midiNote)]))
        | None => (None, s)
        end
    end.

(** [loadPreset(preset)]. *)
Definition loadPreset (p : preset) (s : t) : settled * t :=
  if negb (initialized s)
  then (Rejected (mkError "Error" "VitalSDK not initialized"), s)
  else
    match prepare p with
    | inl err => (Rejected err, s)
    | inr utf8Bytes =>
        if useWorklet s then
          if worker s then (Resolved, post s (Worker.MsgLoadPreset utf8Bytes))
          else (Resolved, s)
        else
          match moduleInstance s with
          | Some e =>
              let rc := load_preset_rc e utf8Bytes in
              let s' := with_engine s (e ++ [Engine.LoadPreset utf8Bytes]) in
              if rc =? 0 then (Resolved, s')
              else (Rejected (mkError "Error" "Failed to load preset"), s')
          | None => (Resolved, s)
          end
    end.

(** [setVolume(volume)]. *)
Definition setVolume (volume : Q) (s : t) : t :=
  if negb (initialized s) then s
  else if useWorklet s && worker s then post s (Worker.MsgSetVolume volume)
  else s.

(** The [onaudioprocess] handler of the script node, which is [_render(outL,
    outR)]: one call of the engine for the [len] frames asked for, copied
    into the two channels. [None] is the [RangeError] of a [set] that does
    not fit. *)
Definition onaudioprocess (bufferL bufferR : list sample) (s : t)
    : option (list sample * list sample) * t :=
  match moduleInstance s with
  | Some e =>
      if (outLPtr s =? 0) || (outRPtr s =? 0) then (Some (bufferL, bufferR), s)
      else
        let len := Z.of_nat (length bufferL) in
        let e' := e ++ [Engine.Render len] in
        let '(viewL, viewR) := rendered e' len in
        match JS.set viewL 0 bufferL, JS.set viewR 0 bufferR with
        | Some l, Some r => (Some (l, r), with_engine s e')
        | _, _ => (None, with_engine s e')
        end
  | None => (Some (bufferL, bufferR), s)
  end.

End Samples.

Arguments t : clear implicits.

End SDK.

(** ** The dual-context pipeline: one shared region, two objects

    [this.ringBuffer] of the SDK and [commandRingBuffer] of the worker are
    two [RingBuffer] objects over one [SharedArrayBuffer]: what one context
    stores in the header or the data, the other loads. A call of one
    context is therefore followed by handing the region to the object of
    the other context, which keeps the fields of its own. *)

Module Pipeline.

(** The region of [from] seen through the object [to]. *)
Definition shared (from to : RingBuffer.t) : RingBuffer.t :=
  {| RingBuffer.size := RingBuffer.size to;
     RingBuffer.writeIndex := RingBuffer.writeIndex from;
     RingBuffer.readIndex := RingBuffer.readIndex from;
     RingBuffer.buffer := RingBuffer.buffer from;
     RingBuffer.tempBuffer := RingBuffer.tempBuffer to |}.

Section Samples.

Context {sample : Type}.

Record t := mk {
  main : SDK.t sample;
  synth : Worker.t sample
}.

(** The worker sees what the SDK wrote. *)
Definition publish (s : SDK.t sample) (w : Worker.t sample) : Worker.t sample :=
  match SDK.ringBuffer s, Worker.commandRingBuffer w with
  | Some a, Some b => Worker.with_command w (shared a b)
  | _, _ => w
  end.

(** The SDK sees what the worker consumed. *)
Definition consume (w : Worker.t sample) (s : SDK.t sample) : SDK.t sample :=
  match Worker.commandRingBuffer w, SDK.ringBuffer s with
  | Some a, Some b => SDK.with_ringBuffer s (shared a b)
  | _, _ => s
  end.

Definition noteOn (midiNote : Z) (velocity : Q) (p : t) : t :=
  let s := snd (SDK.noteOn midiNote velocity (main p)) in
  {| main := s; synth := publish s (synth p) |}.

Definition noteOff (midiNote : Z) (p : t) : t :=
  let s := snd (SDK.noteOff midiNote (main p)) in
  {| main := s; synth := publish s (synth p) |}.

(** [processCommands()] in the worker; a [TypeError] leaves the pipeline as
    it is. *)
Definition processCommands (p : t) : t :=
  match Worker.processCommands (synth p) with
  | Some w => {| main := consume w (main p); synth := w |}
  | None => p
  end.

(** The calls the engine of the worker has received. *)
Definition engine (p : t) : Engine.handle :=
  default [] (Worker.moduleInstance (synth p)).

End Samples.

Arguments t : clear implicits.

End Pipeline.

(** ** Orchestration: stores/audio.ts *)

Module Store.

(** [haystack.includes(needle)]. *)
Fixpoint includes (needle haystack : string) : bool :=
  String.prefix needle haystack ||
  match haystack with
  | EmptyString => false
  | String _ rest => includes needle rest
  end.

Section Samples.

Context {sample : Type} (nan zero : sample).
Context (rendered : Engine.handle -> Z -> list sample * list sample).

(** The refs of the store that [initialize] reads or writes. *)
Record t := mk {
  isInitialized : bool;
  isLoading : bool;
  initializationError : option string;
  bufferSize : Z;
  volume : Q;
  processorType : string;
  forceScriptProcessor : bool;
  vitalInstance : option (SDK.t sample)
}.

Definition with_loading (st : t) (b : bool) : t :=
  {| isInitialized := isInitialized st; isLoading := b;
     initializationError := initializationError st; bufferSize := bufferSize st;
     volume := volume st; processorType := processorType st;
     forceScriptProcessor := forceScriptProcessor st;
     vitalInstance := vitalInstance st |}.

(** The [catch] and [finally] of [initialize]. *)
Definition failed (st : t) (e : SDK.error) : t :=
  let errStr := (SDK.name e +:+ ": " +:+ SDK.message e)%string in
  let msg :=
    if includes "IndexSizeError" errStr || includes "buffer size" errStr
    then "Invalid Audio Buffer Size detected. Please reset settings."%string
    else if String.eqb (SDK.message e) ""
         then "Unknown error during audio initialization"%string
         else SDK.message e in
  {| isInitialized := isInitialized st; isLoading := false;
     initializationError := Some msg; bufferSize := bufferSize st;
     volume := volume st; processorType := processorType st;
     forceScriptProcessor := forceScriptProcessor st;
     vitalInstance := vitalInstance st |}.

(** The end of the [try] block of [initialize], once a [VitalSDK] is up. *)
Definition succeeded (st : t) (vital : SDK.t sample) (type : string) : t :=
  let type' :=
    if String.eqb type "Unknown"
    then if SDK.isWorklet vital then "Audio Worklet"%string
         else "ScriptProcessorNode"%string
    else type in
  {| isInitialized := true; isLoading := false;
     initializationError := None; bufferSize := bufferSize st;
     volume := volume st; processorType := type';
     forceScriptProcessor := forceScriptProcessor st;
     vitalInstance := Some (SDK.setVolume (volume st) vital) |}.

(** [initialize()]. A promise that never settles leaves the store loading. *)
Definition initialize (e : SDK.env) (st : t) : t :=
  if isInitialized st || isLoading st then st
  else
    let st1 :=
      {| isInitialized := isInitialized st; isLoading := true;
         initializationError := None; bufferSize := bufferSize st;
         volume := volume st; processorType := processorType st;
         forceScriptProcessor := forceScriptProcessor st;
         vitalInstance := vitalInstance st |} in
    let shouldUseWorklet := negb (forceScriptProcessor st1) in
    let vital := SDK.new (bufferSize st1) shouldUseWorklet in
    match SDK.init nan zero rendered e vital with
    | (SDK.Resolved, vital') => succeeded st1 vital' (processorType st1)
    | (SDK.Pending, _) => st1
    | (SDK.Rejected initError, _) =>
        if shouldUseWorklet then
          (* worklet initialisation failed: try the fallback *)
          let vital2 := SDK.new (bufferSize st1) false in
          match SDK.init nan zero rendered e vital2 with
          | (SDK.Resolved, vital2') =>
              succeeded st1 vital2' "ScriptProcessorNode (Fallback)"
          | (SDK.Pending, _) => st1
          | (SDK.Rejected err, _) => failed st1 err
          end
        else failed st1 initError
    end.

(** [noteOn(note, velocity)] and [noteOff(note)] of the store. *)
Definition noteOn (note : Z) (velocity : Q) (st : t) : t :=
  match vitalInstance st with
  | None => st
  | Some vital =>
      {| isInitialized := isInitialized st; isLoading := isLoading st;
         initializationError := initializationError st;
         bufferSize := bufferSize st; volume := volume st;
         processorType := processorType st;
         forceScriptProcessor := forceScriptProcessor st;
         vitalInstance := Some (snd (SDK.noteOn note velocity vital)) |}
  end.

Definition noteOff (note : Z) (st : t) : t :=
  match vitalInstance st with
  | None => st
  | Some vital =>
      {| isInitialized := isInitialized st; isLoading := isLoading st;
         initializationError := initializationError st;
         bufferSize := bufferSize st; volume := volume st;
         processorType := processorType st;
         forceScriptProcessor := forceScriptProcessor st;
         vitalInstance := Some (snd (SDK.noteOff note vital)) |}
  end.

End Samples.

Arguments t : clear implicits.

End Store.

(** ** Representation invariants

    What the bytes and the indices of a ring buffer stand for between two
    calls, as long as the indices have not left the range of [Int32]. *)

Module Rep.

Definition is_byte (b : Z) : Prop := 0 <= b < 256.

(** A record that the one-byte length prefix can describe. *)
Definition payload_ok (p : list Z) : Prop :=
  (length p <= 255)%nat /\ Forall is_byte p.

(** The wire format [[length][payload]] and a sequence of records on it. *)
Definition encode (p : list Z) : list Z := Z.of_nat (length p) :: p.

Definition stream (ps : list (list Z)) : list Z := concat (map encode ps).

(** The position of the running index [k] in a region of [sz] elements. *)
Definition pos (sz k : Z) : nat := Z.to_nat (k mod sz).

(** The region holds [bytes] from the running index [start] on. *)
Definition holds (sz : Z) (buf : list Z) (start : Z) (bytes : list Z) : Prop :=
  forall (i : nat) (b : Z),
    bytes !! i = Some b -> buf !! pos sz (start + Z.of_nat i) = Some b.

(** The ControlQueue holds exactly the records [pending], in order, between
    the read index and the write index. *)
Record control (rb : RingBuffer.t) (pending : list (list Z)) : Prop := {
  c_size : 0 < RingBuffer.size rb;
  c_length : length (RingBuffer.buffer rb) = Z.to_nat (RingBuffer.size rb);
  c_read : 0 <= RingBuffer.readIndex rb;
  c_write : RingBuffer.writeIndex rb
            = RingBuffer.readIndex rb + Z.of_nat (length (stream pending));
  c_int32 : RingBuffer.writeIndex rb < 2 ^ 31;
  c_fits : Z.of_nat (length (stream pending)) <= RingBuffer.size rb;
  c_holds : holds (RingBuffer.size rb) (RingBuffer.buffer rb)
              (RingBuffer.readIndex rb) (stream pending);
  c_payloads : Forall payload_ok pending;
  c_temp : match RingBuffer.tempBuffer rb with
           | Some tb => (256 <= length tb)%nat
           | None => True
           end
}.

(** The AudioStreamBuffer holds between 0 and [capacity] frames, in a data
    array of whole frames. *)
Record audio {sample : Type} (rb : AudioRingBuffer.t sample) : Prop := {
  a_capacity : 0 < AudioRingBuffer.capacity rb;
  a_channels : 0 < AudioRingBuffer.channelCount rb;
  a_length : Z.of_nat (length (AudioRingBuffer.buffer rb))
             = AudioRingBuffer.capacity rb * AudioRingBuffer.channelCount rb;
  a_read : 0 <= AudioRingBuffer.readIndex rb;
  a_order : AudioRingBuffer.readIndex rb <= AudioRingBuffer.writeIndex rb;
  a_int32 : AudioRingBuffer.writeIndex rb < 2 ^ 31;
  a_fits : AudioRingBuffer.writeIndex rb - AudioRingBuffer.readIndex rb
           <= AudioRingBuffer.capacity rb
}.

(** [n] times the calls [ops], one after the other. *)
Fixpoint cycles {A} (n : nat) (ops : list A) : list A :=
  match n with
  | O => []
  | S n' => ops ++ cycles n' ops
  end.

End Rep.

(** ** Inputs of the scenarios *)

Module Scenario.

(** Samples for the scenarios: a level, or [NaN]. *)
Inductive pcm := Level (v : Z) | NotANumber.

Definition silence : pcm := Level 0.

(** The largest record the wire format can describe: 255 bytes. *)
Definition full_record : list Z := replicate 255%nat 0.

(** A producer and a consumer taking turns [2 ^ 23] times on a queue of
    4096 bytes: a record of 255 bytes is written, then the queue is
    drained. The records take [2 ^ 31] bytes in all. *)
Definition wrap_trace : list RingBuffer.op :=
  Rep.cycles (Z.to_nat (2 ^ 23)) [RingBuffer.Write full_record; RingBuffer.Drain].

(** A record of 256 bytes, one more than the length prefix can describe. *)
Definition long_record : list Z := replicate 256%nat 200.

(** A producer and a consumer taking turns [2 ^ 19] times on an audio
    buffer of 4096 stereo frames: a whole buffer is written, then read. *)
Definition audio_wrap_trace : list (AudioRingBuffer.op pcm) :=
  Rep.cycles (Z.to_nat (2 ^ 19))
    [AudioRingBuffer.Write (replicate (Z.to_nat 8192) silence);
     AudioRingBuffer.Read (replicate (Z.to_nat 4096) silence)
       (replicate (Z.to_nat 4096) silence) (Z.to_nat 4096)].

(** What the engine of the scenarios renders: a level per channel. *)
Definition tone (e : Engine.handle) (frames : Z) : list pcm * list pcm :=
  (replicate (Z.to_nat frames) (Level 1), replicate (Z.to_nat frames) (Level (-1))).

(** A worker that is ready, with blocks of 2 frames, a target of 4 frames
    and an audio buffer of 8 frames. *)
Definition small_worker : Worker.t pcm :=
  {| Worker.moduleInstance := Some [Engine.Init 0 2];
     Worker.audioRingBuffer := Some (AudioRingBuffer.create silence 2 8);
     Worker.commandRingBuffer := Some (RingBuffer.create 16);
     Worker.tempBufferInterleaved := replicate 4 silence;
     Worker.isReady := true;
     Worker.targetBufferSize := 4;
     Worker.bufferSize := 2;
     Worker.posted := [Worker.Ready] |}.

(** The same worker late in a long session: its audio buffer is drained
    and both indices stand at [2 ^ 31 - 2], which takes [2 ^ 30 - 1] blocks
    written and read. *)
Definition late_worker : Worker.t pcm :=
  {| Worker.moduleInstance := Some [Engine.Init 0 2];
     Worker.audioRingBuffer :=
       Some {| AudioRingBuffer.channelCount := 2; AudioRingBuffer.capacity := 8;
               AudioRingBuffer.writeIndex := 2 ^ 31 - 2;
               AudioRingBuffer.readIndex := 2 ^ 31 - 2;
               AudioRingBuffer.buffer := replicate 16 silence |};
     Worker.commandRingBuffer := Some (RingBuffer.create 16);
     Worker.tempBufferInterleaved := replicate 4 silence;
     Worker.isReady := true;
     Worker.targetBufferSize := 4;
     Worker.bufferSize := 2;
     Worker.posted := [Worker.Ready] |}.

(** An output callback on an audio buffer that holds one frame, and an
    output of two channels of two samples as the host hands it over. *)
Definition small_worklet : Worklet.t pcm :=
  {| Worklet.audioRingBuffer :=
       Some (snd (AudioRingBuffer.write [Level 5; Level 6]
                    (AudioRingBuffer.create silence 2 8))) |}.

Definition quiet_output : list (list pcm) := [[silence; silence]; [silence; silence]].

(** A host in which every step of the dual-context bring-up succeeds. *)
Definition ready_env : SDK.env :=
  {| SDK.newAudioContext := None;
     SDK.contextSampleRate := 48000;
     SDK.newWorker := None;
     SDK.addModule := None;
     SDK.newSharedArrayBuffer := None;
     SDK.newWorkletNode := None;
     SDK.workerReply := Some Worker.Ready;
     SDK.workerRuns := 0;
     SDK.loadWasm := None;
     SDK.malloc := fun bytes => 65536 + bytes;
     SDK.createScriptProcessor := fun _ => None |}.

(** A host without [SharedArrayBuffer]. *)
Definition unsupported_env : SDK.env :=
  {| SDK.newAudioContext := None;
     SDK.contextSampleRate := 48000;
     SDK.newWorker := None;
     SDK.addModule := None;
     SDK.newSharedArrayBuffer :=
       Some (SDK.mkError "ReferenceError" "SharedArrayBuffer is not defined");
     SDK.newWorkletNode := None;
     SDK.workerReply := None;
     SDK.workerRuns := 0;
     SDK.loadWasm := None;
     SDK.malloc := fun bytes => 65536 + bytes;
     SDK.createScriptProcessor := fun _ => None |}.


Definition silent_worker_env : SDK.env :=
  {| SDK.newAudioContext := None;
     SDK.contextSampleRate := 48000;
     SDK.newWorker := None;
     SDK.addModule := None;
     SDK.newSharedArrayBuffer := None;
     SDK.newWorkletNode := None;
     SDK.workerReply := None;
     SDK.workerRuns := 0;
     SDK.loadWasm := None;
     SDK.malloc := fun bytes => 65536 + bytes;
     SDK.createScriptProcessor := fun _ => None |}.

(** The SDK after [init()] in [ready_env], the worker at that time (it has
    gone through [initWasm] on the ['init'] message of that SDK and has
    rendered its first block), and the two together. *)
Definition ready_sdk : SDK.t pcm :=
  snd (SDK.init NotANumber silence tone ready_env (SDK.new 1024 true)).

Definition ready_worker : Worker.t pcm :=
  SDK.workerAtReady NotANumber silence tone ready_env 48000 1024
    (AudioRingBuffer.create silence 2 4096) (RingBuffer.create 4096).

Definition ready_pipeline : Pipeline.t pcm :=
  {| Pipeline.main := ready_sdk; Pipeline.synth := ready_worker |}.

(** A store before [initialize()], with the defaults of the application. *)
Definition fresh_store : Store.t pcm :=
  {| Store.isInitialized := false;
     Store.isLoading := false;
     Store.initializationError := None;
     Store.bufferSize := 1024;
     Store.volume := (4 # 5)%Q;
     Store.processorType := "Unknown";
     Store.forceScriptProcessor := false;
     Store.vitalInstance := None |}.

(** Presets given as text: ["{}"] is JSON, everything else is taken for
    text that [JSON.parse] refuses; and an engine that refuses every
    preset. *)
Definition prepare_text (p : string) : SDK.error + list Z :=
  if String.eqb p "{}" then inr [123; 125]
  else inl (SDK.mkError "SyntaxError" "Unexpected end of JSON input").

Definition refuse_all (e : Engine.handle) (bytes : list Z) : Z := 1.

End Scenario.

(** ** Stereo streams through the AudioStreamBuffer *)

Module Stereo.

Section Samples.

Context {sample : Type} (nan : sample).

(** The frames of an interleaved block, [(block[2i], block[2i + 1])], and
    the samples of its two channels. *)
Fixpoint frames (block : list sample) : list (sample * sample) :=
  match block with
  | l :: r :: rest => (l, r) :: frames rest
  | _ => []
  end.

Definition lefts (block : list sample) : list sample := (frames block).*1.
Definition rights (block : list sample) : list sample := (frames block).*2.

(** The data array of [len] samples holds [samples] from the running sample
    index [start] on, around the end of the array. *)
Definition holds (len : Z) (buf : list sample) (start : Z) (samples : list sample)
    : Prop :=
  forall (i : nat) (s : sample),
    samples !! i = Some s -> buf !! Z.to_nat ((start + Z.of_nat i) mod len) = Some s.

(** A two-channel buffer holds exactly the interleaved samples [pending],
    oldest first, between the read index and the write index. *)
Record stereo (rb : AudioRingBuffer.t sample) (pending : list sample) : Prop := {
  s_audio : Rep.audio rb;
  s_channels : AudioRingBuffer.channelCount rb = 2;
  s_length : Z.of_nat (length pending)
             = 2 * (AudioRingBuffer.writeIndex rb - AudioRingBuffer.readIndex rb);
  s_holds : holds (2 * AudioRingBuffer.capacity rb) (AudioRingBuffer.buffer rb)
              (2 * AudioRingBuffer.readIndex rb) pending
}.

(** Running calls of the producer and of the consumer, one whole call at a
    time: the samples of the writes that returned a frame count other than
    0, the samples that the reads that returned [true] left in the first
    [frames] places of the two output channels, and the final object. *)
Fixpoint play (ops : list (AudioRingBuffer.op sample)) (rb : AudioRingBuffer.t sample)
    : list sample * (list sample * list sample) * AudioRingBuffer.t sample :=
  match ops with
  | [] => ([], ([], []), rb)
  | AudioRingBuffer.Write input :: ops' =>
      let '(res, rb1) := AudioRingBuffer.write input rb in
      let '(written, (outL, outR), rb') := play ops' rb1 in
      let taken :=
        match res with
        | AudioRingBuffer.Returned f => if Qeq_bool f 0 then [] else input
        | AudioRingBuffer.RangeError => []
        end in
      (taken ++ written, (outL, outR), rb')
  | AudioRingBuffer.Read leftOut rightOut n :: ops' =>
      let '(ok, (l, r), rb1) :=
        AudioRingBuffer.read nan leftOut rightOut (Z.of_nat n) rb in
      let '(written, (outL, outR), rb') := play ops' rb1 in
      if ok then (written, (take n l ++ outL, take n r ++ outR), rb')
      else (written, (outL, outR), rb')
  end.

(** The calls of a well-formed trace: a write hands over whole frames, a
    read hands over output channels that have room for the frames asked. *)
Definition whole (o : AudioRingBuffer.op sample) : Prop :=
  match o with
  | AudioRingBuffer.Write input => Z.even (Z.of_nat (length input)) = true
  | AudioRingBuffer.Read leftOut rightOut n =>
      (n <= length leftOut)%nat /\ (n <= length rightOut)%nat
  end.

End Samples.

End Stereo.

(** ** Note events through the dual-context pipeline *)

Module Notes.

(** What a key sends: [noteOn(note, velocity)] or [noteOff(note)]. *)
Inductive event := On (note : Z) (velocity : Q) | Off (note : Z).

(** The record of an event on the ControlQueue, and the call of the engine
    that [processCommands] makes of that record. *)
Definition record (ev : event) : list Z :=
  match ev with
  | On note velocity =>
      SDK.uint8Array [SDK.CMD_NOTE_ON; note; JS.floor (JS.mul velocity 127)]
  | Off note => SDK.uint8Array [SDK.CMD_NOTE_OFF; note]
  end.

Definition call (ev : event) : Engine.call :=
  match ev with
  | On note velocity =>
      Engine.NoteOn (Some (JS.toUint8 note))
        (Some (JS.nearest
                 (inject_Z (JS.toUint8 (JS.floor (JS.mul velocity 127))) / 127)))
  | Off note => Engine.NoteOff (Some (JS.toUint8 note))
  end.

(** What happens in the pipeline, one whole call at a time: the main thread
    sends an event, or the worker runs [processCommands]. *)
Inductive step := Send (ev : event) | Process.

Section Samples.

Context {sample : Type}.

(** The value of [write] for an event, where [noteOn] or [noteOff] reach
    the ring buffer. *)
Definition sent (ev : event) (s : SDK.t sample) : option bool :=
  match ev with
  | On note velocity => fst (SDK.noteOn note velocity s)
  | Off note => fst (SDK.noteOff note s)
  end.

Definition send (ev : event) (p : Pipeline.t sample) : Pipeline.t sample :=
  match ev with
  | On note velocity => Pipeline.noteOn note velocity p
  | Off note => Pipeline.noteOff note p
  end.

(** Running a sequence of steps: the events whose record the ring buffer
    took, oldest first, and the final pipeline. *)
Fixpoint run (steps : list step) (p : Pipeline.t sample)
    : list event * Pipeline.t sample :=
  match steps with
  | [] => ([], p)
  | Send ev :: steps' =>
      let taken :=
        match sent ev (Pipeline.main p) with
        | Some true => [ev]
        | _ => []
        end in
      let '(acc, p') := run steps' (send ev p) in
      (taken ++ acc, p')
  | Process :: steps' => run steps' (Pipeline.processCommands p)
  end.

(** The running pipeline between two steps: the SDK writes to the ring
    buffer [a], the region holds the records of the events [pending], and
    the engine of the worker has received the calls [e]. *)
Record linked (p : Pipeline.t sample) (a : RingBuffer.t) (pending : list event)
    (e : Engine.handle) : Prop := {
  l_initialized : SDK.initialized (Pipeline.main p) = true;
  l_useWorklet : SDK.useWorklet (Pipeline.main p) = true;
  l_worker : SDK.worker (Pipeline.main p) = true;
  l_ringBuffer : SDK.ringBuffer (Pipeline.main p) = Some a;
  l_control : Rep.control a (map record pending);
  l_command : exists b,
      Worker.commandRingBuffer (Pipeline.synth p) = Some b /\
      Rep.control b (map record pending) /\
      RingBuffer.size b = RingBuffer.size a /\
      RingBuffer.writeIndex b = RingBuffer.writeIndex a;
  l_engine : Worker.moduleInstance (Pipeline.synth p) = Some e
}.

End Samples.

End Notes.

(** ** The end of a VitalSDK: [destroy()] *)

Module Lifecycle.

Section Samples.

Context {sample : Type}.

(** [destroy()]: the worker is terminated, the script node disconnected
    and the context closed; the two output pointers are freed and cleared
    when there is an engine to free them; the engine handle, the worklet
    node and the ring buffers stay where they are. *)
Definition destroy (s : SDK.t sample) : SDK.t sample :=
  let freed :=
    negb (SDK.outLPtr s =? 0) && bool_decide (is_Some (SDK.moduleInstance s)) in
  {| SDK.sampleRate := SDK.sampleRate s; SDK.bufferSize := SDK.bufferSize s;
     SDK.audioContext := false; SDK.moduleInstance := SDK.moduleInstance s;
     SDK.worker := false; SDK.toWorker := SDK.toWorker s;
     SDK.initialized := false; SDK.useWorklet := SDK.useWorklet s;
     SDK.scriptNode := false; SDK.workletNode := SDK.workletNode s;
     SDK.ringBuffer := SDK.ringBuffer s;
     SDK.audioRingBuffer := SDK.audioRingBuffer s;
     SDK.outLPtr := if freed then 0 else SDK.outLPtr s;
     SDK.outRPtr := if freed then 0 else SDK.outRPtr s |}.

End Samples.

End Lifecycle.

(** ** Note names: MidiUtils *)

Module MidiUtils.

(** The text of an integer in a template literal. *)
Definition ofInt (z : Z) : string := DecimalString.NilZero.string_of_int (Z.to_int z).

(** What [noteNameToMidi] throws: [Invalid note name: ${noteName}],
    [Invalid note: ${note}] or [MIDI note out of range: ${midi}]. *)
Inductive error :=
| InvalidNoteName (noteName : string)
| InvalidNote (note : string)
| OutOfRange (midi : Z).

Definition noteMap : list (string * Z) :=
  [("C", 0); ("C#", 1); ("Db", 1);
   ("D", 2); ("D#", 3); ("Eb", 3);
   ("E", 4);
   ("F", 5); ("F#", 6); ("Gb", 6);
   ("G", 7); ("G#", 8); ("Ab", 8);
   ("A", 9); ("A#", 10); ("Bb", 10);
   ("B", 11)]%string.

(** [noteMap[note]], [None] when [note] is not a key of the object. *)
Fixpoint entry (note : string) (map : list (string * Z)) : option Z :=
  match map with
  | [] => None
  | (key, value) :: map' => if String.eqb key note then Some value else entry note map'
  end.

Definition is_digit (c : Ascii.ascii) : bool :=
  (48 <=? Ascii.nat_of_ascii c)%nat && (Ascii.nat_of_ascii c <=? 57)%nat.

(** [[A-G]] *)
Definition is_letter (c : Ascii.ascii) : bool :=
  (65 <=? Ascii.nat_of_ascii c)%nat && (Ascii.nat_of_ascii c <=? 71)%nat.

(** [[#b]] *)
Definition is_accidental (c : Ascii.ascii) : bool :=
  Ascii.eqb c "#"%char || Ascii.eqb c "b"%char.

Fixpoint all_digits (s : string) : bool :=
  match s with
  | EmptyString => true
  | String c rest => is_digit c && all_digits rest
  end.

(** [-?\d+] up to the end of the text. *)
Definition is_integer (s : string) : bool :=
  let digits := match s with String "-"%char d => d | _ => s end in
  negb (String.eqb digits EmptyString) && all_digits digits.

(** [noteName.match(/^([A-G][#b]?)(-?\d+)$/)]: the two groups of the
    match, if there is one. When the second character is an accidental and
    the rest is no integer, leaving the accidental to the second group
    does not help, since no integer starts with it. *)
Definition match_note (noteName : string) : option (string * string) :=
  match noteName with
  | String letter rest =>
      if is_letter letter then
        let '(note, rest') :=
          match rest with
          | String a rest2 =>
              if is_accidental a then (String letter (String a EmptyString), rest2)
              else (String letter EmptyString, rest)
          | EmptyString => (String letter EmptyString, rest)
          end in
        if is_integer rest' then Some (note, rest') else None
      else None
  | EmptyString => None
  end.

Fixpoint digits_value (acc : Z) (digits : string) : Z :=
  match digits with
  | EmptyString => acc
  | String c rest => digits_value (acc * 10 + (Z.of_nat (Ascii.nat_of_ascii c) - 48)) rest
  end.

(** [parseInt(text)] for a text of the form [-?\d+]. The value is exact;
    the number of JavaScript is the same below [2 ^ 53] and is, like the
    exact one, outside of 0..127 after the arithmetic of [noteNameToMidi]
    from there on. *)
Definition parseInt (text : string) : Z :=
  match text with
  | String "-"%char digits => - digits_value 0 digits
  | _ => digits_value 0 text
  end.

Definition noteNameToMidi (noteName : string) : error + Z :=
  match match_note noteName with
  | None => inl (InvalidNoteName noteName)
  | Some (note, digits) =>
      let octave := parseInt digits in
      match entry note noteMap with
      | None => inl (InvalidNote note)
      | Some offset =>
          let midi := (octave + 1) * 12 + offset in
          if (midi <? 0) || (127 <? midi) then inl (OutOfRange midi) else inr midi
      end
  end.

Definition noteNames : list string :=
  ["C"; "C#"; "D"; "D#"; "E"; "F"; "F#"; "G"; "G#"; "A"; "A#"; "B"]%string.

(** [midiToNoteName(midi)] for an integer: [noteNames[midi % 12]] is
    [undefined] for a negative remainder, and the template literal then
    reads ["undefined"]. *)
Definition midiToNoteName (midi : Z) : string :=
  let octave := midi / 12 - 1 in
  let note := JS.get noteNames (JS.rem midi 12) in
  (default "undefined" note +:+ ofInt octave)%string.

End MidiUtils.

(** ** The keys of the grid *)

Module Keyboard.

Definition rows : Z := 3.
Definition cols : Z := 7.

(** C major scale offsets: C, D, E, F, G, A, B. *)
Definition scaleOffsets : list Z := [0; 2; 4; 5; 7; 9; 11].

Record keyInfo := mkKeyInfo {
  midiNote : Z;
  label : string;
  dotPos : string;
  octave : Z
}.

(** [getKeyInfo(r, c)] with [audioStore.baseOctave]. *)
Definition getKeyInfo (baseOctave r c : Z) : keyInfo :=
  let rowOctaveOffset := rows - r in
  let scaleIndex := c - 1 in
  let noteOffset := default 0 (JS.get scaleOffsets (Some scaleIndex)) in
  let octave := baseOctave + rowOctaveOffset in
  let midiNote := (octave + 1) * 12 + noteOffset in
  let dotPos := "none" in
  let dotPos := if r =? 1 then "top" else dotPos in
  let dotPos := if r =? 3 then "bottom" else dotPos in
  {| midiNote := midiNote; label := MidiUtils.ofInt c; dotPos := dotPos;
     octave := octave |}%string.

(** [shiftOctave(delta)] of the store, on [baseOctave]. *)
Definition shiftOctave (delta baseOctave : Z) : Z :=
  let newOctave := baseOctave + delta in
  if (0 <=? newOctave) && (newOctave <=? 8) then newOctave else baseOctave.

(** The calls a key makes on the audio store: [noteOn(midiNote)], with the
    velocity left to the default of the store, and [noteOff(midiNote)]. *)
Inductive call := NoteOn (midiNote : Z) | NoteOff (midiNote : Z).

(** A [PianoKey]: its [isPressed], and the calls it has made, oldest
    first. *)
Record key := mkKey { isPressed : bool; calls : list call }.

(** [startNote(e)] and [stopNote(e)] of the key for [midiNote]. *)
Definition startNote (midiNote : Z) (k : key) : key :=
  {| isPressed := true; calls := calls k ++ [NoteOn midiNote] |}.

Definition stopNote (midiNote : Z) (k : key) : key :=
  if isPressed k
  then {| isPressed := false; calls := calls k ++ [NoteOff midiNote] |}
  else k.

(** The pointer events of a key: [mousedown] and [touchstart] start the
    note; [mouseup], [touchend], [mouseleave] and [touchcancel] stop it. *)
Inductive gesture := Start | Stop.

Definition handle (midiNote : Z) (k : key) (g : gesture) : key :=
  match g with
  | Start => startNote midiNote k
  | Stop => stopNote midiNote k
  end.

End Keyboard.

(** * Properties *)

(** ** JavaScript numbers and typed arrays *)

Module JSFacts.

Lemma toInt32_id x : - 2 ^ 31 <= x < 2 ^ 31 -> JS.toInt32 x = x.
Proof.
  intros H. unfold JS.toInt32. rewrite Z.mod_small; lia.
Qed.

Lemma toInt32_wrap x : 2 ^ 31 <= x < 2 ^ 32 + 2 ^ 31 -> JS.toInt32 x = x - 2 ^ 32.
Proof.
  intros H. unfold JS.toInt32.
  replace (x + 2 ^ 31) with ((x + 2 ^ 31 - 2 ^ 32) + 1 * 2 ^ 32) by lia.
  rewrite Z.mod_add by lia. rewrite Z.mod_small; lia.
Qed.

Lemma toInt32_range x : - 2 ^ 31 <= JS.toInt32 x < 2 ^ 31.
Proof.
  unfold JS.toInt32.
  pose proof (Z.mod_pos_bound (x + 2 ^ 31) (2 ^ 32) ltac:(lia)). lia.
Qed.

Lemma toUint8_id b : 0 <= b < 256 -> JS.toUint8 b = b.
Proof. intros H. unfold JS.toUint8. apply Z.mod_small. lia. Qed.

Lemma toUint8_byte x : 0 <= JS.toUint8 x < 256.
Proof. unfold JS.toUint8. apply Z.mod_pos_bound. lia. Qed.

Lemma rem_nonneg k sz : 0 < sz -> 0 <= k -> JS.rem k sz = Some (k mod sz).
Proof.
  intros Hsz Hk. unfold JS.rem.
  destruct (Z.eqb_spec sz 0); [lia|].
  rewrite Z.rem_mod_nonneg by lia. reflexivity.
Qed.

Lemma position_mod (len : nat) k sz :
  0 < sz -> Z.of_nat len = sz ->
  JS.position len (Some (k mod sz)) = Some (Z.to_nat (k mod sz)).
Proof.
  intros Hsz Hlen. unfold JS.position.
  pose proof (Z.mod_pos_bound k sz Hsz).
  destruct (Z.leb_spec 0 (k mod sz)); [|lia].
  destruct (Z.ltb_spec (k mod sz) (Z.of_nat len)); [|lia].
  reflexivity.
Qed.

(** Two running indices less than [sz] apart sit at different positions. *)
Lemma mod_window a b sz :
  0 < sz -> a mod sz = b mod sz -> - sz < a - b < sz -> a = b.
Proof.
  intros Hsz Heq Hwin.
  assert (Hd : (a - b) mod sz = 0).
  { rewrite Zminus_mod, Heq, Z.sub_diag. apply Z.mod_0_l. lia. }
  apply Z.mod_divide in Hd; [|lia].
  destruct Hd as [q Hq].
  assert (q = 0) by (destruct (Z.lt_trichotomy q 0) as [|[|]]; nia).
  subst q. lia.
Qed.

Lemma subarray_prefix {A} (data rest : list A) :
  JS.subarray 0 (Z.of_nat (length data)) (data ++ rest) = data.
Proof.
  unfold JS.subarray, JS.clamp. rewrite length_app.
  simpl (0 <? 0).
  destruct (Z.ltb_spec (Z.of_nat (length data)) 0); [lia|].
  rewrite !Z.min_l by lia. rewrite Nat2Z.id. simpl.
  rewrite Nat.sub_0_r. apply take_app_length.
Qed.

(** [dst.set(src)] at offset 0, for a source that fits. *)
Lemma set_front {A} (src dst : list A) :
  (length src <= length dst)%nat ->
  JS.set src 0 dst = Some (src ++ drop (length src) dst).
Proof.
  intros Hfit. unfold JS.set.
  destruct (Z.ltb_spec (Z.of_nat (length dst)) (0 + Z.of_nat (length src))); [lia|].
  reflexivity.
Qed.

(** Case analysis on the comparisons of the goal. *)
Ltac zcases :=
  repeat match goal with
    | |- context [?a <? ?b] => destruct (Z.ltb_spec a b)
    | |- context [?a <=? ?b] => destruct (Z.leb_spec a b)
    end;
  cbn [andb orb negb]; try lia.

Lemma get_nonneg {A} (src : list A) z :
  0 <= z -> JS.get src (Some z) = src !! Z.to_nat z.
Proof.
  intros Hz. unfold JS.get, JS.position.
  destruct (Z.leb_spec 0 z); [|lia].
  destruct (Z.ltb_spec z (Z.of_nat (length src))); cbn [andb]; [reflexivity|].
  symmetry. apply lookup_ge_None. lia.
Qed.

Lemma put_nonneg {A} (dst : list A) z v :
  0 <= z -> JS.put (Some z) v dst = <[Z.to_nat z := v]> dst.
Proof.
  intros Hz. unfold JS.put, JS.position.
  destruct (Z.leb_spec 0 z); [|lia].
  destruct (Z.ltb_spec z (Z.of_nat (length dst))); cbn [andb]; [reflexivity|].
  symmetry. apply list_insert_ge. lia.
Qed.

Lemma even_double i : Z.even (i * 2) = true.
Proof. rewrite Z.even_mul. apply orb_true_r. Qed.

Lemma even_double_1 i : Z.even (i * 2 + 1) = false.
Proof. rewrite Z.even_add, even_double. reflexivity. Qed.

Lemma half_double_1 i : (i * 2 + 1) / 2 = i.
Proof. symmetry. apply (Z.div_unique (i * 2 + 1) 2 i 1); lia. Qed.

(** *** Doubles *)





(** The doubles are not the rationals: for the double nearest to 1/127 the
    product with 127 is the double 1, and the byte is 1, where the exact
    product is below 1. *)
Lemma velocity_byte_rounds_up :
  JS.floor (JS.mul (JS.nearest (1 # 127)) 127) = 1 /\
  Qfloor (JS.nearest (1 # 127) * 127) = 0.
Proof. split; vm_compute; reflexivity. Qed.


End JSFacts.
(** ** ControlQueue *)

Module RingBufferFacts.

Import RingBuffer Rep JSFacts.

Section Region.

Variable sz : Z.
Hypothesis Hsz : 0 < sz.

Lemma pos_lt k : (pos sz k < Z.to_nat sz)%nat.
Proof.
  unfold pos. pose proof (Z.mod_pos_bound k sz Hsz). lia.
Qed.

Lemma pos_inj a b : pos sz a = pos sz b -> - sz < a - b < sz -> a = b.
Proof.
  unfold pos. intros Heq Hwin.
  pose proof (Z.mod_pos_bound a sz Hsz). pose proof (Z.mod_pos_bound b sz Hsz).
  apply (mod_window a b sz); lia.
Qed.

Lemma store_insert k v (buf : list Z) :
  length buf = Z.to_nat sz -> 0 <= k ->
  store sz k v buf = <[pos sz k := JS.toUint8 v]> buf.
Proof.
  intros Hlen Hk. unfold store, JS.put.
  rewrite rem_nonneg by lia. rewrite (position_mod _ k sz) by lia.
  reflexivity.
Qed.

Lemma load_lookup k (buf : list Z) :
  length buf = Z.to_nat sz -> 0 <= k -> load sz k buf = buf !! pos sz k.
Proof.
  intros Hlen Hk. unfold load, JS.get.
  rewrite rem_nonneg by lia. rewrite (position_mod _ k sz) by lia.
  reflexivity.
Qed.

(** What the write loop leaves in the region: the bytes ([ToUint8] of what
    was given), at the positions of the running indices from [base] on, and
    everything else as it was. *)
Lemma write_bytes_spec data : forall base buf,
  0 <= base -> length buf = Z.to_nat sz ->
  Z.of_nat (length data) <= sz ->
  length (write_bytes sz base data buf) = length buf /\
  holds sz (write_bytes sz base data buf) base (map JS.toUint8 data) /\
  (forall j : nat,
      (forall i : nat, (i < length data)%nat -> pos sz (base + Z.of_nat i) <> j) ->
      write_bytes sz base data buf !! j = buf !! j).
Proof.
  induction data as [|d ds IH]; intros base buf Hbase Hlen Hfit.
  - simpl. split; [reflexivity|]. split; [|reflexivity].
    intros i b Hi. rewrite lookup_nil in Hi. discriminate.
  - simpl. simpl in Hfit.
    rewrite store_insert by assumption.
    destruct (IH (base + 1) (<[pos sz base := JS.toUint8 d]> buf))
      as (IHlen & IHin & IHout);
      [lia | rewrite length_insert; exact Hlen | lia |].
    rewrite length_insert in IHlen.
    split; [exact IHlen|]. split.
    + intros i b Hi. destruct i as [|i].
      * simpl in Hi. injection Hi as <-.
        rewrite Z.add_0_r. rewrite IHout.
        -- apply list_lookup_insert_eq. rewrite Hlen. apply pos_lt.
        -- intros i Hi Heq. apply pos_inj in Heq; lia.
      * simpl in Hi. replace (base + Z.of_nat (S i)) with (base + 1 + Z.of_nat i) by lia.
        apply IHin. exact Hi.
    + intros j Hj. rewrite IHout.
      * apply list_lookup_insert_ne. specialize (Hj O). simpl in Hj.
        rewrite Z.add_0_r in Hj. apply Hj. lia.
      * intros i Hi. replace (base + 1 + Z.of_nat i) with (base + Z.of_nat (S i)) by lia.
        apply Hj. simpl. lia.
Qed.

Lemma map_toUint8_bytes (l : list Z) : Forall is_byte l -> map JS.toUint8 l = l.
Proof.
  induction 1 as [|b l Hb _ IH]; [reflexivity|].
  simpl. rewrite IH, toUint8_id by exact Hb. reflexivity.
Qed.

Lemma holds_app buf start xs ys :
  holds sz buf start (xs ++ ys) <->
  holds sz buf start xs /\ holds sz buf (start + Z.of_nat (length xs)) ys.
Proof.
  unfold holds. split.
  - intros H. split.
    + intros i b Hi. apply H. apply lookup_app_l_Some. exact Hi.
    + intros i b Hi.
      replace (start + Z.of_nat (length xs) + Z.of_nat i)
        with (start + Z.of_nat (length xs + i)) by lia.
      apply H. rewrite lookup_app_r by lia.
      replace (length xs + i - length xs)%nat with i by lia. exact Hi.
  - intros [Hx Hy] i b Hi.
    destruct (Nat.lt_ge_cases i (length xs)) as [Hlt|Hge].
    + apply Hx. rewrite lookup_app_l in Hi by exact Hlt. exact Hi.
    + rewrite lookup_app_r in Hi by exact Hge.
      specialize (Hy _ _ Hi).
      replace (start + Z.of_nat (length xs) + Z.of_nat (i - length xs))
        with (start + Z.of_nat i) in Hy by lia.
      exact Hy.
Qed.

(** What the copy loop leaves in the scratch array. *)
Lemma read_bytes_spec buf data : forall base i temp,
  length buf = Z.to_nat sz -> 0 <= base ->
  holds sz buf base data -> Forall is_byte data ->
  (i + length data <= length temp)%nat ->
  read_bytes (length data) sz base buf i temp
  = take i temp ++ data ++ drop (i + length data) temp.
Proof.
  induction data as [|d ds IH]; intros base i temp Hlen Hbase Hholds Hbytes Hfit.
  - simpl. rewrite Nat.add_0_r. symmetry. apply take_drop.
  - simpl. simpl in Hfit. inversion Hbytes as [|? ? Hd Hds]; subst.
    rewrite load_lookup by assumption.
    pose proof (Hholds O d eq_refl) as H0. rewrite Z.add_0_r in H0. rewrite H0.
    rewrite toUint8_id by exact Hd.
    change (d :: ds) with ([d] ++ ds) in Hholds.
    apply holds_app in Hholds as [_ Hrest]. simpl in Hrest.
    rewrite IH; [|assumption|lia|assumption|assumption|rewrite length_insert; lia].
    rewrite (take_S_r _ i d) by (apply list_lookup_insert_eq; lia).
    rewrite take_insert_ge by lia.
    rewrite drop_insert_lt by lia.
    rewrite <- app_assoc. simpl.
    replace (S (i + length ds))%nat with (i + S (length ds))%nat by lia.
    reflexivity.
Qed.

Lemma stream_cons p ps : stream (p :: ps) = encode p ++ stream ps.
Proof. reflexivity. Qed.

Lemma stream_app ps qs : stream (ps ++ qs) = stream ps ++ stream qs.
Proof. unfold stream. rewrite map_app. apply concat_app. Qed.

Lemma length_encode p : length (encode p) = S (length p).
Proof. reflexivity. Qed.

Lemma length_stream_ge ps : (length ps <= length (stream ps))%nat.
Proof.
  induction ps as [|p ps IH]; [simpl; lia|].
  rewrite stream_cons, length_app, length_encode. simpl. lia.
Qed.

Lemma drain_loop_S fuel w buf c temp :
  drain_loop (S fuel) sz w buf c temp =
  if c <? w then
    match load sz c buf with
    | None => ([temp], temp, None)
    | Some length =>
        let temp1 :=
          if Z.of_nat (List.length temp) <? length
          then replicate (Z.to_nat (length + 64)) 0
          else temp in
        let temp2 := read_bytes (Z.to_nat length) sz (c + 1) buf 0 temp1 in
        let view := JS.subarray 0 length temp2 in
        let '(rest, temp3, cursor) :=
          drain_loop fuel sz w buf (c + (length + 1)) temp2 in
        (view :: rest, temp3, cursor)
    end
  else ([], temp, Some c).
Proof. reflexivity. Qed.

(** The drain loop hands over exactly the records between the cursor and the
    write index, in order, and stops at the write index. *)
Lemma drain_loop_spec buf pend : forall fuel c temp,
  length buf = Z.to_nat sz -> 0 <= c ->
  holds sz buf c (stream pend) -> Forall payload_ok pend ->
  (length pend <= fuel)%nat -> (256 <= length temp)%nat ->
  exists temp',
    drain_loop fuel sz (c + Z.of_nat (length (stream pend))) buf c temp
    = (pend, temp', Some (c + Z.of_nat (length (stream pend)))) /\
    (256 <= length temp')%nat.
Proof.
  induction pend as [|p ps IH]; intros fuel c temp Hlen Hc Hholds Hok Hfuel Htemp.
  - exists temp. split; [|exact Htemp].
    change (stream []) with (@nil Z). simpl length. rewrite Z.add_0_r.
    destruct fuel; [reflexivity|].
    rewrite drain_loop_S, Z.ltb_irrefl. reflexivity.
  - destruct fuel as [|fuel]; [simpl in Hfuel; lia|].
    inversion Hok as [|? ? [Hp255 Hpbytes] Hps]; subst.
    rewrite stream_cons in Hholds |- *.
    apply holds_app in Hholds as [Hhead Htail].
    rewrite length_app, length_encode in *.
    rewrite drain_loop_S.
    destruct (Z.ltb_spec c (c + Z.of_nat (S (length p) + length (stream ps)))); [|lia].
    rewrite load_lookup by assumption.
    pose proof (Hhead O _ eq_refl) as H0. rewrite Z.add_0_r in H0. rewrite H0.
    cbv zeta.
    destruct (Z.ltb_spec (Z.of_nat (length temp)) (Z.of_nat (length p))); [lia|].
    rewrite Nat2Z.id.
    change (encode p) with ([Z.of_nat (length p)] ++ p) in Hhead.
    apply holds_app in Hhead as [_ Hbody]. simpl length in Hbody.
    rewrite (read_bytes_spec buf p (c + 1) O temp) by (assumption || lia).
    simpl take. simpl app.
    rewrite subarray_prefix.
    destruct (IH fuel (c + (Z.of_nat (length p) + 1)) (p ++ drop (0 + length p) temp))
      as (temp' & Hloop & Htemp');
      [assumption | lia | | assumption | simpl in Hfuel; lia | |].
    + replace (c + (Z.of_nat (length p) + 1)) with (c + Z.of_nat (S (length p))) by lia.
      exact Htail.
    + rewrite length_app, length_drop. lia.
    + exists temp'. split; [|exact Htemp'].
      replace (c + Z.of_nat (S (length p) + length (stream ps)))
        with (c + (Z.of_nat (length p) + 1) + Z.of_nat (length (stream ps))) by lia.
      simpl (0 + length p)%nat in Hloop.
      rewrite Hloop. reflexivity.
Qed.

(** The loop never runs out of iterations: with bytes in the region, any two
    amounts of fuel that cover the distance to the write index give the same
    result. *)
Lemma drain_loop_fuel buf w : forall n m c temp,
  Forall (fun b => 0 <= b) buf ->
  w - c <= Z.of_nat n -> w - c <= Z.of_nat m ->
  drain_loop n sz w buf c temp = drain_loop m sz w buf c temp.
Proof.
  induction n as [|n IH]; intros m c temp Hbuf Hn Hm.
  - destruct m as [|m]; [reflexivity|].
    rewrite drain_loop_S. destruct (Z.ltb_spec c w); [lia|]. reflexivity.
  - rewrite drain_loop_S. destruct (Z.ltb_spec c w) as [Hlt|Hge].
    + destruct m as [|m]; [lia|]. rewrite drain_loop_S.
      destruct (Z.ltb_spec c w); [|lia].
      destruct (load sz c buf) as [len|] eqn:Hload; [|reflexivity].
      assert (0 <= len).
      { unfold load, JS.get in Hload.
        destruct (JS.position _ _); [|discriminate].
        rewrite Forall_lookup in Hbuf. exact (Hbuf _ _ Hload). }
      cbv zeta. rewrite (IH m) by (assumption || lia). reflexivity.
    + destruct m as [|m]; [reflexivity|]. rewrite drain_loop_S.
      destruct (Z.ltb_spec c w); [lia|]. reflexivity.
Qed.

End Region.

Lemma length_store sz k v (buf : list Z) : length (store sz k v buf) = length buf.
Proof.
  unfold store, JS.put. destruct (JS.position _ _); [|reflexivity].
  apply length_insert.
Qed.

Lemma length_write_bytes sz data : forall base buf,
  length (write_bytes sz base data buf) = length buf.
Proof.
  induction data as [|d ds IH]; intros base buf; [reflexivity|].
  simpl. rewrite IH. apply length_store.
Qed.

(** The object of the other context is the object that was created. *)
Lemma attach_queue sz : 0 <= sz -> attach (create sz) = create sz.
Proof.
  intros Hsz. unfold attach, create. simpl.
  rewrite length_replicate. f_equal.
  destruct (Z.eqb_spec sz 0); lia.
Qed.

Lemma control_create sz : 0 <= sz -> control (create sz) [].
Proof.
  intros Hsz. unfold create.
  set (sz' := if sz =? 0 then 4096 else sz).
  assert (0 < sz') by (subst sz'; destruct (Z.eqb_spec sz 0); lia).
  constructor; simpl; try lia.
  - apply length_replicate.
  - intros i b Hi. destruct i; discriminate.
  - constructor.
Qed.

(** A full queue turns a record down and stays as it is. *)
Lemma write_reject data rb :
  size rb - (writeIndex rb - readIndex rb) < Z.of_nat (length data) + 1 ->
  write data rb = (false, rb).
Proof.
  intros H. unfold write.
  destruct (Z.ltb_spec (size rb - (writeIndex rb - readIndex rb))
              (Z.of_nat (length data) + 1)); [reflexivity|lia].
Qed.

(** An accepted record moves the write index only. *)
Lemma write_indices data rb :
  Z.of_nat (length data) + 1 <= size rb - (writeIndex rb - readIndex rb) ->
  exists rb',
    write data rb = (true, rb') /\
    writeIndex rb' = JS.toInt32 (writeIndex rb + (Z.of_nat (length data) + 1)) /\
    readIndex rb' = readIndex rb /\ size rb' = size rb /\
    tempBuffer rb' = tempBuffer rb /\ length (buffer rb') = length (buffer rb).
Proof.
  intros H. unfold write.
  destruct (Z.ltb_spec (size rb - (writeIndex rb - readIndex rb))
              (Z.of_nat (length data) + 1)); [lia|].
  eexists. split; [reflexivity|]. simpl. repeat split.
  rewrite length_write_bytes. apply length_store.
Qed.

(** Below the range of [Int32], an accepted record is appended to the
    pending ones. *)
Lemma write_accept data rb pend :
  control rb pend -> payload_ok data ->
  Z.of_nat (length data) + 1 <= size rb - (writeIndex rb - readIndex rb) ->
  writeIndex rb + (Z.of_nat (length data) + 1) < 2 ^ 31 ->
  exists rb',
    write data rb = (true, rb') /\ control rb' (pend ++ [data]) /\
    writeIndex rb' = writeIndex rb + (Z.of_nat (length data) + 1) /\
    readIndex rb' = readIndex rb /\ size rb' = size rb.
Proof.
  intros Hc [H255 Hbytes] Hroom Hint.
  destruct Hc as [Hsz Hlen Hr Hw Hi32 Hfits Hholds Hpay Htemp].
  unfold write.
  destruct (Z.ltb_spec (size rb - (writeIndex rb - readIndex rb))
              (Z.of_nat (length data) + 1)); [lia|].
  eexists. split; [reflexivity|].
  assert (Hidx : JS.toInt32 (writeIndex rb + (Z.of_nat (length data) + 1))
                 = writeIndex rb + (Z.of_nat (length data) + 1)).
  { apply toInt32_id. lia. }
  change (write_bytes (size rb) (writeIndex rb + 1) data
            (store (size rb) (writeIndex rb) (Z.of_nat (length data)) (buffer rb)))
    with (write_bytes (size rb) (writeIndex rb) (encode data) (buffer rb)).
  destruct (write_bytes_spec (size rb) Hsz (encode data) (writeIndex rb) (buffer rb))
    as (Hlen' & Hin & Hout).
  { lia. }
  { exact Hlen. }
  { rewrite length_encode. lia. }
  rewrite map_toUint8_bytes in Hin
    by (constructor; [unfold is_byte; lia | exact Hbytes]).
  set (buf' := write_bytes (size rb) (writeIndex rb) (encode data) (buffer rb)) in *.
  clearbody buf'.
  split; [|simpl; rewrite Hidx; repeat split].
  constructor; simpl; rewrite ?Hidx; try assumption; try lia.
  - rewrite stream_app, length_app. unfold stream at 2. simpl.
    rewrite app_nil_r, Hw. lia.
  - rewrite stream_app, length_app. unfold stream at 2. simpl.
    rewrite app_nil_r. lia.
  - rewrite stream_app. apply holds_app. split.
    + intros i b Hi. rewrite Hout; [apply Hholds; exact Hi|].
      intros j Hj Heq. apply lookup_lt_Some in Hi.
      rewrite length_encode in Hj.
      apply (pos_inj (size rb) Hsz) in Heq; lia.
    + unfold stream at 2. simpl concat. rewrite app_nil_r. rewrite <- Hw.
      exact Hin.
  - apply Forall_app. split; [exact Hpay|]. constructor; [|constructor].
    split; assumption.
Qed.

(** Below the range of [Int32], a drain hands over the pending records, in
    order, and leaves the queue empty. *)
Lemma read_drains rb pend :
  control rb pend ->
  exists rb',
    read rb = (pend, rb') /\ control rb' [] /\
    readIndex rb' = writeIndex rb /\ writeIndex rb' = writeIndex rb /\
    size rb' = size rb.
Proof.
  intros Hc. pose proof Hc as [Hsz Hlen Hr Hw Hi32 Hfits Hholds Hpay Htemp].
  unfold read. destruct (Z.eqb_spec (readIndex rb) (writeIndex rb)) as [Heq|Hne].
  - assert (pend = []) as ->.
    { destruct pend as [|p ps]; [reflexivity|].
      rewrite stream_cons, length_app, length_encode in Hw. lia. }
    exists rb. repeat split; try assumption; try lia.
  - set (temp := match tempBuffer rb with Some tb => tb | None => replicate 256 0 end).
    assert (Ht : (256 <= length temp)%nat).
    { subst temp. destruct (tempBuffer rb); [exact Htemp|].
      rewrite length_replicate. lia. }
    destruct (drain_loop_spec (size rb) Hsz (buffer rb) pend
                (Z.to_nat (writeIndex rb - readIndex rb)) (readIndex rb) temp)
      as (temp' & Hloop & Htemp'); try assumption.
    { pose proof (length_stream_ge pend). lia. }
    rewrite <- Hw in Hloop. rewrite Hloop.
    rewrite toInt32_id by lia.
    eexists. split; [reflexivity|]. simpl. repeat split; try assumption; try lia.
    all: simpl; try lia.
    + intros i b Hi. destruct i; discriminate.
    + constructor.
Qed.

(** Running calls below the range of [Int32]: the records pending at the end
    are the ones pending at the start and the accepted ones, less the ones
    handed over. *)
Lemma run_control ops : forall rb pend acc del rb',
  control rb pend -> run ops rb = (acc, del, rb') ->
  Forall payload_ok acc ->
  writeIndex rb + Z.of_nat (length (stream acc)) < 2 ^ 31 ->
  exists pend',
    control rb' pend' /\ pend ++ acc = del ++ pend' /\ size rb' = size rb.
Proof.
  induction ops as [|o ops IH]; intros rb pend acc del rb' Hc Hrun Hok Hint.
  - simpl in Hrun. injection Hrun as <- <- <-.
    exists pend. rewrite app_nil_r. auto.
  - destruct o as [data|].
    + cbn [run] in Hrun.
      destruct (Z.lt_ge_cases (size rb - (writeIndex rb - readIndex rb))
                  (Z.of_nat (length data) + 1)) as [Hfull|Hroom].
      * rewrite write_reject in Hrun by exact Hfull.
        destruct (run ops rb) as [[acc' del'] rb''] eqn:Hrest.
        injection Hrun as <- <- <-. simpl in Hok, Hint.
        exact (IH _ _ _ _ _ Hc Hrest Hok Hint).
      * destruct (write_indices data rb Hroom) as (rb1 & Hwrite & _).
        rewrite Hwrite in Hrun.
        destruct (run ops rb1) as [[acc' del'] rb''] eqn:Hrest.
        injection Hrun as <- <- <-. simpl app in Hok, Hint.
        inversion Hok as [|? ? Hdata Hacc']; subst.
        rewrite stream_cons, length_app, length_encode in Hint.
        destruct (write_accept data rb pend Hc Hdata) as (rb1' & Hwrite' & Hc1 & Hw1 & _ & Hsz1);
          [lia | lia |].
        rewrite Hwrite in Hwrite'. injection Hwrite' as <-.
        destruct (IH rb1 (pend ++ [data]) acc' del' rb'' Hc1 Hrest Hacc')
          as (pend' & Hc' & Heq & Hsz'); [lia|].
        exists pend'. split; [exact Hc'|]. split; [|congruence].
        rewrite <- Heq, <- app_assoc. reflexivity.
    + cbn [run] in Hrun.
      destruct (read_drains rb pend Hc) as (rb1 & Hread & Hc1 & _ & Hw1 & Hsz1).
      rewrite Hread in Hrun.
      destruct (run ops rb1) as [[acc' del'] rb''] eqn:Hrest.
      injection Hrun as <- <- <-.
      destruct (IH rb1 [] acc' del' rb'' Hc1 Hrest Hok)
        as (pend' & Hc' & Heq & Hsz'); [lia|].
      exists pend'. split; [exact Hc'|]. split; [|congruence].
      simpl in Heq. rewrite Heq, app_assoc. reflexivity.
Qed.

(** One accepted record followed by a drain, below the range of [Int32]. *)
Lemma run_cycle p rest rb :
  control rb [] -> payload_ok p ->
  Z.of_nat (length p) + 1 <= size rb ->
  writeIndex rb + (Z.of_nat (length p) + 1) < 2 ^ 31 ->
  exists rb2,
    run (Write p :: Drain :: rest) rb
    = (let '(acc, del, rb') := run rest rb2 in (p :: acc, p :: del, rb')) /\
    control rb2 [] /\
    writeIndex rb2 = writeIndex rb + (Z.of_nat (length p) + 1) /\
    size rb2 = size rb.
Proof.
  intros Hc Hp Hsz Hint.
  pose proof (c_write _ _ Hc) as Hw. simpl in Hw.
  destruct (write_accept p rb [] Hc Hp) as (rb1 & Hwrite & Hc1 & Hw1 & _ & Hsz1);
    [lia | lia |].
  destruct (read_drains rb1 _ Hc1) as (rb2 & Hread & Hc2 & _ & Hw2 & Hsz2).
  exists rb2. cbn [run]. rewrite Hwrite, Hread.
  split; [|split; [exact Hc2 | split; congruence]].
  destruct (run rest rb2) as [[acc del] rb']. reflexivity.
Qed.

(** The record that is accepted when the write index reaches [2 ^ 31] is
    not handed over: the stored index wraps to [- 2 ^ 31] and the drain
    loop, which compares the indices as they are, does not run. *)
Lemma run_wrap p rb :
  control rb [] ->
  Z.of_nat (length p) + 1 <= size rb ->
  writeIndex rb + (Z.of_nat (length p) + 1) = 2 ^ 31 ->
  exists rb2,
    run [Write p; Drain] rb = ([p], [], rb2) /\
    writeIndex rb2 = - 2 ^ 31 /\ readIndex rb2 = writeIndex rb /\
    read rb2 = ([], rb2).
Proof.
  intros Hc Hsz Hint.
  pose proof (c_write _ _ Hc) as Hw. simpl in Hw.
  pose proof (c_read _ _ Hc) as Hr.
  destruct (write_indices p rb) as (rb1 & Hwrite & Hw1 & Hr1 & Hsz1 & Ht1 & _); [lia|].
  rewrite Hint in Hw1. change (JS.toInt32 (2 ^ 31)) with (- 2 ^ 31) in Hw1.
  assert (Hread : exists rb2, read rb1 = ([], rb2) /\
            writeIndex rb2 = - 2 ^ 31 /\ readIndex rb2 = readIndex rb1 /\
            read rb2 = ([], rb2)).
  { unfold read at 1. rewrite Hw1.
    destruct (Z.eqb_spec (readIndex rb1) (- 2 ^ 31)); [lia|].
    replace (Z.to_nat (- 2 ^ 31 - readIndex rb1)) with O by lia.
    cbn [drain_loop]. rewrite toInt32_id by lia.
    eexists. split; [reflexivity|]. cbn [writeIndex readIndex]. repeat split.
    unfold read. cbn [writeIndex readIndex tempBuffer size buffer].
    destruct (Z.eqb_spec (readIndex rb1) (- 2 ^ 31)); [lia|].
    replace (Z.to_nat (- 2 ^ 31 - readIndex rb1)) with O by lia.
    cbn [drain_loop]. rewrite toInt32_id by lia. reflexivity. }
  destruct Hread as (rb2 & Hread & Hw2 & Hr2 & Hagain).
  exists rb2. cbn [run]. rewrite Hwrite, Hread.
  repeat split; [exact Hw2 | lia | exact Hagain].
Qed.

(** The region only ever holds bytes, so the drain of [read] is the loop of
    the code on every object that calls can reach: more iterations than
    [writeIndex - readIndex] change nothing. *)
Lemma store_bytes sz k v (buf : list Z) :
  Forall is_byte buf -> Forall is_byte (store sz k v buf).
Proof.
  intros H. unfold store, JS.put. destruct (JS.position _ _); [|exact H].
  apply Forall_insert; [exact H | apply toUint8_byte].
Qed.

Lemma write_bytes_bytes sz data : forall base buf,
  Forall is_byte buf -> Forall is_byte (write_bytes sz base data buf).
Proof.
  induction data as [|d ds IH]; intros base buf H; [exact H|].
  simpl. apply IH. apply store_bytes. exact H.
Qed.

Lemma run_bytes ops : forall rb,
  Forall is_byte (buffer rb) -> Forall is_byte (buffer (snd (run ops rb))).
Proof.
  induction ops as [|o ops IH]; intros rb H; [exact H|].
  destruct o as [data|]; cbn [run].
  - assert (H1 : Forall is_byte (buffer (snd (write data rb)))).
    { unfold write. destruct (_ <? _); [exact H|]. simpl.
      apply write_bytes_bytes, store_bytes, H. }
    destruct (write data rb) as [ok rb1]. specialize (IH rb1 H1).
    destruct (run ops rb1) as [[acc del] rb']. exact IH.
  - assert (H1 : Forall is_byte (buffer (snd (read rb)))).
    { unfold read. destruct (_ =? _); [exact H|].
      destruct (drain_loop _ _ _ _ _ _) as [[views temp] cursor]. exact H. }
    destruct (read rb) as [views rb1]. specialize (IH rb1 H1).
    destruct (run ops rb1) as [[acc del] rb']. exact IH.
Qed.

Lemma drain_fuel_enough ops sz (n : nat) temp :
  let rb := snd (run ops (create sz)) in
  writeIndex rb - readIndex rb <= Z.of_nat n ->
  drain_loop n (size rb) (writeIndex rb) (buffer rb) (readIndex rb) temp
  = drain_loop (Z.to_nat (writeIndex rb - readIndex rb)) (size rb) (writeIndex rb)
      (buffer rb) (readIndex rb) temp.
Proof.
  intros rb Hn. apply drain_loop_fuel; [|exact Hn|lia].
  assert (Hbytes : Forall is_byte (buffer rb)).
  { apply run_bytes. unfold create. simpl. apply Forall_replicate.
    unfold is_byte. lia. }
  eapply Forall_impl; [exact Hbytes|]. unfold is_byte. intros; lia.
Qed.

(** The queue wraps around its region: three records through 8 bytes. *)
Example run_small :
  run [Write [1; 60; 101]; Write [2; 60]; Drain; Write [7; 8; 9; 10]; Drain]
    (create 8)
  = ([[1; 60; 101]; [2; 60]; [7; 8; 9; 10]],
     [[1; 60; 101]; [2; 60]; [7; 8; 9; 10]],
     {| size := 8; writeIndex := 12; readIndex := 12;
        buffer := [7; 8; 9; 10; 2; 2; 60; 4];
        tempBuffer := Some ([7; 8; 9; 10] ++ replicate 252 0) |}).
Proof. vm_compute. reflexivity. Qed.

(** A full queue: the second record is turned down, the first is kept. *)
Example run_full :
  run [Write [1; 60; 101]; Write [1; 62; 101]; Write [2; 60]; Drain] (create 7)
  = ([[1; 60; 101]; [2; 60]], [[1; 60; 101]; [2; 60]],
     {| size := 7; writeIndex := 7; readIndex := 7;
        buffer := [3; 1; 60; 101; 2; 2; 60];
        tempBuffer := Some ([2; 60; 101] ++ replicate 253 0) |}).
Proof. vm_compute. reflexivity. Qed.

End RingBufferFacts.

(** ** AudioStreamBuffer *)

Module AudioRingBufferFacts.

Import AudioRingBuffer Rep JSFacts.

Section Samples.

Context {sample : Type} (nan : sample).

Implicit Types rb : AudioRingBuffer.t sample.
Implicit Types input : list sample.

Lemma available_sum rb : availableRead rb + availableWrite rb = capacity rb.
Proof. unfold availableRead, availableWrite. lia. Qed.

(** The comparison of [write], on integers. *)
Lemma frames_le input rb a :
  0 < channelCount rb ->
  Qle_bool (framesOf input rb) (inject_Z a)
  = (Z.of_nat (length input) <=? a * channelCount rb).
Proof.
  intros Hcc. unfold framesOf.
  destruct (channelCount rb) as [|p|p] eqn:E; try lia.
  apply eq_true_iff_eq. rewrite Qle_bool_iff, Z.leb_le.
  unfold Qle. simpl. lia.
Qed.

(** The index that [write] stores, before [ToInt32]. *)
Lemma trunc_frames input rb w :
  0 < channelCount rb -> 0 <= w ->
  JS.trunc (inject_Z w + framesOf input rb)
  = w + Z.of_nat (length input) / channelCount rb.
Proof.
  intros Hcc Hw. unfold framesOf, JS.trunc.
  destruct (channelCount rb) as [|p|p] eqn:E; try lia.
  simpl. rewrite !Pos.mul_1_l. rewrite Z.quot_div_nonneg by lia.
  replace (w * Z.pos p + Z.of_nat (length input) * 1 * 1)
    with (Z.of_nat (length input) + w * Z.pos p) by lia.
  rewrite Z.div_add by lia. lia.
Qed.

Lemma trunc_frames_0 input rb :
  0 < channelCount rb ->
  JS.trunc (framesOf input rb) = Z.of_nat (length input) / channelCount rb.
Proof.
  intros Hcc. unfold framesOf, JS.trunc.
  destruct (channelCount rb) as [|p|p] eqn:E; try lia.
  simpl. rewrite !Pos.mul_1_l. rewrite Z.quot_div_nonneg by lia.
  rewrite Z.mul_1_r. reflexivity.
Qed.

Lemma set_Some {A} (src dst : list A) offset :
  0 <= offset -> offset + Z.of_nat (length src) <= Z.of_nat (length dst) ->
  exists b, JS.set src offset dst = Some b /\ length b = length dst.
Proof.
  intros H0 Hfit. unfold JS.set.
  destruct (Z.ltb_spec offset 0); [lia|].
  destruct (Z.ltb_spec (Z.of_nat (length dst)) (offset + Z.of_nat (length src))); [lia|].
  simpl. eexists. split; [reflexivity|].
  rewrite !length_app, length_take, length_drop. lia.
Qed.

Lemma set_length {A} (src dst b : list A) offset :
  JS.set src offset dst = Some b -> length b = length dst.
Proof.
  unfold JS.set.
  destruct (Z.ltb_spec offset 0); [discriminate|].
  destruct (Z.ltb_spec (Z.of_nat (length dst)) (offset + Z.of_nat (length src)));
    [discriminate|].
  simpl. intros [= <-].
  rewrite !length_app, length_take, length_drop. lia.
Qed.

Lemma length_subarray {A} (l : list A) k :
  0 <= k <= Z.of_nat (length l) -> length (JS.subarray 0 k l) = Z.to_nat k.
Proof.
  intros Hk. unfold JS.subarray, JS.clamp.
  change (0 <? 0)%Z with false. cbv iota.
  destruct (Z.ltb_spec k 0); [lia|].
  rewrite length_take, length_drop. lia.
Qed.

Lemma length_subarray_from {A} (l : list A) k :
  0 <= k <= Z.of_nat (length l) ->
  length (JS.subarray_from k l) = (length l - Z.to_nat k)%nat.
Proof.
  intros Hk. unfold JS.subarray_from, JS.clamp.
  destruct (Z.ltb_spec k 0); [lia|].
  rewrite length_drop. lia.
Qed.

(** [write] keeps the length of the data array, whatever happens. *)
Lemma write_length input rb :
  length (buffer (snd (write input rb))) = length (buffer rb).
Proof.
  unfold write. destruct (negb _); [reflexivity|].
  destruct (JS.rem _ _) as [k|].
  - destruct (_ <=? _).
    + destruct (JS.set _ _ _) eqn:E; simpl; [|reflexivity].
      eapply set_length; eassumption.
    + destruct (JS.set _ _ _) as [b1|] eqn:E1; simpl; [|reflexivity].
      destruct (JS.set _ 0 _) as [b2|] eqn:E2; simpl.
      * apply set_length in E2. apply set_length in E1. congruence.
      * eapply set_length; eassumption.
  - destruct (JS.set _ _ _) eqn:E; simpl; [|reflexivity].
    eapply set_length; eassumption.
Qed.

(** A full buffer turns the block down and stays as it is. *)
Lemma block_reject input rb :
  (inject_Z (availableWrite rb) < framesOf input rb)%Q ->
  write input rb = (Returned 0%Q, rb).
Proof.
  intros H. unfold write.
  destruct (Qle_bool (framesOf input rb) (inject_Z (availableWrite rb))) eqn:E;
    [|reflexivity].
  apply Qle_bool_iff in E. apply Qle_not_lt in E. contradiction.
Qed.

(** In a buffer that holds between 0 and [capacity] frames, a block that
    fits is copied without a [RangeError] and moves the write index. *)
Lemma block_accept input rb :
  audio rb ->
  Z.of_nat (length input) <= availableWrite rb * channelCount rb ->
  exists buf,
    write input rb
    = (Returned (framesOf input rb),
       {| channelCount := channelCount rb; capacity := capacity rb;
          writeIndex := JS.toInt32 (writeIndex rb
                                    + Z.of_nat (length input) / channelCount rb);
          readIndex := readIndex rb; buffer := buf |}) /\
    length buf = length (buffer rb).
Proof.
  intros [Hcap Hcc Hlen Hr Hord Hi32 Hfits] Hroom.
  unfold write. rewrite frames_le by exact Hcc.
  destruct (Z.leb_spec (Z.of_nat (length input)) (availableWrite rb * channelCount rb));
    [|lia].
  simpl negb. cbv iota.
  rewrite trunc_frames by lia.
  rewrite rem_nonneg by lia.
  pose proof (Z.mod_pos_bound (writeIndex rb) (capacity rb) Hcap) as Hmod.
  unfold availableWrite in *.
  set (k := writeIndex rb mod capacity rb) in *.
  assert (Hoff : 0 <= k * channelCount rb < Z.of_nat (length (buffer rb))) by nia.
  assert (Hin : Z.of_nat (length input) <= Z.of_nat (length (buffer rb))) by nia.
  destruct (Z.leb_spec (k * channelCount rb + Z.of_nat (length input))
              (Z.of_nat (length (buffer rb)))) as [Hcont|Hsplit].
  - destruct (set_Some input (buffer rb) (k * channelCount rb)) as (b & -> & Hb);
      [lia | lia |].
    exists b. split; [reflexivity | exact Hb].
  - set (first := Z.of_nat (length (buffer rb)) - k * channelCount rb) in *.
    destruct (set_Some (JS.subarray 0 first input) (buffer rb) (k * channelCount rb))
      as (b1 & -> & Hb1); [lia | rewrite length_subarray; lia |].
    destruct (set_Some (JS.subarray_from first input) b1 0)
      as (b2 & -> & Hb2); [lia | rewrite length_subarray_from; lia |].
    exists b2. split; [reflexivity | congruence].
Qed.

(** An empty-handed read: too few frames, nothing consumed, nothing filled. *)
Lemma read_reject leftOut rightOut n rb :
  availableRead rb < n ->
  read nan leftOut rightOut n rb = (false, (leftOut, rightOut), rb).
Proof.
  intros H. unfold read.
  destruct (Z.ltb_spec (availableRead rb) n); [reflexivity|lia].
Qed.

(** A read of frames that are there moves the read index only. *)
Lemma read_accept leftOut rightOut n rb :
  n <= availableRead rb ->
  exists outs,
    read nan leftOut rightOut n rb
    = (true, outs,
       {| channelCount := channelCount rb; capacity := capacity rb;
          writeIndex := writeIndex rb;
          readIndex := JS.toInt32 (readIndex rb + n);
          buffer := buffer rb |}).
Proof.
  intros H. unfold read.
  destruct (Z.ltb_spec (availableRead rb) n); [lia|].
  eexists. reflexivity.
Qed.

Lemma block_reject_frames input rb :
  0 < channelCount rb ->
  availableWrite rb * channelCount rb < Z.of_nat (length input) ->
  write input rb = (Returned 0%Q, rb).
Proof.
  intros Hcc H. unfold write. rewrite frames_le by exact Hcc.
  destruct (Z.leb_spec (Z.of_nat (length input)) (availableWrite rb * channelCount rb));
    [lia|reflexivity].
Qed.

Lemma channelCount_step o rb : channelCount (step nan o rb) = channelCount rb.
Proof.
  destruct o as [input|l r n]; simpl.
  - unfold write. destruct (negb _); [reflexivity|].
    destruct (match JS.rem _ _ with Some _ => _ | None => _ end); reflexivity.
  - unfold read. destruct (_ <? _); reflexivity.
Qed.

Lemma accepted_nonneg o rb : 0 < channelCount rb -> 0 <= accepted o rb.
Proof.
  intros Hcc. destruct o as [input|l r n]; simpl; [|lia].
  unfold write. destruct (negb _); [cbn [fst]; change (JS.trunc 0%Q) with 0; lia|].
  destruct (match JS.rem _ _ with Some _ => _ | None => _ end); cbn [fst]; [|lia].
  rewrite trunc_frames_0 by exact Hcc. apply Z.div_pos; lia.
Qed.

Lemma run_nonneg ops : forall rb, 0 < channelCount rb -> 0 <= fst (run nan ops rb).
Proof.
  induction ops as [|o ops IH]; intros rb Hcc; [simpl; lia|].
  cbn [run]. specialize (IH (step nan o rb)).
  rewrite channelCount_step in IH. specialize (IH Hcc).
  destruct (run nan ops (step nan o rb)) as [n rb']. simpl in *.
  pose proof (accepted_nonneg o rb Hcc). lia.
Qed.

(** One call below the range of [Int32] keeps the buffer between 0 and
    [capacity] frames and adds the accepted frames to the write index. *)
Lemma step_audio o rb :
  audio rb -> writeIndex rb + accepted o rb < 2 ^ 31 ->
  audio (step nan o rb) /\
  writeIndex (step nan o rb) = writeIndex rb + accepted o rb.
Proof.
  intros Ha Hint. pose proof Ha as [Hcap Hcc Hlen Hr Hord Hi32 Hfits].
  destruct o as [input|l r n]; simpl in *.
  - destruct (Z.le_gt_cases (Z.of_nat (length input))
                (availableWrite rb * channelCount rb)) as [Hroom|Hfull].
    + destruct (block_accept input rb Ha Hroom) as (buf & Hw & Hbuf).
      rewrite Hw in *. simpl in *.
      rewrite trunc_frames_0 in * by exact Hcc.
      assert (0 <= Z.of_nat (length input) / channelCount rb)
        by (apply Z.div_pos; lia).
      assert (Z.of_nat (length input) / channelCount rb <= availableWrite rb).
      { apply Z.div_le_upper_bound; lia. }
      unfold availableWrite in *.
      rewrite toInt32_id by lia.
      split; [|reflexivity]. constructor; simpl; lia.
    + rewrite block_reject_frames in * by (lia || exact Hcc).
      cbn [fst snd] in *. change (JS.trunc 0%Q) with 0 in *. split; [exact Ha|lia].
  - unfold read.
    destruct (Z.ltb_spec (availableRead rb) (Z.of_nat n));
      cbn [snd writeIndex]; [split; [exact Ha|lia]|].
    unfold availableRead in *. split; [|lia].
    constructor; simpl; rewrite ?toInt32_id by lia; lia.
Qed.

Lemma run_audio ops : forall rb,
  audio rb -> writeIndex rb + fst (run nan ops rb) < 2 ^ 31 ->
  audio (snd (run nan ops rb)) /\
  writeIndex (snd (run nan ops rb)) = writeIndex rb + fst (run nan ops rb).
Proof.
  induction ops as [|o ops IH]; intros rb Ha Hint.
  - simpl. split; [exact Ha|lia].
  - cbn [run] in *.
    pose proof (run_nonneg ops (step nan o rb)) as Hn.
    rewrite channelCount_step in Hn. specialize (Hn (a_channels _ Ha)).
    specialize (IH (step nan o rb)).
    destruct (run nan ops (step nan o rb)) as [n rb'] eqn:Hrun. simpl in *.
    destruct (step_audio o rb Ha) as [Ha1 Hw1]; [lia|].
    destruct (IH Ha1) as [Ha' Hw']; [lia|].
    split; [exact Ha'|lia].
Qed.


Lemma audio_create (zero : sample) channels frameCapacity :
  0 <= channels -> 0 <= frameCapacity ->
  audio (create zero channels frameCapacity).
Proof.
  intros Hch Hcap. unfold create.
  set (cc := if channels =? 0 then 2 else channels).
  set (cap := if frameCapacity =? 0 then 4096 else frameCapacity).
  assert (0 < cc) by (subst cc; destruct (Z.eqb_spec channels 0); lia).
  assert (0 < cap) by (subst cap; destruct (Z.eqb_spec frameCapacity 0); lia).
  constructor; simpl; try lia.
  rewrite length_replicate. lia.
Qed.

Lemma run_step o ops rb :
  snd (run nan (o :: ops) rb) = snd (run nan ops (step nan o rb)).
Proof.
  cbn [run]. destruct (run nan ops (step nan o rb)). reflexivity.
Qed.

(** The producer and the consumer taking turns with whole buffers of
    [capacity] frames, up to the write that reaches [2 ^ 31]: the stored
    index wraps and the frames of that write can no longer be read. *)
Lemma run_wrap_audio input leftOut rightOut (frames : nat) : forall n rb,
  audio rb -> readIndex rb = writeIndex rb ->
  Z.of_nat frames = capacity rb ->
  Z.of_nat (length input) = capacity rb * channelCount rb ->
  writeIndex rb + capacity rb * Z.of_nat (S n) = 2 ^ 31 ->
  let rb' := snd (run nan (cycles (S n) [Write input; Read leftOut rightOut frames]) rb) in
  writeIndex rb' = - 2 ^ 31 /\ readIndex rb' = 2 ^ 31 - capacity rb /\
  capacity rb' = capacity rb.
Proof.
  induction n as [|n IH]; intros rb Ha Hrw Hframes Hinput Hint;
    pose proof Ha as [Hcap Hcc Hlen Hr Hord Hi32 Hfits];
    change (cycles (S ?k) ?ops) with (ops ++ cycles k ops);
    cbn [app]; rewrite !run_step.
  - cbn [cycles run snd].
    destruct (block_accept input rb Ha) as (buf & Hw & _).
    { unfold availableWrite. nia. }
    cbn [step]. rewrite Hw. cbn [snd].
    rewrite Hinput, Z.div_mul by lia.
    replace (writeIndex rb + capacity rb) with (2 ^ 31) by lia.
    change (JS.toInt32 (2 ^ 31)) with (- 2 ^ 31).
    rewrite read_reject by (unfold availableRead; simpl; lia).
    simpl. lia.
  - assert (Hacc : accepted (Write input) rb = capacity rb).
    { simpl. destruct (block_accept input rb Ha) as (buf & Hw & _).
      { unfold availableWrite. nia. }
      rewrite Hw. simpl. rewrite trunc_frames_0 by exact Hcc.
      rewrite Hinput. apply Z.div_mul. lia. }
    destruct (step_audio (Write input) rb Ha) as [Ha1 Hw1]; [nia|].
    rewrite Hacc in Hw1.
    set (rb1 := step nan (Write input) rb) in *.
    assert (Hr1 : readIndex rb1 = readIndex rb /\ capacity rb1 = capacity rb
                  /\ channelCount rb1 = channelCount rb).
    { subst rb1. simpl. destruct (block_accept input rb Ha) as (buf & Hw & _).
      { unfold availableWrite. nia. }
      rewrite Hw. simpl. auto. }
    destruct Hr1 as (Hr1 & Hcap1 & Hcc1).
    destruct (step_audio (Read leftOut rightOut frames) rb1 Ha1) as [Ha2 Hw2];
      [simpl; nia|].
    set (rb2 := step nan (Read leftOut rightOut frames) rb1) in *.
    assert (Hr2 : readIndex rb2 = readIndex rb1 + capacity rb
                  /\ capacity rb2 = capacity rb
                  /\ channelCount rb2 = channelCount rb).
    { subst rb2. cbn [step].
      destruct (read_accept leftOut rightOut (Z.of_nat frames) rb1) as (outs & Hread).
      { unfold availableRead. lia. }
      rewrite Hread. cbn [snd readIndex capacity channelCount].
      rewrite toInt32_id by lia. repeat split; lia || congruence. }
    destruct Hr2 as (Hr2 & Hcap2 & Hcc2).
    simpl in Hw2.
    destruct (IH rb2 Ha2) as (Hw' & Hr' & Hcap'); try lia; try congruence.
Qed.

End Samples.

(** Frames through a buffer of 4 frames: the second write is split at the
    end of the data array, and the reads give the frames back in order. *)
Example frames_round_trip :
  let frame n := [Scenario.Level n; Scenario.Level (- n)] in
  let out := replicate 3 Scenario.silence in
  let rb1 := snd (write (frame 1 ++ frame 2 ++ frame 3)
                    (create Scenario.silence 2 4)) in
  let '(ok1, outs1, rb2) := read Scenario.NotANumber out out 3 rb1 in
  let rb3 := snd (write (frame 4 ++ frame 5 ++ frame 6) rb2) in
  let '(ok2, outs2, rb4) := read Scenario.NotANumber out out 3 rb3 in
  ok1 = true /\ ok2 = true /\
  outs1 = ([Scenario.Level 1; Scenario.Level 2; Scenario.Level 3],
           [Scenario.Level (-1); Scenario.Level (-2); Scenario.Level (-3)]) /\
  outs2 = ([Scenario.Level 4; Scenario.Level 5; Scenario.Level 6],
           [Scenario.Level (-4); Scenario.Level (-5); Scenario.Level (-6)]) /\
  buffer rb4 = frame 5 ++ frame 6 ++ frame 3 ++ frame 4 /\
  writeIndex rb4 = 6 /\ readIndex rb4 = 6.
Proof. vm_compute. repeat split; reflexivity. Qed.

End AudioRingBufferFacts.

(** ** The transport: ControlQueue and AudioStreamBuffer *)

Module Transport.

Import Rep JSFacts.

(** Turns of one accepted record and one drain, up to the record that takes
    the write index to [2 ^ 31]: every record is accepted, the last one is
    not handed over. *)
Lemma run_cycles_wrap p : forall n rb,
  control rb [] -> payload_ok p ->
  Z.of_nat (length p) + 1 <= RingBuffer.size rb ->
  RingBuffer.writeIndex rb + (Z.of_nat (length p) + 1) * Z.of_nat (S n) = 2 ^ 31 ->
  exists rb',
    RingBuffer.run (cycles (S n) [RingBuffer.Write p; RingBuffer.Drain]) rb
    = (replicate (S n) p, replicate n p, rb') /\
    RingBuffer.writeIndex rb' = - 2 ^ 31 /\
    RingBuffer.readIndex rb' = 2 ^ 31 - (Z.of_nat (length p) + 1) /\
    RingBuffer.read rb' = ([], rb').
Proof.
  induction n as [|n IH]; intros rb Hc Hp Hsz Hint;
    change (cycles (S ?k) ?ops) with (ops ++ cycles k ops); cbn [app].
  - cbn [cycles].
    destruct (RingBufferFacts.run_wrap p rb Hc Hsz) as (rb2 & Hrun & Hw & Hr & Hread);
      [lia|].
    exists rb2. rewrite Hrun. repeat split; try assumption. lia.
  - destruct (RingBufferFacts.run_cycle p
                (cycles (S n) [RingBuffer.Write p; RingBuffer.Drain]) rb Hc Hp Hsz)
      as (rb2 & Hrun & Hc2 & Hw2 & Hsz2); [nia|].
    destruct (IH rb2 Hc2 Hp) as (rb' & Hrun' & Hw' & Hr' & Hread'); [lia | nia |].
    exists rb'. rewrite Hrun, Hrun'. repeat split; assumption.
Qed.

(** C1, as amended. Whatever way [write] calls and drains are interleaved
    on a fresh ControlQueue, as long as the accepted records are at most 255
    bytes long and take fewer than [2 ^ 31] bytes in all (length prefixes
    included): the payloads handed to the drain callback, followed by those
    of one more drain, are exactly the accepted payloads, in the order of
    their writes, each once; and after that drain the read index equals the
    write index. *)
Theorem fifo_below_int32 (sz : Z) (ops : list RingBuffer.op)
    (acc del : list (list Z)) (rb : RingBuffer.t) :
  0 <= sz ->
  RingBuffer.run ops (RingBuffer.create sz) = (acc, del, rb) ->
  Forall payload_ok acc ->
  Z.of_nat (length (stream acc)) < 2 ^ 31 ->
  del ++ fst (RingBuffer.read rb) = acc /\
  RingBuffer.readIndex (snd (RingBuffer.read rb))
  = RingBuffer.writeIndex (snd (RingBuffer.read rb)).
Proof.
  intros Hsz Hrun Hok Hint.
  destruct (RingBufferFacts.run_control ops _ [] acc del rb
              (RingBufferFacts.control_create sz Hsz) Hrun Hok)
    as (pend & Hc & Heq & _); [simpl; lia|].
  destruct (RingBufferFacts.read_drains rb pend Hc) as (rb' & Hread & _ & Hr & Hw & _).
  rewrite Hread. simpl. split; [symmetry; exact Heq | congruence].
Qed.

(** Three note records through a queue of 8 bytes, with a drain in between. *)
Lemma fifo_below_int32_witness :
  [[1; 60; 101]; [2; 60]] ++ fst (RingBuffer.read
     (snd (RingBuffer.run
             [RingBuffer.Write [1; 60; 101]; RingBuffer.Write [2; 60];
              RingBuffer.Drain; RingBuffer.Write [2; 64]]
             (RingBuffer.create 8))))
  = [[1; 60; 101]; [2; 60]; [2; 64]].
Proof.
  refine (proj1 (fifo_below_int32 8
            [RingBuffer.Write [1; 60; 101]; RingBuffer.Write [2; 60];
             RingBuffer.Drain; RingBuffer.Write [2; 64]]
            [[1; 60; 101]; [2; 60]; [2; 64]] [[1; 60; 101]; [2; 60]] _ _ _ _ _)).
  - lia.
  - vm_compute. reflexivity.
  - repeat constructor; simpl; unfold is_byte; lia.
  - vm_compute. reflexivity.
Defined.

(** C1, counterexample. On the trace [Scenario.wrap_trace] every record is
    at most 255 bytes long and every [write] returns [true], but the record
    of the last write is never handed to the drain callback, and after the
    drain the read index differs from the write index: the write index,
    stored as an [Int32], has wrapped from [2 ^ 31] to [- 2 ^ 31]. *)
Lemma fifo_lost_at_int32_wrap :
  exists acc del rb,
    RingBuffer.run Scenario.wrap_trace (RingBuffer.create 4096) = (acc, del, rb) /\
    Forall payload_ok acc /\
    length acc = S (length (del ++ fst (RingBuffer.read rb))) /\
    del ++ fst (RingBuffer.read rb) <> acc /\
    RingBuffer.readIndex (snd (RingBuffer.read rb))
    <> RingBuffer.writeIndex (snd (RingBuffer.read rb)).
Proof.
  unfold Scenario.wrap_trace.
  assert (Hp : payload_ok Scenario.full_record).
  { split; [vm_compute; lia|]. apply Forall_replicate. unfold is_byte. lia. }
  assert (Hlen : Z.of_nat (length Scenario.full_record) = 255) by reflexivity.
  remember (Z.to_nat (2 ^ 23 - 1)) as n eqn:Hn.
  assert (Hn' : Z.of_nat n = 2 ^ 23 - 1) by lia.
  replace (Z.to_nat (2 ^ 23)) with (S n) by lia.
  clear Hn.
  destruct (run_cycles_wrap Scenario.full_record n (RingBuffer.create 4096))
    as (rb & Hrun & Hw & Hr & Hread).
  { apply RingBufferFacts.control_create. lia. }
  { exact Hp. }
  { rewrite Hlen. simpl. lia. }
  { rewrite Hlen. simpl RingBuffer.writeIndex. lia. }
  exists (replicate (S n) Scenario.full_record), (replicate n Scenario.full_record), rb.
  rewrite Hread. cbn [fst snd]. rewrite app_nil_r.
  split; [exact Hrun|]. split; [apply Forall_replicate; exact Hp|].
  split; [rewrite !length_replicate; reflexivity|]. split.
  - intros Heq. apply (f_equal length) in Heq.
    rewrite !length_replicate in Heq. lia.
  - rewrite Hw, Hr, Hlen. lia.
Qed.

(** C2, as amended. In every state that the ControlQueue reaches through
    [write] calls and drains whose accepted records are at most 255 bytes
    long and take fewer than [2 ^ 31] bytes in all, and in every state that
    the AudioStreamBuffer reaches through writes and through reads of
    natural frame counts while fewer than [2 ^ 31] frames were accepted in
    all, the occupancy [writeIndex - readIndex] lies between 0 and the
    capacity. [availableRead() + availableWrite()] is the capacity in every
    state whatsoever. *)
Theorem occupancy_below_int32 {sample : Type} (nan zero : sample)
    (sz : Z) (ops : list RingBuffer.op) (acc del : list (list Z))
    (rb : RingBuffer.t)
    (channels frameCapacity : Z) (aops : list (AudioRingBuffer.op sample))
    (any : AudioRingBuffer.t sample) :
  (0 <= sz ->
   RingBuffer.run ops (RingBuffer.create sz) = (acc, del, rb) ->
   Forall payload_ok acc ->
   Z.of_nat (length (stream acc)) < 2 ^ 31 ->
   0 <= RingBuffer.writeIndex rb - RingBuffer.readIndex rb <= RingBuffer.size rb) /\
  (0 <= channels -> 0 <= frameCapacity ->
   let start := AudioRingBuffer.create zero channels frameCapacity in
   fst (AudioRingBuffer.run nan aops start) < 2 ^ 31 ->
   let arb := snd (AudioRingBuffer.run nan aops start) in
   0 <= AudioRingBuffer.availableRead arb <= AudioRingBuffer.capacity arb /\
   0 <= AudioRingBuffer.availableWrite arb <= AudioRingBuffer.capacity arb) /\
  AudioRingBuffer.availableRead any + AudioRingBuffer.availableWrite any
  = AudioRingBuffer.capacity any.
Proof.
  split; [|split].
  - intros Hsz Hrun Hok Hint.
    destruct (RingBufferFacts.run_control ops _ [] acc del rb
                (RingBufferFacts.control_create sz Hsz) Hrun Hok)
      as (pend & Hc & _ & _); [simpl; lia|].
    destruct Hc as [? ? ? Hw ? Hfits ? ? ?]. lia.
  - intros Hch Hcap start Hint arb.
    destruct (AudioRingBufferFacts.run_audio nan aops start) as [Ha _].
    { apply AudioRingBufferFacts.audio_create; assumption. }
    { subst start. simpl AudioRingBuffer.writeIndex. lia. }
    fold arb in Ha. destruct Ha as [? ? ? ? ? ? ?].
    unfold AudioRingBuffer.availableRead, AudioRingBuffer.availableWrite. lia.
  - apply AudioRingBufferFacts.available_sum.
Qed.

(** Two note records in a queue of 8 bytes; three frames written to an audio
    buffer of 4 frames and two of them read. *)
Lemma occupancy_below_int32_witness :
  (let rb := snd (RingBuffer.run
                    [RingBuffer.Write [1; 60; 101]; RingBuffer.Write [2; 60]]
                    (RingBuffer.create 8)) in
   0 <= RingBuffer.writeIndex rb - RingBuffer.readIndex rb <= RingBuffer.size rb) /\
  (let arb := snd (AudioRingBuffer.run Scenario.NotANumber
                     [AudioRingBuffer.Write (replicate 6 Scenario.silence);
                      AudioRingBuffer.Read [] [] 2]
                     (AudioRingBuffer.create Scenario.silence 2 4)) in
   0 <= AudioRingBuffer.availableRead arb <= AudioRingBuffer.capacity arb /\
   0 <= AudioRingBuffer.availableWrite arb <= AudioRingBuffer.capacity arb).
Proof.
  pose proof (occupancy_below_int32 Scenario.NotANumber Scenario.silence 8
                [RingBuffer.Write [1; 60; 101]; RingBuffer.Write [2; 60]]
                [[1; 60; 101]; [2; 60]] []
                (snd (RingBuffer.run
                        [RingBuffer.Write [1; 60; 101]; RingBuffer.Write [2; 60]]
                        (RingBuffer.create 8)))
                2 4
                [AudioRingBuffer.Write (replicate 6 Scenario.silence);
                 AudioRingBuffer.Read [] [] 2]
                (AudioRingBuffer.create Scenario.silence 2 4))
    as (Hcontrol & Haudio & _).
  split.
  - apply Hcontrol.
    + lia.
    + vm_compute. reflexivity.
    + repeat constructor; simpl; unfold is_byte; lia.
    + vm_compute. reflexivity.
  - apply Haudio.
    + lia.
    + lia.
    + vm_compute. reflexivity.
Defined.

(** C2, counterexample. (a) A record of 256 bytes is accepted by a fresh
    queue of 4096 bytes; the drain that follows takes its length for 0 and
    reads on in its payload, and leaves the read index 146 past the write
    index. (b) On [Scenario.audio_wrap_trace] the write index of the audio
    buffer, stored as an [Int32], wraps from [2 ^ 31] to [- 2 ^ 31]:
    [availableRead()] is then negative and [availableWrite()] larger than
    the capacity. *)
Lemma occupancy_fails :
  (let rb := snd (RingBuffer.run
                    [RingBuffer.Write Scenario.long_record; RingBuffer.Drain]
                    (RingBuffer.create 4096)) in
   RingBuffer.writeIndex rb - RingBuffer.readIndex rb = - 146) /\
  (let arb := snd (AudioRingBuffer.run Scenario.NotANumber Scenario.audio_wrap_trace
                     (AudioRingBuffer.create Scenario.silence 2 4096)) in
   AudioRingBuffer.availableRead arb = 4096 - 2 ^ 32 /\
   AudioRingBuffer.availableWrite arb = 2 ^ 32 /\
   AudioRingBuffer.capacity arb = 4096).
Proof.
  split.
  - vm_compute. reflexivity.
  - unfold Scenario.audio_wrap_trace.
    remember (Z.to_nat (2 ^ 19 - 1)) as n eqn:Hn.
    assert (Hn' : Z.of_nat n = 2 ^ 19 - 1) by lia.
    replace (Z.to_nat (2 ^ 19)) with (S n) by lia.
    clear Hn.
    set (start := AudioRingBuffer.create Scenario.silence 2 4096).
    assert (Hcap : AudioRingBuffer.capacity start = 4096) by reflexivity.
    assert (Hcc : AudioRingBuffer.channelCount start = 2) by reflexivity.
    assert (Hw : AudioRingBuffer.writeIndex start = 0) by reflexivity.
    assert (Hr : AudioRingBuffer.readIndex start = 0) by reflexivity.
    destruct (AudioRingBufferFacts.run_wrap_audio Scenario.NotANumber
                (replicate (Z.to_nat 8192) Scenario.silence)
                (replicate (Z.to_nat 4096) Scenario.silence)
                (replicate (Z.to_nat 4096) Scenario.silence)
                (Z.to_nat 4096) n start)
      as (Hw' & Hr' & Hcap').
    { apply AudioRingBufferFacts.audio_create; lia. }
    { congruence. }
    { rewrite Hcap. lia. }
    { rewrite length_replicate, Hcap, Hcc. lia. }
    { rewrite Hw, Hcap. lia. }
    cbv zeta. unfold AudioRingBuffer.availableRead, AudioRingBuffer.availableWrite.
    rewrite Hw', Hr', Hcap', Hcap. lia.
Qed.

(** C3, as amended. A [RingBuffer.write] that finds less free space than
    the record and its length byte need returns [false] and leaves the
    object as it is; an [AudioRingBuffer.write] of more frames than
    [availableWrite()] returns 0 and leaves the object as it is. In
    particular, while the occupancy is not negative, a write of
    [capacity + 1] bytes or frames is turned down as a whole. *)
Theorem overflow_rejected {sample : Type} (data : list Z) (rb : RingBuffer.t)
    (input : list sample) (arb : AudioRingBuffer.t sample) :
  (RingBuffer.size rb - (RingBuffer.writeIndex rb - RingBuffer.readIndex rb)
   < Z.of_nat (length data) + 1 ->
   RingBuffer.write data rb = (false, rb)) /\
  ((inject_Z (AudioRingBuffer.availableWrite arb)
    < AudioRingBuffer.framesOf input arb)%Q ->
   AudioRingBuffer.write input arb = (AudioRingBuffer.Returned 0%Q, arb)) /\
  (0 <= RingBuffer.writeIndex rb - RingBuffer.readIndex rb ->
   Z.of_nat (length data) = RingBuffer.size rb + 1 ->
   RingBuffer.write data rb = (false, rb)) /\
  (0 < AudioRingBuffer.channelCount arb ->
   0 <= AudioRingBuffer.writeIndex arb - AudioRingBuffer.readIndex arb ->
   Z.of_nat (length input)
   = (AudioRingBuffer.capacity arb + 1) * AudioRingBuffer.channelCount arb ->
   AudioRingBuffer.write input arb = (AudioRingBuffer.Returned 0%Q, arb)).
Proof.
  split; [|split; [|split]].
  - apply RingBufferFacts.write_reject.
  - apply AudioRingBufferFacts.block_reject.
  - intros Hocc Hlen. apply RingBufferFacts.write_reject. lia.
  - intros Hcc Hocc Hlen. apply AudioRingBufferFacts.block_reject_frames; [exact Hcc|].
    unfold AudioRingBuffer.availableWrite. nia.
Qed.

(** Nine bytes for a fresh queue of 8 bytes; five frames for a fresh audio
    buffer of 4 frames. *)
Lemma overflow_rejected_witness :
  RingBuffer.write (replicate 9 7) (RingBuffer.create 8)
  = (false, RingBuffer.create 8) /\
  AudioRingBuffer.write (replicate 10 Scenario.silence)
    (AudioRingBuffer.create Scenario.silence 2 4)
  = (AudioRingBuffer.Returned 0%Q, AudioRingBuffer.create Scenario.silence 2 4).
Proof.
  pose proof (overflow_rejected (replicate 9 7) (RingBuffer.create 8)
                (replicate 10 Scenario.silence)
                (AudioRingBuffer.create Scenario.silence 2 4))
    as (H1 & H2 & H3 & H4).
  pose proof (H1 ltac:(vm_compute; reflexivity)) as _.
  pose proof (H2 ltac:(vm_compute; reflexivity)) as _.
  split.
  - apply H3; [vm_compute; discriminate | vm_compute; reflexivity].
  - apply H4; [vm_compute; reflexivity | vm_compute; discriminate
               | vm_compute; reflexivity].
Defined.

(** C3, counterexample. A record of 256 bytes is accepted by a new queue of
    4096 bytes, and the drain that follows takes the read index past the
    write index (257 and 403). In that state a [write] of 4097 bytes, one
    more than the capacity, returns [true]. *)
Lemma oversized_write_accepted :
  let rb := snd (RingBuffer.read
                   (snd (RingBuffer.write Scenario.long_record
                           (RingBuffer.create 4096)))) in
  RingBuffer.size rb = 4096 /\
  RingBuffer.writeIndex rb = 257 /\ RingBuffer.readIndex rb = 403 /\
  fst (RingBuffer.write (replicate 4097 0) rb) = true.
Proof. vm_compute. repeat split. Qed.

(** C4. An [AudioRingBuffer.read] of more frames than [availableRead()]
    returns [false], leaves the write index, the read index and the data as
    they are, and stores nothing in the two output channels. *)
Theorem underrun_rejected {sample : Type} (nan : sample)
    (leftOut rightOut : list sample) (framesToRead : Z)
    (rb : AudioRingBuffer.t sample) :
  AudioRingBuffer.availableRead rb < framesToRead ->
  AudioRingBuffer.read nan leftOut rightOut framesToRead rb
  = (false, (leftOut, rightOut), rb).
Proof. apply AudioRingBufferFacts.read_reject. Qed.

(** Two frames asked of an audio buffer that holds one. *)
Lemma underrun_rejected_witness :
  AudioRingBuffer.read Scenario.NotANumber
    [Scenario.Level 1; Scenario.Level 2] [Scenario.Level 3; Scenario.Level 4] 2
    (snd (AudioRingBuffer.write [Scenario.Level 5; Scenario.Level 6]
            (AudioRingBuffer.create Scenario.silence 2 4)))
  = (false,
     ([Scenario.Level 1; Scenario.Level 2], [Scenario.Level 3; Scenario.Level 4]),
     snd (AudioRingBuffer.write [Scenario.Level 5; Scenario.Level 6]
            (AudioRingBuffer.create Scenario.silence 2 4))).
Proof.
  apply (underrun_rejected Scenario.NotANumber). vm_compute. reflexivity.
Defined.

(** C10. [RingBuffer.write] does not check the length against the one-byte
    prefix. On a drained queue, every record of more than 255 bytes that
    fits is accepted; the prefix it stores is the length modulo 256; and the
    next drain hands over, first, a record of that many bytes, which is not
    the record written. *)
Theorem long_record_accepted (data : list Z) (rb : RingBuffer.t) :
  control rb [] -> Forall is_byte data ->
  255 < Z.of_nat (length data) ->
  Z.of_nat (length data) + 1 <= RingBuffer.size rb ->
  RingBuffer.writeIndex rb + (Z.of_nat (length data) + 1) < 2 ^ 31 ->
  exists rb' rest,
    RingBuffer.write data rb = (true, rb') /\
    RingBuffer.buffer rb' !! pos (RingBuffer.size rb) (RingBuffer.writeIndex rb)
    = Some (Z.of_nat (length data) mod 256) /\
    fst (RingBuffer.read rb')
    = take (Z.to_nat (Z.of_nat (length data) mod 256)) data :: rest /\
    fst (RingBuffer.read rb') <> [data].
Proof.
  intros Hc Hbytes Hlong Hfit Hint.
  pose proof Hc as [Hsz Hlen Hr Hw Hi32 _ _ _ Htemp]. simpl in Hw.
  set (len := Z.of_nat (length data)) in *.
  set (l := len mod 256).
  assert (Hl : 0 <= l < 256) by (apply Z.mod_pos_bound; lia).
  destruct (RingBufferFacts.write_bytes_spec (RingBuffer.size rb) Hsz
              (encode data) (RingBuffer.writeIndex rb) (RingBuffer.buffer rb))
    as (Hlen' & Hin & _); [lia | exact Hlen | rewrite RingBufferFacts.length_encode; lia |].
  change (map JS.toUint8 (encode data)) with ([l] ++ map JS.toUint8 data) in Hin.
  rewrite RingBufferFacts.map_toUint8_bytes in Hin by exact Hbytes.
  apply RingBufferFacts.holds_app in Hin as [Hhead Hbody]. simpl length in Hbody.
  pose proof (Hhead O l eq_refl) as H0. rewrite Z.add_0_r in H0.
  assert (Htake : holds (RingBuffer.size rb)
                    (RingBuffer.write_bytes (RingBuffer.size rb)
                       (RingBuffer.writeIndex rb) (encode data) (RingBuffer.buffer rb))
                    (RingBuffer.writeIndex rb + 1) (take (Z.to_nat l) data)).
  { intros i b Hi. apply Hbody. apply lookup_take_Some in Hi. tauto. }
  assert (Hlt : length (take (Z.to_nat l) data) = Z.to_nat l)
    by (rewrite length_take; lia).
  unfold RingBuffer.write. fold len.
  destruct (Z.ltb_spec (RingBuffer.size rb
                        - (RingBuffer.writeIndex rb - RingBuffer.readIndex rb))
              (len + 1)); [lia|].
  change (RingBuffer.write_bytes (RingBuffer.size rb) (RingBuffer.writeIndex rb + 1) data
            (RingBuffer.store (RingBuffer.size rb) (RingBuffer.writeIndex rb) len
               (RingBuffer.buffer rb)))
    with (RingBuffer.write_bytes (RingBuffer.size rb) (RingBuffer.writeIndex rb)
            (encode data) (RingBuffer.buffer rb)).
  set (buf' := RingBuffer.write_bytes (RingBuffer.size rb) (RingBuffer.writeIndex rb)
                 (encode data) (RingBuffer.buffer rb)) in *.
  rewrite toInt32_id by lia.
  assert (Hread : exists rest,
    fst (RingBuffer.read
           {| RingBuffer.size := RingBuffer.size rb;
              RingBuffer.writeIndex := RingBuffer.writeIndex rb + (len + 1);
              RingBuffer.readIndex := RingBuffer.readIndex rb;
              RingBuffer.buffer := buf';
              RingBuffer.tempBuffer := RingBuffer.tempBuffer rb |})
    = take (Z.to_nat l) data :: rest).
  { unfold RingBuffer.read.
    cbn [RingBuffer.size RingBuffer.writeIndex RingBuffer.readIndex
         RingBuffer.buffer RingBuffer.tempBuffer].
    destruct (Z.eqb_spec (RingBuffer.readIndex rb) (RingBuffer.writeIndex rb + (len + 1)));
      [lia|].
    set (temp := match RingBuffer.tempBuffer rb with
                 | Some tb => tb
                 | None => replicate 256 0
                 end).
    assert (Ht : (256 <= length temp)%nat).
    { subst temp. destruct (RingBuffer.tempBuffer rb); [exact Htemp|].
      rewrite length_replicate. lia. }
    replace (Z.to_nat (RingBuffer.writeIndex rb + (len + 1) - RingBuffer.readIndex rb))
      with (S (Z.to_nat len)) by lia.
    rewrite RingBufferFacts.drain_loop_S.
    destruct (Z.ltb_spec (RingBuffer.readIndex rb)
                (RingBuffer.writeIndex rb + (len + 1))); [|lia].
    rewrite RingBufferFacts.load_lookup by (lia || congruence).
    replace (RingBuffer.readIndex rb) with (RingBuffer.writeIndex rb) by lia.
    rewrite H0. cbv zeta.
    destruct (Z.ltb_spec (Z.of_nat (length temp)) l); [lia|].
    rewrite <- Hlt.
    rewrite (RingBufferFacts.read_bytes_spec (RingBuffer.size rb) Hsz buf'
               (take (Z.to_nat l) data) (RingBuffer.writeIndex rb + 1) O temp);
      [| congruence | lia | exact Htake
       | apply Forall_take; exact Hbytes | rewrite Hlt; lia].
    simpl take. simpl app. rewrite Hlt.
    pose proof (subarray_prefix (take (Z.to_nat l) data) (drop (Z.to_nat l) temp))
      as Hsub.
    rewrite Hlt, Z2Nat.id in Hsub by lia. rewrite Hsub.
    destruct (RingBuffer.drain_loop _ _ _ _ _ _) as [[rest temp3] cursor].
    exists rest. reflexivity. }
  destruct Hread as (rest & Hread).
  exists {| RingBuffer.size := RingBuffer.size rb;
            RingBuffer.writeIndex := RingBuffer.writeIndex rb + (len + 1);
            RingBuffer.readIndex := RingBuffer.readIndex rb;
            RingBuffer.buffer := buf';
            RingBuffer.tempBuffer := RingBuffer.tempBuffer rb |}, rest.
  split; [reflexivity|].
  cbn [RingBuffer.buffer]. split; [exact H0|]. split; [exact Hread|].
  rewrite Hread. intros Heq. injection Heq as Heq _.
  apply (f_equal length) in Heq. rewrite Hlt in Heq. lia.
Qed.

(** The record of 256 bytes on a fresh queue of 4096 bytes. *)
Lemma long_record_accepted_witness :
  fst (RingBuffer.write Scenario.long_record (RingBuffer.create 4096)) = true /\
  fst (RingBuffer.read
         (snd (RingBuffer.write Scenario.long_record (RingBuffer.create 4096))))
  <> [Scenario.long_record].
Proof.
  destruct (long_record_accepted Scenario.long_record (RingBuffer.create 4096))
    as (rb' & rest & Hwrite & _ & _ & Hne).
  - apply RingBufferFacts.control_create. lia.
  - apply Forall_replicate. unfold is_byte. lia.
  - vm_compute. reflexivity.
  - vm_compute. discriminate.
  - vm_compute. reflexivity.
  - rewrite Hwrite. split; [reflexivity | exact Hne].
Defined.

End Transport.

(** ** SynthesisWorker: the render loop *)

Module SynthesisWorker.

Import Rep JSFacts.

Section Samples.

Context {sample : Type} (nan : sample).
Context (rendered : Engine.handle -> Z -> list sample * list sample).

Implicit Types w : Worker.t sample.

Lemma renders_app e1 e2 :
  Engine.renders (e1 ++ e2) = (Engine.renders e1 + Engine.renders e2)%nat.
Proof. unfold Engine.renders. rewrite List.filter_app, length_app. reflexivity. Qed.

(** Control records start and stop notes; they render nothing. *)
Lemma renders_command e data :
  Engine.renders (Worker.command e data) = Engine.renders e.
Proof.
  unfold Worker.command. destruct (data !! 0%nat) as [cmd|]; [|reflexivity].
  destruct (cmd =? Worker.CMD_NOTE_ON);
    [rewrite renders_app; apply Nat.add_0_r|].
  destruct (cmd =? Worker.CMD_NOTE_OFF);
    [rewrite renders_app; apply Nat.add_0_r | reflexivity].
Qed.

Lemma renders_commands views : forall e,
  Engine.renders (foldl Worker.command e views) = Engine.renders e.
Proof.
  induction views as [|d ds IH]; intros e; [reflexivity|].
  simpl. rewrite IH. apply renders_command.
Qed.

(** With an engine, [processCommands] throws nothing and touches only the
    engine and the ControlQueue. *)
Lemma processCommands_engine w e :
  Worker.moduleInstance w = Some e ->
  exists w1 e1,
    Worker.processCommands w = Some w1 /\
    Worker.moduleInstance w1 = Some e1 /\
    Engine.renders e1 = Engine.renders e /\
    Worker.audioRingBuffer w1 = Worker.audioRingBuffer w /\
    Worker.tempBufferInterleaved w1 = Worker.tempBufferInterleaved w /\
    Worker.targetBufferSize w1 = Worker.targetBufferSize w /\
    Worker.bufferSize w1 = Worker.bufferSize w.
Proof.
  intros He. unfold Worker.processCommands.
  destruct (Worker.commandRingBuffer w) as [rb|].
  - destruct (RingBuffer.read rb) as [views rb']. rewrite He.
    eexists. exists (foldl Worker.command e views).
    split; [reflexivity|]. simpl. repeat split. apply renders_commands.
  - exists w, e. repeat split. exact He.
Qed.

Lemma length_put {A} i (v : A) (l : list A) : length (JS.put i v l) = length l.
Proof.
  unfold JS.put. destruct (JS.position _ _); [apply length_insert | reflexivity].
Qed.

Lemma length_interleave n : forall i (leftView rightView temp : list sample),
  length (Worker.interleave nan n i leftView rightView temp) = length temp.
Proof.
  induction n as [|n IH]; intros i leftView rightView temp; [reflexivity|].
  simpl. rewrite IH, !length_put. reflexivity.
Qed.

(** What the interleave loop leaves in [tempBufferInterleaved], place by
    place. *)
Lemma interleave_lookup (n : nat) : forall i leftView rightView temp (j : nat),
  0 <= i ->
  Worker.interleave nan n i leftView rightView temp !! j
  = if (i * 2 <=? Z.of_nat j) && (Z.of_nat j <? (i + Z.of_nat n) * 2)
       && (Z.of_nat j <? Z.of_nat (length temp))
    then Some (default nan
                 ((if Z.even (Z.of_nat j) then leftView else rightView)
                    !! Z.to_nat (Z.of_nat j / 2)))
    else temp !! j.
Proof.
  induction n as [|n IH]; intros i leftView rightView temp j Hi.
  - cbn [Worker.interleave].
    destruct (Z.leb_spec (i * 2) (Z.of_nat j)); cbn [andb]; [|reflexivity].
    destruct (Z.ltb_spec (Z.of_nat j) ((i + Z.of_nat 0) * 2)); [lia|reflexivity].
  - cbn [Worker.interleave]. rewrite IH by lia.
    rewrite !get_nonneg, !put_nonneg by lia. rewrite !length_insert.
    destruct (Z.ltb_spec (Z.of_nat j) (Z.of_nat (length temp))) as [Hin|Hout].
    + rewrite !andb_true_r.
      destruct (Z.eq_dec (Z.of_nat j) (i * 2)) as [Heq|Hne0].
      { replace (Z.to_nat (i * 2)) with j by lia.
        rewrite list_lookup_insert_ne by lia.
        rewrite list_lookup_insert_eq by lia.
        zcases. rewrite Heq, even_double, Z.div_mul by lia. reflexivity. }
      destruct (Z.eq_dec (Z.of_nat j) (i * 2 + 1)) as [Heq|Hne1].
      { replace (Z.to_nat (i * 2 + 1)) with j by lia.
        rewrite list_lookup_insert_eq by (rewrite length_insert; lia).
        zcases. rewrite Heq, even_double_1, half_double_1. reflexivity. }
      rewrite !list_lookup_insert_ne by lia.
      zcases; reflexivity.
    + rewrite !andb_false_r.
      rewrite !(lookup_ge_None_2 _ j) by (rewrite ?length_insert; lia).
      reflexivity.
Qed.

Lemma toInt32_le x : - 2 ^ 31 <= x -> JS.toInt32 x <= x.
Proof.
  intros H. unfold JS.toInt32.
  pose proof (Z.mod_le (x + 2 ^ 31) (2 ^ 32) ltac:(lia) ltac:(lia)). lia.
Qed.

(** C5, as amended. One run of [renderLoop] in a worker that is ready, on
    an audio buffer whose indices are below the range of [Int32] and whose
    occupancy is between 0 and its capacity. If [availableRead() >=
    targetBufferSize] or [availableWrite() < bufferSize], the engine renders
    nothing and the audio buffer stays as it is. Otherwise the engine
    renders one block of [bufferSize] frames (its last call), and one
    [write] of [2 * bufferSize] interleaved samples is accepted: the block
    written holds, frame by frame, the samples of the left and of the
    right view of the engine (and the value of [undefined] in a
    [Float32Array] where a view is too short); the write index moves by
    [bufferSize], the read index stays. In either case, if
    [availableRead()] has grown, it is at most [targetBufferSize +
    bufferSize - 1]. *)
Theorem render_loop_gate w (arb : AudioRingBuffer.t sample) (e : Engine.handle) :
  Worker.isReady w = true ->
  Worker.audioRingBuffer w = Some arb ->
  Worker.moduleInstance w = Some e ->
  audio arb -> AudioRingBuffer.channelCount arb = 2 ->
  0 <= Worker.bufferSize w ->
  Z.of_nat (length (Worker.tempBufferInterleaved w)) = Worker.bufferSize w * 2 ->
  let target := Worker.targetBufferSize w in
  let blockSize := Worker.bufferSize w in
  let w' := snd (Worker.renderLoop nan rendered w) in
  exists e' arb',
    Worker.moduleInstance w' = Some e' /\
    Worker.audioRingBuffer w' = Some arb' /\
    (target <= AudioRingBuffer.availableRead arb \/
     AudioRingBuffer.availableWrite arb < blockSize ->
     Engine.renders e' = Engine.renders e /\ arb' = arb) /\
    (AudioRingBuffer.availableRead arb < target ->
     blockSize <= AudioRingBuffer.availableWrite arb ->
     Engine.renders e' = S (Engine.renders e) /\
     last e' = Some (Engine.Render blockSize) /\
     (exists block,
         Z.of_nat (length block) = blockSize * 2 /\
         (forall i : nat, Z.of_nat i < blockSize ->
            block !! (2 * i)%nat
            = Some (default nan (fst (rendered e' blockSize) !! i)) /\
            block !! (2 * i + 1)%nat
            = Some (default nan (snd (rendered e' blockSize) !! i))) /\
         Worker.tempBufferInterleaved w' = block /\
         AudioRingBuffer.write block arb
         = (AudioRingBuffer.Returned (AudioRingBuffer.framesOf block arb), arb')) /\
     AudioRingBuffer.writeIndex arb'
     = JS.toInt32 (AudioRingBuffer.writeIndex arb + blockSize) /\
     AudioRingBuffer.readIndex arb' = AudioRingBuffer.readIndex arb) /\
    (AudioRingBuffer.availableRead arb < AudioRingBuffer.availableRead arb' ->
     AudioRingBuffer.availableRead arb' <= target + blockSize - 1).
Proof.
  intros Hready Harb He Ha Hcc Hbs Htemp target blockSize w'.
  subst w' target blockSize. unfold Worker.renderLoop. rewrite Hready, Harb.
  destruct (processCommands_engine w e He)
    as (w1 & e1 & Hpc & He1 & Hr1 & Harb1 & Htemp1 & Htarget1 & Hbs1).
  rewrite Hpc, Htarget1, Hbs1.
  destruct (Z.leb_spec (Worker.targetBufferSize w) (AudioRingBuffer.availableRead arb))
    as [Henough|Hbelow].
  { exists e1, arb. cbn [snd]. rewrite He1, Harb1, Harb.
    repeat split; try assumption; lia. }
  destruct (Z.ltb_spec (AudioRingBuffer.availableWrite arb) (Worker.bufferSize w))
    as [Hfull|Hroom].
  { exists e1, arb. cbn [snd]. rewrite He1, Harb1, Harb.
    repeat split; try assumption; lia. }
  rewrite He1.
  destruct (rendered (e1 ++ [Engine.Render (Worker.bufferSize w)]) (Worker.bufferSize w))
    as [leftView rightView] eqn:Hviews.
  set (block := Worker.interleave nan (Z.to_nat (Worker.bufferSize w)) 0
                  leftView rightView (Worker.tempBufferInterleaved w1)).
  assert (Hblock : Z.of_nat (length block) = Worker.bufferSize w * 2).
  { subst block. rewrite length_interleave, Htemp1. exact Htemp. }
  assert (Hframes : forall i : nat, Z.of_nat i < Worker.bufferSize w ->
             block !! (2 * i)%nat = Some (default nan (leftView !! i)) /\
             block !! (2 * i + 1)%nat = Some (default nan (rightView !! i))).
  { intros i Hi. subst block. rewrite !interleave_lookup by lia.
    rewrite Htemp1.
    replace (Z.of_nat (2 * i)) with (Z.of_nat i * 2) by lia.
    replace (Z.of_nat (2 * i + 1)) with (Z.of_nat i * 2 + 1) by lia.
    rewrite even_double, even_double_1, half_double_1, Z.div_mul by lia.
    rewrite Nat2Z.id, Htemp. split; zcases; reflexivity. }
  destruct (AudioRingBufferFacts.block_accept block arb Ha) as (buf & Hwrite & _).
  { rewrite Hblock, Hcc. lia. }
  rewrite Hwrite. cbv beta iota zeta. rewrite Hblock, Hcc, Z.div_mul by lia.
  set (arb' := {| AudioRingBuffer.channelCount := 2;
                  AudioRingBuffer.capacity := AudioRingBuffer.capacity arb;
                  AudioRingBuffer.writeIndex :=
                    JS.toInt32 (AudioRingBuffer.writeIndex arb + Worker.bufferSize w);
                  AudioRingBuffer.readIndex := AudioRingBuffer.readIndex arb;
                  AudioRingBuffer.buffer := buf |}).
  exists (e1 ++ [Engine.Render (Worker.bufferSize w)]), arb'.
  rewrite Hviews. cbn [fst snd].
  destruct (AudioRingBuffer.availableRead arb' <? Worker.targetBufferSize w);
    cbn [snd Worker.moduleInstance Worker.audioRingBuffer Worker.with_audio
         Worker.with_engine Worker.tempBufferInterleaved];
    (split; [reflexivity|]; split; [reflexivity|]; split; [lia|]; split;
     [ intros _ _; split; [rewrite renders_app, Hr1; apply Nat.add_1_r|];
       split; [apply last_snoc|]; split; [|split; reflexivity];
       exists block; split; [exact Hblock|]; split; [exact Hframes|];
       split; [reflexivity|];
       rewrite Hwrite, Hblock, Hcc, Z.div_mul by lia; reflexivity
     | intros _; destruct Ha as [? ? ? ? ? ? ?];
       unfold AudioRingBuffer.availableRead in *;
       cbn [AudioRingBuffer.writeIndex AudioRingBuffer.readIndex arb'];
       pose proof (toInt32_le (AudioRingBuffer.writeIndex arb + Worker.bufferSize w)
                     ltac:(lia)); lia ]).
Qed.

End Samples.

(** The first run of the loop in [Scenario.small_worker]: one block, two
    frames ahead. *)
Lemma render_loop_gate_witness :
  exists e' arb',
    Worker.moduleInstance
      (snd (Worker.renderLoop Scenario.NotANumber Scenario.tone Scenario.small_worker))
    = Some e' /\
    Worker.audioRingBuffer
      (snd (Worker.renderLoop Scenario.NotANumber Scenario.tone Scenario.small_worker))
    = Some arb' /\
    Engine.renders e' = 1%nat /\ AudioRingBuffer.availableRead arb' = 2.
Proof.
  destruct (render_loop_gate Scenario.NotANumber Scenario.tone Scenario.small_worker
              (AudioRingBuffer.create Scenario.silence 2 8) [Engine.Init 0 2])
    as (e' & arb' & He & Harb & _ & Hrender & _).
  - reflexivity.
  - reflexivity.
  - reflexivity.
  - apply AudioRingBufferFacts.audio_create; lia.
  - reflexivity.
  - vm_compute. discriminate.
  - reflexivity.
  - exists e', arb'. split; [exact He|]. split; [exact Harb|].
    destruct Hrender as (Hn & _ & _ & Hw & Hr);
      [vm_compute; reflexivity | vm_compute; discriminate |].
    split; [exact Hn|].
    unfold AudioRingBuffer.availableRead. rewrite Hw, Hr. reflexivity.
Defined.

(** C5, counterexample. In [Scenario.late_worker] the first run of the loop
    takes the write index over the end of [Int32], to [- 2 ^ 31]. From then
    on [availableRead()] is negative and the gate is open in every run.
    The third run finds [availableRead() < targetBufferSize] and
    [availableWrite() >= bufferSize], the engine renders a block, and
    [write] throws a [RangeError] on a negative offset: the block is not
    written, the audio buffer is as it was, and the loop is not scheduled
    again. *)
Lemma render_loop_throws_after_wrap :
  let run := Worker.renderLoop Scenario.NotANumber Scenario.tone in
  let w2 := snd (run (snd (run Scenario.late_worker))) in
  (AudioRingBuffer.writeIndex <$> Worker.audioRingBuffer w2) = Some (- 2 ^ 31 + 2) /\
  (AudioRingBuffer.availableRead <$> Worker.audioRingBuffer w2) = Some (- 2 ^ 32 + 4) /\
  (AudioRingBuffer.availableWrite <$> Worker.audioRingBuffer w2) = Some (2 ^ 32 + 4) /\
  Worker.targetBufferSize w2 = 4 /\ Worker.bufferSize w2 = 2 /\
  fst (run w2) = Worker.Uncaught /\
  (Engine.renders <$> Worker.moduleInstance w2) = Some 2%nat /\
  (Engine.renders <$> Worker.moduleInstance (snd (run w2))) = Some 3%nat /\
  Worker.audioRingBuffer (snd (run w2)) = Worker.audioRingBuffer w2.
Proof. vm_compute. repeat split. Qed.

End SynthesisWorker.

(** ** OutputCallback: the worklet *)

Module OutputCallback.

(** C6. A call of [process] that finds fewer frames in the audio buffer than
    the output channels are long returns [true]; it leaves the output
    channels as the host handed them over (zeroed, so the quantum is
    silent) and the audio buffer as it is; and it has made one read attempt,
    for exactly the length of the channels. *)
Theorem underrun_keeps_stream {sample : Type} (nan : sample)
    (output : list (list sample)) (p : Worklet.t sample)
    (rb : AudioRingBuffer.t sample) (channelL channelR : list sample) :
  Worklet.audioRingBuffer p = Some rb ->
  output !! 0%nat = Some channelL ->
  output !! 1%nat = Some channelR ->
  AudioRingBuffer.availableRead rb < Z.of_nat (length channelL) ->
  Worklet.process nan output p
  = (true, output, p, [(Z.of_nat (length channelL), false)]).
Proof.
  intros Hrb HL HR Hunder. unfold Worklet.process. rewrite HL, HR, Hrb.
  rewrite AudioRingBufferFacts.read_reject by exact Hunder.
  rewrite (list_insert_id output 0 channelL) by exact HL.
  rewrite (list_insert_id output 1 channelR) by exact HR.
  destruct p as [o]. simpl in Hrb. subst o. reflexivity.
Qed.

(** A quantum of two frames on an audio buffer that holds one. *)
Lemma underrun_keeps_stream_witness :
  Worklet.process Scenario.NotANumber Scenario.quiet_output Scenario.small_worklet
  = (true, Scenario.quiet_output, Scenario.small_worklet, [(2, false)]).
Proof.
  apply (underrun_keeps_stream Scenario.NotANumber Scenario.quiet_output
           Scenario.small_worklet
           (snd (AudioRingBuffer.write [Scenario.Level 5; Scenario.Level 6]
                   (AudioRingBuffer.create Scenario.silence 2 8)))
           [Scenario.silence; Scenario.silence] [Scenario.silence; Scenario.silence]).
  - reflexivity.
  - reflexivity.
  - reflexivity.
  - vm_compute. reflexivity.
Defined.

End OutputCallback.

(** ** PipelineOrchestrator: the SDK and the store *)

Module Orchestrator.

Import Rep JSFacts.

(** The worker's object over a region is as good as the SDK's. *)
Lemma control_shared (a b : RingBuffer.t) ps qs :
  control a ps -> control b qs -> RingBuffer.size b = RingBuffer.size a ->
  control (Pipeline.shared a b) ps.
Proof.
  intros [? ? ? ? ? ? ? ? ?] [? ? ? ? ? ? ? ? Htemp] Hsz.
  constructor; simpl; try rewrite Hsz; assumption.
Qed.

Section Samples.

Context {sample : Type}.

Implicit Types p : Pipeline.t sample.



End Samples.



Section Fallback.

Context {sample : Type} (nan zero : sample).
Context (rendered : Engine.handle -> Z -> list sample * list sample).

(** What [init()] leaves of a [VitalSDK] made with [useWorklet: false],
    when it resolves: an engine in the calling context, a script node, no
    worker, no worklet node and no ring buffer. *)
Lemma init_single_context (env : SDK.env) (bs : Z) (vital : SDK.t sample) :
  SDK.init nan zero rendered env (SDK.new bs false) = (SDK.Resolved, vital) ->
  vital
  = {| SDK.sampleRate := SDK.contextSampleRate env;
       SDK.bufferSize := if bs =? 0 then 1024 else bs;
       SDK.audioContext := true;
       SDK.moduleInstance :=
         Some [Engine.Init (SDK.contextSampleRate env) (if bs =? 0 then 1024 else bs)];
       SDK.worker := false; SDK.toWorker := [];
       SDK.initialized := true; SDK.useWorklet := false;
       SDK.scriptNode := true; SDK.workletNode := false;
       SDK.ringBuffer := None; SDK.audioRingBuffer := None;
       SDK.outLPtr := SDK.malloc env ((if bs =? 0 then 1024 else bs) * 4);
       SDK.outRPtr := SDK.malloc env ((if bs =? 0 then 1024 else bs) * 4) |}.
Proof.
  unfold SDK.init, SDK.new, SDK.initScriptProcessor.
  cbn -[Z.mul Z.eqb].
  destruct (SDK.newAudioContext env); [discriminate|].
  destruct (SDK.loadWasm env); [discriminate|].
  destruct (SDK.createScriptProcessor env _); [discriminate|].
  intros [= <-]. reflexivity.
Qed.

(** When [init()] of a [VitalSDK] made with [useWorklet: true] is rejected:
    one of the steps of the bring-up throws, or the worker answers with an
    error. (A worker that never answers leaves the promise pending.) *)
Lemma init_dual_context_rejected (env : SDK.env) (bs : Z) :
  (exists err,
      fst (SDK.init nan zero rendered env (SDK.new bs true)) = SDK.Rejected err) <->
  is_Some (SDK.newAudioContext env) \/ is_Some (SDK.newWorker env) \/
  is_Some (SDK.addModule env) \/ is_Some (SDK.newSharedArrayBuffer env) \/
  is_Some (SDK.newWorkletNode env) \/
  exists m, SDK.workerReply env = Some (Worker.Error m).
Proof.
  unfold SDK.init, SDK.new, SDK.initWorkletAndWorker. cbn -[Z.mul Z.eqb].
  destruct (SDK.newAudioContext env);
    [split; [intros _; left; eauto | intros _; eexists; reflexivity]|].
  destruct (SDK.newWorker env);
    [split; [intros _; right; left; eauto | intros _; eexists; reflexivity]|].
  destruct (SDK.addModule env);
    [split; [intros _; right; right; left; eauto | intros _; eexists; reflexivity]|].
  destruct (SDK.newSharedArrayBuffer env);
    [split; [intros _; do 3 right; left; eauto | intros _; eexists; reflexivity]|].
  destruct (SDK.newWorkletNode env);
    [split; [intros _; do 4 right; left; eauto | intros _; eexists; reflexivity]|].
  destruct (SDK.workerReply env) as [[|m|]|]; cbn.
  all: split;
    [ intros [err H]; try discriminate; do 5 right; eauto
    | intros [H|[H|[H|[H|[H|[m' H]]]]]];
      try (destruct H; discriminate); try discriminate; eexists; reflexivity ].
Qed.



(** With the script processor forced by the settings, the single-context
    instance is the first and only one that [initialize()] makes. *)
Lemma forced_single_context (env : SDK.env) (st : Store.t sample) :
  Store.isInitialized st = false ->
  Store.isLoading st = false ->
  Store.forceScriptProcessor st = true ->
  Store.processorType st = "Unknown"%string ->
  fst (SDK.init nan zero rendered env (SDK.new (Store.bufferSize st) false))
  = SDK.Resolved ->
  let st' := Store.initialize nan zero rendered env st in
  exists vital,
    Store.vitalInstance st' = Some vital /\
    Store.processorType st' = "ScriptProcessorNode"%string /\
    SDK.isWorklet vital = false /\ SDK.worker vital = false /\
    SDK.ringBuffer vital = None /\ SDK.audioRingBuffer vital = None /\
    SDK.moduleInstance vital
    = Some [Engine.Init (SDK.contextSampleRate env) (SDK.bufferSize vital)].
Proof.
  intros Hinit Hload Hforce Htype Hsingle st'. subst st'.
  destruct (SDK.init nan zero rendered env (SDK.new (Store.bufferSize st) false))
    as [r vital] eqn:Hlegacy.
  cbn [fst] in Hsingle. subst r.
  unfold Store.initialize. rewrite Hinit, Hload, Hforce.
  cbn [orb negb Store.bufferSize Store.forceScriptProcessor Store.processorType].
  rewrite Hlegacy, Htype.
  apply init_single_context in Hlegacy.
  exists vital. subst vital. unfold Store.succeeded, SDK.setVolume, SDK.isWorklet.
  cbn [Store.vitalInstance Store.processorType SDK.initialized SDK.useWorklet
       SDK.worker SDK.ringBuffer SDK.audioRingBuffer SDK.moduleInstance
       SDK.bufferSize negb andb].
  repeat split; reflexivity.
Qed.

End Fallback.



Section Presets.

Context {sample preset : Type}.
Context (prepare : preset -> SDK.error + list Z).
Context (load_preset_rc : Engine.handle -> list Z -> Z).

Implicit Types s : SDK.t sample.

(** A preset that cannot be read, inflated or parsed is reported by a
    rejected promise, in either mode, and nothing is touched. *)
Lemma preset_unparsable_rejected (p : preset) (err : SDK.error) s :
  SDK.initialized s = true -> prepare p = inl err ->
  SDK.loadPreset prepare load_preset_rc p s = (SDK.Rejected err, s).
Proof.
  intros Hinit Hp. unfold SDK.loadPreset. rewrite Hinit, Hp. reflexivity.
Qed.

(** In the single-context mode, a preset that the engine refuses is
    reported by a rejected promise. *)
Lemma preset_refused_single_context (p : preset) (bytes : list Z) s
    (e : Engine.handle) :
  SDK.initialized s = true -> SDK.useWorklet s = false ->
  SDK.moduleInstance s = Some e ->
  prepare p = inr bytes -> load_preset_rc e bytes <> 0 ->
  fst (SDK.loadPreset prepare load_preset_rc p s)
  = SDK.Rejected (SDK.mkError "Error" "Failed to load preset").
Proof.
  intros Hinit Hwl He Hp Hrc. unfold SDK.loadPreset.
  rewrite Hinit, Hp, Hwl, He. cbn [negb].
  destruct (Z.eqb_spec (load_preset_rc e bytes) 0); [contradiction|reflexivity].
Qed.

(** C9, where the code departs from it. In the dual-context mode, a preset
    that parses as JSON and that the engine refuses (a status other than 0
    from [_load_preset]) is not reported: the promise of [loadPreset]
    resolves as soon as the message is posted, and the worker, which has
    handed the bytes to the engine, drops the status and posts
    ['preset-loaded']. *)
Theorem preset_refusal_unreported (p : preset) (bytes : list Z) s
    (w : Worker.t sample) (e : Engine.handle) :
  SDK.initialized s = true -> SDK.useWorklet s = true -> SDK.worker s = true ->
  Worker.moduleInstance w = Some e ->
  prepare p = inr bytes -> load_preset_rc e bytes <> 0 ->
  SDK.loadPreset prepare load_preset_rc p s
  = (SDK.Resolved, SDK.post s (Worker.MsgLoadPreset bytes)) /\
  Worker.handleCommand (Worker.MsgLoadPreset bytes) w
  = Some (Worker.with_posted
            (Worker.with_engine w (e ++ [Engine.LoadPreset bytes]))
            Worker.PresetLoaded).
Proof.
  intros Hinit Hwl Hworker He Hp _. split.
  - unfold SDK.loadPreset. rewrite Hinit, Hp, Hwl, Hworker. reflexivity.
  - unfold Worker.handleCommand, Worker.loadPreset. rewrite He.
    rewrite andb_false_r. reflexivity.
Qed.

End Presets.

(** The text [{}] with an engine that refuses every preset. *)
Lemma preset_refusal_unreported_witness :
  fst (SDK.loadPreset Scenario.prepare_text Scenario.refuse_all "{}"%string
         Scenario.ready_sdk)
  = SDK.Resolved /\
  (Worker.posted <$>
     Worker.handleCommand (Worker.MsgLoadPreset [123; 125]) Scenario.ready_worker)
  = Some [Worker.Ready; Worker.PresetLoaded].
Proof.
  destruct (preset_refusal_unreported Scenario.prepare_text Scenario.refuse_all
              "{}"%string [123; 125] Scenario.ready_sdk Scenario.ready_worker
              [Engine.Init 0 128; Engine.SetVolume 1; Engine.Render 128])
    as [Hsdk Hworker].
  - reflexivity.
  - reflexivity.
  - reflexivity.
  - reflexivity.
  - reflexivity.
  - vm_compute. discriminate.
  - rewrite Hsdk, Hworker. split; reflexivity.
Defined.

End Orchestrator.

(** ** Stereo streams: the two channels through the buffer *)

Module StereoFacts.

Import AudioRingBuffer Rep Stereo JSFacts AudioRingBufferFacts.


Lemma mod_below x len : 0 < len -> - len <= x < 0 -> x mod len = x + len.
Proof.
  intros Hlen Hx. symmetry. apply (Z.mod_unique_pos x len (-1)); lia.
Qed.

Lemma set_lookup {A} (src dst b : list A) off (j : nat) :
  JS.set src off dst = Some b ->
  b !! j = if (off <=? Z.of_nat j) && (Z.of_nat j <? off + Z.of_nat (length src))
           then src !! Z.to_nat (Z.of_nat j - off) else dst !! j.
Proof.
  unfold JS.set.
  destruct (Z.ltb_spec off 0) as [|Hoff]; [discriminate|].
  destruct (Z.ltb_spec (Z.of_nat (length dst)) (off + Z.of_nat (length src)))
    as [|Hfit]; [discriminate|].
  cbn [orb]. intros [= <-].
  assert (Htake : length (take (Z.to_nat off) dst) = Z.to_nat off)
    by (rewrite length_take; lia).
  destruct (Z.leb_spec off (Z.of_nat j)) as [Hle|Hlt]; cbn [andb].
  - rewrite lookup_app_r by lia. rewrite Htake.
    destruct (Z.ltb_spec (Z.of_nat j) (off + Z.of_nat (length src))) as [Hin|Hout].
    + rewrite lookup_app_l by lia. f_equal. lia.
    + rewrite lookup_app_r by lia. rewrite lookup_drop. f_equal. lia.
  - rewrite lookup_app_l by lia. apply lookup_take_lt. lia.
Qed.

Section Samples.

Context {sample : Type} (nan : sample).

Implicit Types rb : AudioRingBuffer.t sample.
Implicit Types block input pending leftOut rightOut : list sample.

Lemma frames_lookup_le (n : nat) : forall block (k : nat),
  (length block <= n)%nat ->
  frames block !! k
  = match block !! (2 * k)%nat, block !! (2 * k + 1)%nat with
    | Some l, Some r => Some (l, r)
    | _, _ => None
    end.
Proof.
  induction n as [|n IH]; intros block k Hlen.
  - destruct block; [reflexivity|cbn [length] in Hlen; lia].
  - destruct block as [|l [|r rest]].
    + reflexivity.
    + destruct k; reflexivity.
    + destruct k as [|k].
      * reflexivity.
      * cbn [frames]. rewrite lookup_cons.
        replace (2 * S k)%nat with (S (S (2 * k))) by lia.
        replace (S (S (2 * k)) + 1)%nat with (S (S (2 * k + 1))) by lia.
        cbn [lookup list_lookup]. apply IH. cbn [length] in Hlen. lia.
Qed.

Lemma frames_lookup block (k : nat) :
  frames block !! k
  = match block !! (2 * k)%nat, block !! (2 * k + 1)%nat with
    | Some l, Some r => Some (l, r)
    | _, _ => None
    end.
Proof. apply (frames_lookup_le (length block)). lia. Qed.

Lemma frames_app (m : nat) : forall block rest,
  length block = (2 * m)%nat -> frames (block ++ rest) = frames block ++ frames rest.
Proof.
  induction m as [|m IH]; intros block rest Hlen.
  - destruct block; [reflexivity|discriminate].
  - destruct block as [|l [|r block]]; try (cbn [length] in Hlen; lia).
    cbn [app frames]. f_equal. apply IH. cbn [length] in Hlen. lia.
Qed.

Lemma length_frames (m : nat) : forall block,
  length block = (2 * m)%nat -> length (frames block) = m.
Proof.
  induction m as [|m IH]; intros block Hlen.
  - destruct block; [reflexivity|discriminate].
  - destruct block as [|l [|r block]]; try (cbn [length] in Hlen; lia).
    cbn [frames length]. f_equal. apply IH. cbn [length] in Hlen. lia.
Qed.

Lemma lefts_lookup block (k : nat) :
  (2 * k + 1 < length block)%nat -> lefts block !! k = block !! (2 * k)%nat.
Proof.
  intros Hk. unfold lefts. rewrite list_lookup_fmap, frames_lookup.
  destruct (lookup_lt_is_Some_2 block (2 * k)%nat ltac:(lia)) as [l ->].
  destruct (lookup_lt_is_Some_2 block (2 * k + 1)%nat ltac:(lia)) as [r ->].
  reflexivity.
Qed.

Lemma rights_lookup block (k : nat) :
  (2 * k + 1 < length block)%nat -> rights block !! k = block !! (2 * k + 1)%nat.
Proof.
  intros Hk. unfold rights. rewrite list_lookup_fmap, frames_lookup.
  destruct (lookup_lt_is_Some_2 block (2 * k)%nat ltac:(lia)) as [l ->].
  destruct (lookup_lt_is_Some_2 block (2 * k + 1)%nat ltac:(lia)) as [r ->].
  reflexivity.
Qed.

(** What [deinterleave] leaves in the output channels, place by place. *)
Lemma deinterleave_lookup src : forall (count : nat) srcIdx dstIdx leftOut rightOut l r,
  0 <= srcIdx -> 0 <= dstIdx ->
  deinterleave nan src srcIdx dstIdx count leftOut rightOut = (l, r) ->
  length l = length leftOut /\ length r = length rightOut /\
  (forall j : nat,
      l !! j
      = if (dstIdx <=? Z.of_nat j) && (Z.of_nat j <? dstIdx + Z.of_nat count)
           && (Z.of_nat j <? Z.of_nat (length leftOut))
        then Some (default nan (src !! Z.to_nat (srcIdx + 2 * (Z.of_nat j - dstIdx))))
        else leftOut !! j) /\
  (forall j : nat,
      r !! j
      = if (dstIdx <=? Z.of_nat j) && (Z.of_nat j <? dstIdx + Z.of_nat count)
           && (Z.of_nat j <? Z.of_nat (length rightOut))
        then Some (default nan (src !! Z.to_nat (srcIdx + 2 * (Z.of_nat j - dstIdx) + 1)))
        else rightOut !! j).
Proof.
  induction count as [|count IH]; intros srcIdx dstIdx leftOut rightOut l r Hs Hd Heq.
  - cbn [deinterleave] in Heq. injection Heq as <- <-.
    repeat split; intros j;
      destruct (Z.leb_spec dstIdx (Z.of_nat j)); cbn [andb]; try reflexivity;
      destruct (Z.ltb_spec (Z.of_nat j) (dstIdx + Z.of_nat 0)); cbn [andb];
      try reflexivity; lia.
  - cbn [deinterleave] in Heq.
    rewrite !get_nonneg, !put_nonneg in Heq by lia.
    apply IH in Heq; [|lia|lia].
    destruct Heq as (Hl & Hr & Hleft & Hright).
    rewrite length_insert in Hl, Hr.
    split; [exact Hl|]. split; [exact Hr|]. split; intros j.
    + rewrite Hleft, length_insert.
      destruct (Z.ltb_spec (Z.of_nat j) (Z.of_nat (length leftOut))) as [Hin|Hout].
      * destruct (Z.eq_dec (Z.of_nat j) dstIdx) as [Heq|Hne].
        -- destruct (Z.leb_spec (dstIdx + 1) (Z.of_nat j)); [lia|].
           destruct (Z.leb_spec dstIdx (Z.of_nat j)); [|lia].
           destruct (Z.ltb_spec (Z.of_nat j) (dstIdx + Z.of_nat (S count))); [|lia].
           cbn [andb]. replace (Z.to_nat dstIdx) with j by lia.
           rewrite list_lookup_insert_eq by lia.
           do 3 f_equal. lia.
        -- rewrite list_lookup_insert_ne by lia.
           destruct (Z.leb_spec (dstIdx + 1) (Z.of_nat j));
             destruct (Z.leb_spec dstIdx (Z.of_nat j)); try lia; cbn [andb];
             try reflexivity.
           destruct (Z.ltb_spec (Z.of_nat j) (dstIdx + 1 + Z.of_nat count));
             destruct (Z.ltb_spec (Z.of_nat j) (dstIdx + Z.of_nat (S count)));
             try lia; cbn [andb]; try reflexivity.
           do 3 f_equal. lia.
      * rewrite !andb_false_r.
        rewrite !(lookup_ge_None_2 _ j) by (rewrite ?length_insert; lia).
        reflexivity.
    + rewrite Hright, length_insert.
      destruct (Z.ltb_spec (Z.of_nat j) (Z.of_nat (length rightOut))) as [Hin|Hout].
      * destruct (Z.eq_dec (Z.of_nat j) dstIdx) as [Heq|Hne].
        -- destruct (Z.leb_spec (dstIdx + 1) (Z.of_nat j)); [lia|].
           destruct (Z.leb_spec dstIdx (Z.of_nat j)); [|lia].
           destruct (Z.ltb_spec (Z.of_nat j) (dstIdx + Z.of_nat (S count))); [|lia].
           cbn [andb]. replace (Z.to_nat dstIdx) with j by lia.
           rewrite list_lookup_insert_eq by lia.
           do 3 f_equal. lia.
        -- rewrite list_lookup_insert_ne by lia.
           destruct (Z.leb_spec (dstIdx + 1) (Z.of_nat j));
             destruct (Z.leb_spec dstIdx (Z.of_nat j)); try lia; cbn [andb];
             try reflexivity.
           destruct (Z.ltb_spec (Z.of_nat j) (dstIdx + 1 + Z.of_nat count));
             destruct (Z.ltb_spec (Z.of_nat j) (dstIdx + Z.of_nat (S count)));
             try lia; cbn [andb]; try reflexivity.
           do 3 f_equal. lia.
      * rewrite !andb_false_r.
        rewrite !(lookup_ge_None_2 _ j) by (rewrite ?length_insert; lia).
        reflexivity.
Qed.

Lemma subarray_take {A} (l : list A) k :
  0 <= k -> JS.subarray 0 k l = take (Z.to_nat k) l.
Proof.
  intros Hk. unfold JS.subarray, JS.clamp.
  change (0 <? 0)%Z with false. cbv iota.
  destruct (Z.ltb_spec k 0); [lia|].
  change (Z.to_nat (Z.min 0 (Z.of_nat (length l)))) with (Z.to_nat (Z.min 0 (Z.of_nat (length l)))).
  replace (Z.to_nat (Z.min 0 (Z.of_nat (length l)))) with 0%nat by lia.
  rewrite drop_0, Nat.sub_0_r.
  destruct (Z.le_ge_cases k (Z.of_nat (length l))).
  - f_equal. lia.
  - rewrite !take_ge by lia. reflexivity.
Qed.

Lemma subarray_from_drop {A} (l : list A) k :
  0 <= k -> JS.subarray_from k l = drop (Z.to_nat k) l.
Proof.
  intros Hk. unfold JS.subarray_from, JS.clamp.
  destruct (Z.ltb_spec k 0); [lia|].
  destruct (Z.le_ge_cases k (Z.of_nat (length l))).
  - f_equal. lia.
  - rewrite !drop_ge by lia. reflexivity.
Qed.

(** The data array after a block that fits: the block lies from the place
    of the write index on, around the end of the array, and every other
    place is as before. *)
Lemma write_circular input rb :
  audio rb ->
  Z.of_nat (length input) <= availableWrite rb * channelCount rb ->
  exists buf,
    write input rb
    = (Returned (framesOf input rb),
       {| channelCount := channelCount rb; capacity := capacity rb;
          writeIndex := JS.toInt32 (writeIndex rb
                                    + Z.of_nat (length input) / channelCount rb);
          readIndex := readIndex rb; buffer := buf |}) /\
    length buf = length (buffer rb) /\
    forall j : nat, (j < length buf)%nat ->
      let d := (Z.of_nat j - writeIndex rb mod capacity rb * channelCount rb)
               mod Z.of_nat (length (buffer rb)) in
      buf !! j = if d <? Z.of_nat (length input) then input !! Z.to_nat d
                 else buffer rb !! j.
Proof.
  intros [Hcap Hcc Hlen Hr Hord Hi32 Hfits] Hroom.
  unfold write. rewrite frames_le by exact Hcc.
  destruct (Z.leb_spec (Z.of_nat (length input)) (availableWrite rb * channelCount rb));
    [|lia].
  simpl negb. cbv iota.
  rewrite trunc_frames by lia.
  rewrite rem_nonneg by lia.
  pose proof (Z.mod_pos_bound (writeIndex rb) (capacity rb) Hcap) as Hmod.
  unfold availableWrite in *.
  set (k := writeIndex rb mod capacity rb) in *.
  set (len := Z.of_nat (length (buffer rb))) in *.
  set (off := k * channelCount rb) in *.
  assert (Hoff : 0 <= off < len) by (subst off; nia).
  assert (Hin : Z.of_nat (length input) <= len) by nia.
  destruct (Z.leb_spec (off + Z.of_nat (length input)) len) as [Hcont|Hsplit].
  - destruct (set_Some input (buffer rb) off) as (b & Hset & Hb); [lia | lia |].
    rewrite Hset. exists b. split; [reflexivity|]. split; [exact Hb|].
    intros j Hj. cbv zeta. rewrite (set_lookup _ _ _ _ j Hset).
    destruct (Z.leb_spec off (Z.of_nat j)) as [Hge|Hlt]; cbn [andb].
    + rewrite Z.mod_small by lia. zcases; reflexivity.
    + rewrite mod_below by lia. zcases; reflexivity.
  - set (first := len - off) in *.
    destruct (set_Some (JS.subarray 0 first input) (buffer rb) off)
      as (b1 & Hset1 & Hb1); [lia | rewrite length_subarray; lia |].
    rewrite Hset1.
    destruct (set_Some (JS.subarray_from first input) b1 0)
      as (b2 & Hset2 & Hb2); [lia | rewrite length_subarray_from; lia |].
    rewrite Hset2.
    exists b2. split; [reflexivity|]. split; [congruence|].
    intros j Hj. cbv zeta.
    rewrite (set_lookup _ _ _ _ j Hset2), (set_lookup _ _ _ _ j Hset1).
    rewrite length_subarray_from, length_subarray by lia.
    rewrite subarray_from_drop, subarray_take by lia.
    destruct (Z.leb_spec 0 (Z.of_nat j)); [|lia]. cbn [andb].
    destruct (Z.leb_spec off (Z.of_nat j)) as [Hge|Hlt]; cbn [andb].
    + rewrite Z.mod_small by lia. zcases. apply lookup_take_lt. lia.
    + rewrite mod_below by lia. zcases; [|reflexivity].
      rewrite lookup_drop. f_equal. lia.
Qed.

Lemma stereo_offset k cap : 0 < cap -> k mod cap * 2 = (2 * k) mod (2 * cap).
Proof. intros Hcap. rewrite Z.mul_mod_distr_l by lia. lia. Qed.

(** An accepted block of whole frames joins the stream at its end. *)
Lemma write_stereo input rb pending :
  stereo rb pending ->
  Z.even (Z.of_nat (length input)) = true ->
  Z.of_nat (length input) <= 2 * availableWrite rb ->
  writeIndex rb + Z.of_nat (length input) / 2 < 2 ^ 31 ->
  exists rb',
    write input rb = (Returned (framesOf input rb), rb') /\
    stereo rb' (pending ++ input) /\
    writeIndex rb' = writeIndex rb + Z.of_nat (length input) / 2 /\
    readIndex rb' = readIndex rb /\ capacity rb' = capacity rb.
Proof.
  intros [Haudio Hcc Hpend Hholds] Heven Hroom Hi32.
  destruct (write_circular input rb Haudio) as (buf & Hw & Hlenb & Hbuf);
    [rewrite Hcc; lia|].
  destruct Haudio as [Hcap _ Hlen Hr Hord _ Hfits].
  apply Z.even_spec in Heven. destruct Heven as [m Hm].
  rewrite Hcc in *. rewrite Hm in *.
  replace (2 * m / 2) with m in * by (rewrite Z.mul_comm, Z.div_mul; lia).
  unfold availableWrite in Hroom.
  rewrite toInt32_id in Hw by lia.
  eexists. split; [exact Hw|].
  split; [|repeat split; reflexivity].
  split; cbn [channelCount capacity writeIndex readIndex buffer].
  - split; cbn [channelCount capacity writeIndex readIndex buffer]; lia.
  - reflexivity.
  - rewrite length_app. lia.
  - intros i s Hi.
    set (len := 2 * capacity rb) in *.
    assert (Hlen' : Z.of_nat (length (buffer rb)) = len) by lia.
    pose proof (Z.mod_pos_bound (2 * readIndex rb + Z.of_nat i) len ltac:(lia)) as Hpos.
    rewrite Hbuf by lia.
    rewrite Hlen', stereo_offset by lia. fold len.
    rewrite Z2Nat.id by lia.
    rewrite Zminus_mod_idemp_l, Zminus_mod_idemp_r.
    destruct (Nat.lt_ge_cases i (length pending)) as [Hold|Hnew].
    + rewrite lookup_app_l in Hi by lia.
      rewrite mod_below by lia.
      destruct (Z.ltb_spec (2 * readIndex rb + Z.of_nat i - 2 * writeIndex rb + len)
                  (2 * m)); [lia|].
      apply Hholds. exact Hi.
    + rewrite lookup_app_r in Hi by lia.
      pose proof (lookup_lt_Some _ _ _ Hi) as Hlt.
      rewrite Z.mod_small by lia.
      destruct (Z.ltb_spec (2 * readIndex rb + Z.of_nat i - 2 * writeIndex rb)
                  (2 * m)); [|lia].
      rewrite <- Hi. f_equal. lia.
Qed.

(** What a read that succeeds leaves in the output channels, place by
    place: the first [n] places take the samples that lie from the place of
    the read index on, around the end of the data array. *)
Lemma read_circular leftOut rightOut (n : nat) rb :
  audio rb -> channelCount rb = 2 ->
  Z.of_nat n <= availableRead rb ->
  exists l r,
    read nan leftOut rightOut (Z.of_nat n) rb
    = (true, (l, r),
       {| channelCount := channelCount rb; capacity := capacity rb;
          writeIndex := writeIndex rb;
          readIndex := JS.toInt32 (readIndex rb + Z.of_nat n);
          buffer := buffer rb |}) /\
    length l = length leftOut /\ length r = length rightOut /\
    (forall j : nat,
        l !! j
        = if (Z.of_nat j <? Z.of_nat n) && (Z.of_nat j <? Z.of_nat (length leftOut))
          then Some (default nan
                       (buffer rb !! Z.to_nat ((2 * readIndex rb + 2 * Z.of_nat j)
                                               mod (2 * capacity rb))))
          else leftOut !! j) /\
    (forall j : nat,
        r !! j
        = if (Z.of_nat j <? Z.of_nat n) && (Z.of_nat j <? Z.of_nat (length rightOut))
          then Some (default nan
                       (buffer rb !! Z.to_nat ((2 * readIndex rb + 2 * Z.of_nat j + 1)
                                               mod (2 * capacity rb))))
          else rightOut !! j).
Proof.
  intros [Hcap _ Hlen Hr Hord Hi32 Hfits] Hcc Havail.
  unfold read. unfold availableRead in *.
  destruct (Z.ltb_spec (writeIndex rb - readIndex rb) (Z.of_nat n)); [lia|].
  rewrite rem_nonneg by lia. rewrite Hcc in *.
  rewrite stereo_offset by lia.
  set (len := 2 * capacity rb) in *.
  assert (Hlen' : Z.of_nat (length (buffer rb)) = len) by lia.
  rewrite Hlen'.
  pose proof (Z.mod_pos_bound (2 * readIndex rb) len ltac:(lia)) as Hoff.
  assert (Hoffeven : (2 * readIndex rb) mod len = 2 * (readIndex rb mod capacity rb))
    by (subst len; rewrite Z.mul_mod_distr_l by lia; reflexivity).
  pose proof (Z.mod_pos_bound (readIndex rb) (capacity rb) Hcap) as Hk.
  set (off := (2 * readIndex rb) mod len) in *.
  assert (Hpos : forall x, 0 <= x -> off + x < 2 * len ->
            (2 * readIndex rb + x) mod len
            = if off + x <? len then off + x else off + x - len).
  { intros x Hx Hlt. rewrite <- Zplus_mod_idemp_l. fold off.
    destruct (Z.ltb_spec (off + x) len).
    - apply Z.mod_small. lia.
    - symmetry. apply (Z.mod_unique_pos _ len 1); lia. }
  destruct (Z.leb_spec (off + Z.of_nat n * 2) len) as [Hcont|Hsplit].
  - destruct (deinterleave nan (buffer rb) off 0 (Z.to_nat (Z.of_nat n))
                leftOut rightOut) as [l r] eqn:Hd.
    apply deinterleave_lookup in Hd; [|lia|lia].
    destruct Hd as (Hl & Hrr & Hleft & Hright).
    exists l, r. split; [reflexivity|]. split; [exact Hl|]. split; [exact Hrr|].
    rewrite Nat2Z.id in *.
    split; intros j.
    + rewrite Hleft.
      destruct (Z.leb_spec 0 (Z.of_nat j)); [|lia].
      rewrite Z.add_0_l. cbn [andb].
      destruct (Z.ltb_spec (Z.of_nat j) (Z.of_nat n)); cbn [andb]; [|reflexivity].
      destruct (Z.ltb_spec (Z.of_nat j) (Z.of_nat (length leftOut))); [|reflexivity].
      rewrite Hpos by lia.
      destruct (Z.ltb_spec (off + 2 * Z.of_nat j) len); [|lia].
      do 4 f_equal. lia.
    + rewrite Hright.
      destruct (Z.leb_spec 0 (Z.of_nat j)); [|lia].
      rewrite Z.add_0_l. cbn [andb].
      destruct (Z.ltb_spec (Z.of_nat j) (Z.of_nat n)); cbn [andb]; [|reflexivity].
      destruct (Z.ltb_spec (Z.of_nat j) (Z.of_nat (length rightOut))); [|reflexivity].
      replace (2 * readIndex rb + 2 * Z.of_nat j + 1)
        with (2 * readIndex rb + (2 * Z.of_nat j + 1)) by lia.
      rewrite Hpos by lia.
      destruct (Z.ltb_spec (off + (2 * Z.of_nat j + 1)) len); [|lia].
      do 4 f_equal. lia.
  - assert (Hfirst : (len - off) / 2 = capacity rb - readIndex rb mod capacity rb).
    { rewrite Hoffeven. subst len.
      replace (2 * capacity rb - 2 * (readIndex rb mod capacity rb))
        with ((capacity rb - readIndex rb mod capacity rb) * 2) by lia.
      apply Z.div_mul. lia. }
    rewrite Hfirst.
    set (f1 := capacity rb - readIndex rb mod capacity rb) in *.
    destruct (deinterleave nan (buffer rb) off 0 (Z.to_nat f1) leftOut rightOut)
      as [l1 r1] eqn:Hd1.
    destruct (deinterleave nan (buffer rb) 0 f1 (Z.to_nat (Z.of_nat n - f1)) l1 r1)
      as [l r] eqn:Hd2.
    apply deinterleave_lookup in Hd1; [|lia|lia].
    apply deinterleave_lookup in Hd2; [|lia|lia].
    destruct Hd1 as (Hl1 & Hr1 & Hleft1 & Hright1).
    destruct Hd2 as (Hl2 & Hr2 & Hleft2 & Hright2).
    exists l, r. split; [reflexivity|].
    split; [congruence|]. split; [congruence|].
    rewrite !Z2Nat.id in * by lia.
    split; intros j.
    + rewrite Hleft2, Hleft1, Hl1.
      destruct (Z.ltb_spec (Z.of_nat j) (Z.of_nat (length leftOut)));
        [|rewrite !andb_false_r; reflexivity].
      rewrite !andb_true_r.
      destruct (Z.leb_spec 0 (Z.of_nat j)); [|lia]. cbn [andb].
      destruct (Z.ltb_spec (Z.of_nat j) (Z.of_nat n)).
      * rewrite Hpos by lia.
        destruct (Z.leb_spec f1 (Z.of_nat j)); cbn [andb].
        -- destruct (Z.ltb_spec (Z.of_nat j) (f1 + (Z.of_nat n - f1))); [|lia].
           destruct (Z.ltb_spec (off + 2 * Z.of_nat j) len); [lia|].
           do 4 f_equal. lia.
        -- destruct (Z.ltb_spec (Z.of_nat j) (0 + f1)); [|lia].
           destruct (Z.ltb_spec (off + 2 * Z.of_nat j) len); [|lia].
           do 4 f_equal. lia.
      * destruct (Z.leb_spec f1 (Z.of_nat j)); cbn [andb].
        -- destruct (Z.ltb_spec (Z.of_nat j) (f1 + (Z.of_nat n - f1))); [lia|].
           destruct (Z.ltb_spec (Z.of_nat j) (0 + f1)); [lia|]. reflexivity.
        -- lia.
    + rewrite Hright2, Hright1, Hr1.
      destruct (Z.ltb_spec (Z.of_nat j) (Z.of_nat (length rightOut)));
        [|rewrite !andb_false_r; reflexivity].
      rewrite !andb_true_r.
      destruct (Z.leb_spec 0 (Z.of_nat j)); [|lia]. cbn [andb].
      replace (2 * readIndex rb + 2 * Z.of_nat j + 1)
        with (2 * readIndex rb + (2 * Z.of_nat j + 1)) by lia.
      destruct (Z.ltb_spec (Z.of_nat j) (Z.of_nat n)).
      * rewrite Hpos by lia.
        destruct (Z.leb_spec f1 (Z.of_nat j)); cbn [andb].
        -- destruct (Z.ltb_spec (Z.of_nat j) (f1 + (Z.of_nat n - f1))); [|lia].
           destruct (Z.ltb_spec (off + (2 * Z.of_nat j + 1)) len); [lia|].
           do 4 f_equal. lia.
        -- destruct (Z.ltb_spec (Z.of_nat j) (0 + f1)); [|lia].
           destruct (Z.ltb_spec (off + (2 * Z.of_nat j + 1)) len); [|lia].
           do 4 f_equal. lia.
      * destruct (Z.leb_spec f1 (Z.of_nat j)); cbn [andb].
        -- destruct (Z.ltb_spec (Z.of_nat j) (f1 + (Z.of_nat n - f1))); [lia|].
           destruct (Z.ltb_spec (Z.of_nat j) (0 + f1)); [lia|]. reflexivity.
        -- lia.
Qed.

(** A read that succeeds hands out the oldest frames of the stream, one
    channel each, and leaves the rest of the output channels alone. *)
Lemma read_stereo leftOut rightOut (n : nat) rb pending :
  stereo rb pending ->
  Z.of_nat n <= availableRead rb ->
  (n <= length leftOut)%nat -> (n <= length rightOut)%nat ->
  exists rb',
    read nan leftOut rightOut (Z.of_nat n) rb
    = (true, (lefts (take (2 * n) pending) ++ drop n leftOut,
              rights (take (2 * n) pending) ++ drop n rightOut), rb') /\
    stereo rb' (drop (2 * n) pending) /\
    readIndex rb' = readIndex rb + Z.of_nat n /\
    writeIndex rb' = writeIndex rb /\ capacity rb' = capacity rb.
Proof.
  intros [Haudio Hcc Hpend Hholds] Havail HnL HnR.
  destruct (read_circular leftOut rightOut n rb Haudio Hcc Havail)
    as (l & r & Hread & Hl & Hr & Hleft & Hright).
  destruct Haudio as [Hcap Hchan Hlen Hr0 Hord Hi32 Hfits].
  unfold availableRead in Havail.
  rewrite toInt32_id in Hread by lia.
  assert (Htake : length (take (2 * n) pending) = (2 * n)%nat)
    by (rewrite length_take; lia).
  assert (Hsample : forall i : nat, (i < 2 * n)%nat ->
            exists s, pending !! i = Some s /\
              buffer rb !! Z.to_nat ((2 * readIndex rb + Z.of_nat i)
                                     mod (2 * capacity rb)) = Some s).
  { intros i Hi. destruct (lookup_lt_is_Some_2 pending i ltac:(lia)) as [s Hs].
    exists s. split; [exact Hs|]. apply Hholds. exact Hs. }
  assert (Hl' : l = lefts (take (2 * n) pending) ++ drop n leftOut).
  { apply list_eq. intros j. rewrite Hleft.
    destruct (Z.ltb_spec (Z.of_nat j) (Z.of_nat n)) as [Hj|Hj]; cbn [andb].
    - destruct (Z.ltb_spec (Z.of_nat j) (Z.of_nat (length leftOut))); [|lia].
      rewrite lookup_app_l
        by (unfold lefts; rewrite length_fmap, (length_frames n) by exact Htake; lia).
      rewrite lefts_lookup by lia. rewrite lookup_take_lt by lia.
      destruct (Hsample (2 * j)%nat ltac:(lia)) as (s & Hs & Hb).
      rewrite Hs. replace (2 * Z.of_nat j) with (Z.of_nat (2 * j)) by lia.
      rewrite Hb. reflexivity.
    - rewrite lookup_app_r
        by (unfold lefts; rewrite length_fmap, (length_frames n) by exact Htake; lia).
      unfold lefts. rewrite length_fmap, (length_frames n) by exact Htake.
      rewrite lookup_drop. f_equal. lia. }
  assert (Hr' : r = rights (take (2 * n) pending) ++ drop n rightOut).
  { apply list_eq. intros j. rewrite Hright.
    destruct (Z.ltb_spec (Z.of_nat j) (Z.of_nat n)) as [Hj|Hj]; cbn [andb].
    - destruct (Z.ltb_spec (Z.of_nat j) (Z.of_nat (length rightOut))); [|lia].
      rewrite lookup_app_l
        by (unfold rights; rewrite length_fmap, (length_frames n) by exact Htake; lia).
      rewrite rights_lookup by lia. rewrite lookup_take_lt by lia.
      destruct (Hsample (2 * j + 1)%nat ltac:(lia)) as (s & Hs & Hb).
      rewrite Hs.
      replace (2 * readIndex rb + 2 * Z.of_nat j + 1)
        with (2 * readIndex rb + Z.of_nat (2 * j + 1)) by lia.
      rewrite Hb. reflexivity.
    - rewrite lookup_app_r
        by (unfold rights; rewrite length_fmap, (length_frames n) by exact Htake; lia).
      unfold rights. rewrite length_fmap, (length_frames n) by exact Htake.
      rewrite lookup_drop. f_equal. lia. }
  subst l r. eexists. split; [exact Hread|].
  split; [|repeat split; reflexivity].
  split; cbn [channelCount capacity writeIndex readIndex buffer].
  - split; cbn [channelCount capacity writeIndex readIndex buffer]; lia.
  - exact Hcc.
  - rewrite length_drop. lia.
  - intros i s Hi. rewrite lookup_drop in Hi. apply Hholds in Hi.
    rewrite <- Hi. do 3 f_equal. lia.
Qed.

(** An empty two-channel buffer holds the empty stream. *)
Lemma stereo_empty rb :
  audio rb -> channelCount rb = 2 -> readIndex rb = writeIndex rb -> stereo rb [].
Proof.
  intros Haudio Hcc Heq. split; [exact Haudio|exact Hcc| |].
  - cbn [length]. lia.
  - intros i s Hi. discriminate.
Qed.

Lemma frames_whole input rb (n : nat) :
  channelCount rb = 2 -> length input = (2 * n)%nat ->
  (framesOf input rb == inject_Z (Z.of_nat n))%Q.
Proof.
  intros Hcc Hlen. unfold framesOf. rewrite Hcc, Hlen.
  unfold Qeq, Qdiv, Qmult, Qinv, inject_Z. cbn. lia.
Qed.

Lemma frames_none input rb :
  channelCount rb = 2 -> Qeq_bool (framesOf input rb) 0 = true -> input = [].
Proof.
  intros Hcc H. apply Qeq_bool_iff in H. unfold framesOf in H. rewrite Hcc in H.
  unfold Qeq, Qdiv, Qmult, Qinv, inject_Z in H. cbn in H.
  destruct input; [reflexivity|]. cbn [length] in H. lia.
Qed.

(** The streams of a sequence of calls: what the reads handed out, followed
    by what the buffer still holds, is what the writes handed in. *)
Lemma play_stereo ops : forall rb pending written outL outR rb',
  Forall whole ops -> stereo rb pending ->
  play nan ops rb = (written, (outL, outR), rb') ->
  2 * writeIndex rb + Z.of_nat (length written) < 2 ^ 32 ->
  exists pending',
    stereo rb' pending' /\
    lefts (pending ++ written) = outL ++ lefts pending' /\
    rights (pending ++ written) = outR ++ rights pending'.
Proof.
  induction ops as [|o ops IH]; intros rb pending written outL outR rb' Hops Hst Hplay Hi32.
  - cbn [play] in Hplay. injection Hplay as <- <- <- <-.
    exists pending. rewrite app_nil_r. auto.
  - apply Forall_cons in Hops. destruct Hops as [Ho Hops].
    pose proof Hst as [Haudio Hcc Hpend Hholds].
    destruct o as [input|leftOut rightOut n]; cbn [play] in Hplay.
    + cbn [whole] in Ho.
      destruct (Z.le_gt_cases (Z.of_nat (length input)) (2 * availableWrite rb))
        as [Hroom|Hfull].
      * destruct (block_accept input rb Haudio ltac:(rewrite Hcc; lia)) as (buf & Hw0 & _).
        rewrite Hw0 in Hplay.
        match type of Hplay with
        | context [play nan ops ?r] =>
            destruct (play nan ops r) as [[wr [oL oR]] rbx] eqn:Hrest
        end.
        assert (Htaken : (if Qeq_bool (framesOf input rb) 0 then [] else input) = input).
        { destruct (Qeq_bool (framesOf input rb) 0) eqn:Hf; [|reflexivity].
          apply (frames_none _ _ Hcc) in Hf. subst input. reflexivity. }
        rewrite Htaken in Hplay. injection Hplay as <- <- <- <-.
        rewrite length_app in Hi32.
        pose proof Ho as Heven. apply Z.even_spec in Heven. destruct Heven as [m Hm].
        assert (Hhalf : Z.of_nat (length input) / 2 = m)
          by (rewrite Hm, Z.mul_comm; apply Z.div_mul; lia).
        destruct (write_stereo input rb pending Hst Ho Hroom)
          as (rb1 & Hw & Hst1 & Hw1 & _); [lia|].
        rewrite Hw0 in Hw. injection Hw as Hrb1. rewrite Hrb1 in Hrest.
        destruct (IH rb1 (pending ++ input) wr oL oR rbx Hops Hst1 Hrest)
          as (pending' & Hst' & HL & HR); [lia|].
        exists pending'. rewrite app_assoc. auto.
      * rewrite block_reject_frames in Hplay by (rewrite Hcc; lia).
        destruct (play nan ops rb) as [[wr [oL oR]] rbx] eqn:Hrest.
        change (Qeq_bool 0 0) with true in Hplay. cbn [app] in Hplay.
        injection Hplay as <- <- <- <-.
        apply (IH rb pending wr oL oR rbx Hops Hst Hrest Hi32).
    + cbn [whole] in Ho. destruct Ho as [HnL HnR].
      destruct (Z.le_gt_cases (Z.of_nat n) (availableRead rb)) as [Havail|Hshort].
      * destruct (read_stereo leftOut rightOut n rb pending Hst Havail HnL HnR)
          as (rb1 & Hread & Hst1 & Hr1 & Hw1 & _).
        rewrite Hread in Hplay.
        destruct (play nan ops rb1) as [[wr [oL oR]] rbx] eqn:Hrest.
        injection Hplay as <- <- <- <-.
        destruct (IH rb1 (drop (2 * n) pending) wr oL oR rbx Hops Hst1 Hrest)
          as (pending' & Hst' & HL & HR); [rewrite Hw1; exact Hi32|].
        exists pending'. split; [exact Hst'|].
        unfold availableRead in Havail.
        assert (Htake : length (take (2 * n) pending) = (2 * n)%nat)
          by (rewrite length_take; lia).
        assert (Hlefts : length (lefts (take (2 * n) pending)) = n)
          by (unfold lefts; rewrite length_fmap; apply length_frames; exact Htake).
        assert (Hrights : length (rights (take (2 * n) pending)) = n)
          by (unfold rights; rewrite length_fmap; apply length_frames; exact Htake).
        rewrite !take_app_length' by (symmetry; assumption).
        rewrite <- (take_drop (2 * n) pending) at 1 3.
        rewrite <- !app_assoc.
        unfold lefts, rights in *.
        rewrite !(frames_app n) by exact Htake.
        rewrite !fmap_app, HL, HR. auto.
      * rewrite read_reject in Hplay by lia.
        destruct (play nan ops rb) as [[wr [oL oR]] rbx] eqn:Hrest.
        injection Hplay as <- <- <- <-.
        apply (IH rb pending wr oL oR rbx Hops Hst Hrest Hi32).
Qed.

End Samples.

End StereoFacts.

(** ** The audio stream: what goes in comes out *)

Module AudioStream.

Import AudioRingBuffer Rep Stereo JSFacts AudioRingBufferFacts StereoFacts.

(** X1. Round trip of one block through a two-channel AudioStreamBuffer.
    Into an empty buffer, at whatever place its indices stand (so also
    when the block has to be split around the end of the data array),
    [write] takes a block of [n] whole frames that fit and returns [n];
    the [read] of [n] frames that follows returns [true], puts the samples
    [input[0], input[2], ...] into the first [n] places of the left
    channel and [input[1], input[3], ...] into those of the right channel,
    leaves the rest of the two channels as it was, and leaves the buffer
    empty. *)
Theorem block_round_trip {sample : Type} (nan : sample)
    (input leftOut rightOut : list sample) (n : nat) (rb : AudioRingBuffer.t sample) :
  audio rb -> channelCount rb = 2 -> readIndex rb = writeIndex rb ->
  length input = (2 * n)%nat -> Z.of_nat n <= capacity rb ->
  writeIndex rb + Z.of_nat n < 2 ^ 31 ->
  (n <= length leftOut)%nat -> (n <= length rightOut)%nat ->
  exists f rb1 rb2,
    write input rb = (Returned f, rb1) /\ (f == inject_Z (Z.of_nat n))%Q /\
    read nan leftOut rightOut (Z.of_nat n) rb1
    = (true, (lefts input ++ drop n leftOut, rights input ++ drop n rightOut), rb2) /\
    readIndex rb2 = writeIndex rb2 /\ writeIndex rb2 = writeIndex rb + Z.of_nat n.
Proof.
  intros Haudio Hcc Hempty Hlen Hfit Hi32 HnL HnR.
  pose proof (stereo_empty rb Haudio Hcc Hempty) as Hst.
  assert (Hhalf : Z.of_nat (length input) / 2 = Z.of_nat n).
  { rewrite Hlen. replace (Z.of_nat (2 * n)) with (Z.of_nat n * 2) by lia.
    apply Z.div_mul. lia. }
  destruct (write_stereo input rb [] Hst) as (rb1 & Hw & Hst1 & Hw1 & Hr1 & _).
  - rewrite Hlen. replace (Z.of_nat (2 * n)) with (2 * Z.of_nat n) by lia.
    apply Z.even_mul.
  - unfold availableWrite. lia.
  - lia.
  - cbn [app] in Hst1.
    destruct (read_stereo nan leftOut rightOut n rb1 input Hst1)
      as (rb2 & Hread & _ & Hr2 & Hw2 & _); [unfold availableRead; lia|lia|lia|].
    exists (framesOf input rb), rb1, rb2.
    split; [exact Hw|]. split; [apply frames_whole; assumption|].
    rewrite take_ge in Hread by lia.
    split; [exact Hread|]. lia.
Qed.

(** A buffer of 4 frames whose indices stand at 3: a block of 3 frames is
    split around the end of the data array. *)
Lemma block_round_trip_witness :
  let frame n := [Scenario.Level n; Scenario.Level (- n)] in
  let out := replicate 4 Scenario.silence in
  let rb := snd (run Scenario.NotANumber
                   [Write (frame 1 ++ frame 2 ++ frame 3); Read out out 3]
                   (create Scenario.silence 2 4)) in
  exists f rb1 rb2,
    write (frame 4 ++ frame 5 ++ frame 6) rb = (Returned f, rb1) /\
    (f == 3)%Q /\
    read Scenario.NotANumber out out 3 rb1
    = (true,
       ([Scenario.Level 4; Scenario.Level 5; Scenario.Level 6; Scenario.silence],
        [Scenario.Level (-4); Scenario.Level (-5); Scenario.Level (-6);
         Scenario.silence]), rb2) /\
    readIndex rb2 = writeIndex rb2 /\ writeIndex rb2 = 6.
Proof.
  intros frame out rb.
  apply (block_round_trip Scenario.NotANumber (frame 4 ++ frame 5 ++ frame 6)
           out out 3 rb).
  - split; vm_compute; try reflexivity; discriminate.
  - reflexivity.
  - reflexivity.
  - reflexivity.
  - vm_compute. discriminate.
  - vm_compute. reflexivity.
  - vm_compute. lia.
  - vm_compute. lia.
Defined.

(** X2. The AudioStreamBuffer is a first-in first-out stream of frames.
    Take any sequence of whole calls of the producer and of the consumer on
    a new two-channel buffer, the writes handing in whole frames and the
    reads handing in channels with room for the frames they ask, with
    fewer than [2 ^ 31] frames accepted in all. Then the samples that the
    successful reads handed out on the left channel, followed by the left
    samples of the frames still in the buffer, are the left samples of the
    accepted blocks, in order, and so for the right channel; and a last
    read of [availableRead()] frames hands out the frames still in the
    buffer and leaves it empty. *)
Theorem stream_fifo {sample : Type} (nan zero : sample) (frameCapacity : Z)
    (ops : list (AudioRingBuffer.op sample)) (written outL outR : list sample)
    (rb : AudioRingBuffer.t sample) :
  0 <= frameCapacity ->
  Forall whole ops ->
  play nan ops (create zero 2 frameCapacity) = (written, (outL, outR), rb) ->
  Z.of_nat (length written) < 2 ^ 32 ->
  exists pending,
    lefts written = outL ++ lefts pending /\
    rights written = outR ++ rights pending /\
    Z.of_nat (length pending) = 2 * availableRead rb /\
    forall leftOut rightOut,
      Z.of_nat (length leftOut) = availableRead rb ->
      Z.of_nat (length rightOut) = availableRead rb ->
      exists rb',
        read nan leftOut rightOut (availableRead rb) rb
        = (true, (lefts pending, rights pending), rb') /\
        availableRead rb' = 0.
Proof.
  intros Hcap Hops Hplay Hi32.
  assert (Hst : stereo (create zero 2 frameCapacity) []).
  { apply stereo_empty; [apply audio_create; lia|reflexivity|reflexivity]. }
  destruct (play_stereo nan ops _ [] written outL outR rb Hops Hst Hplay)
    as (pending & Hst' & HL & HR); [cbn; lia|].
  cbn [app] in HL, HR.
  exists pending. split; [exact HL|]. split; [exact HR|].
  pose proof Hst' as [Haudio Hcc Hpend Hholds].
  split; [exact Hpend|].
  intros leftOut rightOut HlenL HlenR.
  destruct Haudio as [_ _ _ _ Hord _ _].
  unfold availableRead in *.
  set (n := Z.to_nat (writeIndex rb - readIndex rb)).
  assert (Hn : writeIndex rb - readIndex rb = Z.of_nat n) by lia.
  rewrite Hn.
  destruct (read_stereo nan leftOut rightOut n rb pending Hst')
    as (rb' & Hread & _ & Hr' & Hw' & _); [unfold availableRead; lia|lia|lia|].
  exists rb'. rewrite take_ge, !drop_ge, !app_nil_r in Hread by lia.
  split; [exact Hread|lia].
Qed.

(** Two blocks in, three reads on a buffer of 4 frames: the second read
    asks for more than there is, the third comes after a write that is
    split around the end of the data array. *)
Lemma stream_fifo_witness :
  let frame n := [Scenario.Level n; Scenario.Level (- n)] in
  let out := replicate 2 Scenario.silence in
  exists pending,
    lefts (frame 1 ++ frame 2 ++ frame 3 ++ frame 4 ++ frame 5 ++ frame 6)
    = [Scenario.Level 1; Scenario.Level 2; Scenario.Level 3; Scenario.Level 4]
      ++ lefts pending /\
    rights (frame 1 ++ frame 2 ++ frame 3 ++ frame 4 ++ frame 5 ++ frame 6)
    = [Scenario.Level (-1); Scenario.Level (-2); Scenario.Level (-3);
       Scenario.Level (-4)] ++ rights pending.
Proof.
  intros frame out.
  destruct (stream_fifo Scenario.NotANumber Scenario.silence 4
              [Write (frame 1 ++ frame 2 ++ frame 3); Read out out 2;
               Read out out 2; Write (frame 4 ++ frame 5 ++ frame 6);
               Read out out 2]
              (frame 1 ++ frame 2 ++ frame 3 ++ frame 4 ++ frame 5 ++ frame 6)
              [Scenario.Level 1; Scenario.Level 2; Scenario.Level 3; Scenario.Level 4]
              [Scenario.Level (-1); Scenario.Level (-2); Scenario.Level (-3);
               Scenario.Level (-4)]
              (snd (play Scenario.NotANumber
                      [Write (frame 1 ++ frame 2 ++ frame 3); Read out out 2;
                       Read out out 2; Write (frame 4 ++ frame 5 ++ frame 6);
                       Read out out 2]
                      (create Scenario.silence 2 4))))
    as (pending & HL & HR & _).
  - lia.
  - repeat constructor.
  - vm_compute. reflexivity.
  - vm_compute. reflexivity.
  - exists pending. split; assumption.
Defined.

End AudioStream.

(** ** From the engine to the output channels *)

Module AudioPath.

Import AudioRingBuffer Rep Stereo JSFacts AudioRingBufferFacts StereoFacts.

Section Samples.

Context {sample : Type} (nan : sample).
Context (rendered : Engine.handle -> Z -> list sample * list sample).

Implicit Types leftView rightView temp : list sample.

(** The block the loop hands to [write]: its left samples are [leftView],
    its right samples [rightView]. *)
Lemma interleave_channels (n : nat) leftView rightView temp :
  length leftView = n -> length rightView = n -> length temp = (2 * n)%nat ->
  let block := Worker.interleave nan n 0 leftView rightView temp in
  length block = (2 * n)%nat /\ lefts block = leftView /\ rights block = rightView.
Proof.
  intros HL HR Htemp block.
  assert (Hlen : length block = (2 * n)%nat)
    by (subst block; rewrite SynthesisWorker.length_interleave; exact Htemp).
  split; [exact Hlen|].
  assert (Hat : forall j : nat, (j < 2 * n)%nat ->
            block !! j = Some (default nan
                                 ((if Z.even (Z.of_nat j) then leftView else rightView)
                                    !! Z.to_nat (Z.of_nat j / 2)))).
  { intros j Hj. subst block. rewrite SynthesisWorker.interleave_lookup by lia.
    zcases. reflexivity. }
  split; apply list_eq; intros k.
  - destruct (Nat.lt_ge_cases k n) as [Hk|Hk].
    + rewrite lefts_lookup by lia. rewrite Hat by lia.
      replace (Z.of_nat (2 * k)) with (Z.of_nat k * 2) by lia.
      rewrite even_double, Z.div_mul, Nat2Z.id by lia.
      destruct (lookup_lt_is_Some_2 leftView k ltac:(lia)) as [v ->]. reflexivity.
    + rewrite !lookup_ge_None_2; [reflexivity|lia|].
      unfold lefts. rewrite length_fmap, (length_frames n) by exact Hlen. lia.
  - destruct (Nat.lt_ge_cases k n) as [Hk|Hk].
    + rewrite rights_lookup by lia. rewrite Hat by lia.
      replace (Z.of_nat (2 * k + 1)) with (Z.of_nat k * 2 + 1) by lia.
      rewrite even_double_1, half_double_1, Nat2Z.id.
      destruct (lookup_lt_is_Some_2 rightView k ltac:(lia)) as [v ->]. reflexivity.
    + rewrite !lookup_ge_None_2; [reflexivity|lia|].
      unfold rights. rewrite length_fmap, (length_frames n) by exact Hlen. lia.
Qed.

Lemma attach_stereo (rb : AudioRingBuffer.t sample) :
  audio rb -> channelCount rb = 2 -> attach 2 rb = rb.
Proof.
  intros [Hcap _ Hlen _ _ _ _] Hcc. unfold attach. cbn [Z.eqb].
  destruct rb as [cc cap w r buf]. cbn [channelCount capacity buffer] in *.
  subst cc. f_equal. rewrite Hlen.
  rewrite Z.div_mul by lia. apply Z.div_mul. lia.
Qed.

(** X3. From the engine to the output callback. A worker that is ready,
    with an empty two-channel audio buffer that has room for a block and a
    target above 0, runs [renderLoop] once: the queued commands are
    handed to the engine, the engine renders one block of [bufferSize]
    frames, and the block is written. The output callback, called next on
    its own object over the shared buffer with two channels of
    [bufferSize] samples, returns [true] after one read that succeeds, and
    its left channel is the left view of the engine, its right channel the
    right view, sample for sample; the buffer is empty again. *)
Theorem rendered_block_played (w : Worker.t sample) (arb : AudioRingBuffer.t sample)
    (e : Engine.handle) (channelL channelR : list sample) :
  (forall h frames, length (fst (rendered h frames)) = Z.to_nat frames /\
                    length (snd (rendered h frames)) = Z.to_nat frames) ->
  Worker.isReady w = true ->
  Worker.audioRingBuffer w = Some arb ->
  Worker.moduleInstance w = Some e ->
  audio arb -> channelCount arb = 2 -> readIndex arb = writeIndex arb ->
  0 <= Worker.bufferSize w <= capacity arb ->
  0 < Worker.targetBufferSize w ->
  Z.of_nat (length (Worker.tempBufferInterleaved w)) = Worker.bufferSize w * 2 ->
  writeIndex arb + Worker.bufferSize w < 2 ^ 31 ->
  Z.of_nat (length channelL) = Worker.bufferSize w ->
  Z.of_nat (length channelR) = Worker.bufferSize w ->
  let w' := snd (Worker.renderLoop nan rendered w) in
  exists e1 arb' arb'',
    Worker.moduleInstance <$> Worker.processCommands w = Some (Some e1) /\
    Worker.moduleInstance w' = Some (e1 ++ [Engine.Render (Worker.bufferSize w)]) /\
    Worker.audioRingBuffer w' = Some arb' /\
    Worklet.process nan [channelL; channelR]
      {| Worklet.audioRingBuffer := Some (attach 2 arb') |}
    = (true,
       [fst (rendered (e1 ++ [Engine.Render (Worker.bufferSize w)]) (Worker.bufferSize w));
        snd (rendered (e1 ++ [Engine.Render (Worker.bufferSize w)]) (Worker.bufferSize w))],
       {| Worklet.audioRingBuffer := Some arb'' |},
       [(Worker.bufferSize w, true)]) /\
    availableRead arb'' = 0.
Proof.
  intros Hviews Hready Harb He Ha Hcc Hempty Hbs Htarget Htemp Hi32 HchL HchR w'.
  subst w'. unfold Worker.renderLoop. rewrite Hready, Harb.
  destruct (SynthesisWorker.processCommands_engine w e He)
    as (w1 & e1 & Hpc & He1 & _ & Harb1 & Htemp1 & Htarget1 & Hbs1).
  rewrite Hpc, Htarget1, Hbs1.
  pose proof Ha as [Hcap _ Hlen Hr Hord _ Hfits].
  assert (Hgate1 : (Worker.targetBufferSize w <=? availableRead arb) = false)
    by (unfold availableRead; apply Z.leb_gt; lia).
  assert (Hgate2 : (availableWrite arb <? Worker.bufferSize w) = false)
    by (unfold availableWrite; apply Z.ltb_ge; lia).
  rewrite Hgate1, Hgate2.
  rewrite He1.
  set (B := Worker.bufferSize w) in *.
  destruct (Hviews (e1 ++ [Engine.Render B]) B) as [HL HR].
  destruct (rendered (e1 ++ [Engine.Render B]) B) as [leftView rightView] eqn:Hrend.
  cbn [fst snd] in *.
  set (n := Z.to_nat B) in *.
  destruct (interleave_channels n leftView rightView (Worker.tempBufferInterleaved w1))
    as (Hblock & Hlefts & Hrights); [exact HL|exact HR|rewrite Htemp1; lia|].
  set (block := Worker.interleave nan n 0 leftView rightView
                  (Worker.tempBufferInterleaved w1)) in *.
  assert (Hhalf : Z.of_nat (length block) / 2 = Z.of_nat n).
  { rewrite Hblock. replace (Z.of_nat (2 * n)) with (Z.of_nat n * 2) by lia.
    apply Z.div_mul. lia. }
  destruct (write_stereo block arb [] (stereo_empty arb Ha Hcc Hempty))
    as (rb1 & Hw & Hst1 & Hw1 & Hr1 & _).
  { rewrite Hblock. replace (Z.of_nat (2 * n)) with (2 * Z.of_nat n) by lia.
    apply Z.even_mul. }
  { unfold availableWrite. lia. }
  { lia. }
  cbn [app] in Hst1. rewrite Hw.
  destruct (read_stereo nan channelL channelR n rb1 block Hst1)
    as (rb2 & Hread & _ & Hr2 & Hw2 & _); [unfold availableRead; lia|lia|lia|].
  rewrite take_ge in Hread by lia.
  pose proof Hst1 as [Ha1 Hcc1 _ _].
  exists e1, rb1, rb2. rewrite Hrend. cbn [fst snd].
  split; [cbn [fmap option_fmap option_map]; rewrite He1; reflexivity|].
  assert (Hsched : forall (s1 s2 : Worker.schedule) (b : bool) (x : Worker.t sample),
            snd (if b then (s1, x) else (s2, x)) = x) by (intros ? ? []; reflexivity).
  rewrite Hsched.
  cbn [Worker.moduleInstance Worker.audioRingBuffer Worker.with_audio Worker.with_engine].
  split; [reflexivity|]. split; [reflexivity|].
  unfold Worklet.process. cbn [lookup list_lookup Worklet.audioRingBuffer].
  rewrite attach_stereo by assumption.
  replace (Z.of_nat (length channelL)) with (Z.of_nat n) by lia.
  rewrite Hread. rewrite Hlefts, Hrights.
  rewrite !drop_ge, !app_nil_r by lia.
  replace (Z.of_nat n) with B by lia.
  split; [reflexivity|]. unfold availableRead. lia.
Qed.

End Samples.

(** The first run of the loop in [Scenario.small_worker], then the output
    callback on two channels of two samples. *)
Lemma rendered_block_played_witness :
  exists arb' arb'',
    Worker.audioRingBuffer
      (snd (Worker.renderLoop Scenario.NotANumber Scenario.tone Scenario.small_worker))
    = Some arb' /\
    Worklet.process Scenario.NotANumber Scenario.quiet_output
      {| Worklet.audioRingBuffer := Some (AudioRingBuffer.attach 2 arb') |}
    = (true,
       [[Scenario.Level 1; Scenario.Level 1]; [Scenario.Level (-1); Scenario.Level (-1)]],
       {| Worklet.audioRingBuffer := Some arb'' |}, [(2, true)]).
Proof.
  destruct (rendered_block_played Scenario.NotANumber Scenario.tone
              Scenario.small_worker (AudioRingBuffer.create Scenario.silence 2 8)
              [Engine.Init 0 2] [Scenario.silence; Scenario.silence]
              [Scenario.silence; Scenario.silence])
    as (e1 & arb' & arb'' & _ & _ & Harb & Hprocess & _).
  - intros h frames. split; apply length_replicate.
  - reflexivity.
  - reflexivity.
  - reflexivity.
  - apply AudioRingBufferFacts.audio_create; lia.
  - reflexivity.
  - reflexivity.
  - vm_compute. split; discriminate.
  - reflexivity.
  - reflexivity.
  - reflexivity.
  - reflexivity.
  - reflexivity.
  - exists arb', arb''. split; [exact Harb|]. exact Hprocess.
Defined.

End AudioPath.

(** ** Note events: from the keys to the engine *)

Module NotesFacts.

Import Rep JSFacts Notes.

Lemma record_ok ev : payload_ok (record ev).
Proof.
  destruct ev; (split; [simpl; lia|]); repeat constructor; apply toUint8_byte.
Qed.

Lemma length_record ev : (2 <= length (record ev) <= 3)%nat.
Proof. destruct ev; simpl; lia. Qed.

Lemma command_record e ev : Worker.command e (record ev) = e ++ [call ev].
Proof. destruct ev; reflexivity. Qed.

Lemma commands_records evs : forall e,
  foldl Worker.command e (map record evs) = e ++ map call evs.
Proof.
  induction evs as [|ev evs IH]; intros e; cbn [map foldl].
  - rewrite app_nil_r. reflexivity.
  - rewrite command_record, IH, <- app_assoc. reflexivity.
Qed.

Section Samples.

Context {sample : Type}.

Implicit Types p : Pipeline.t sample.

(** An event whose record fits is taken and joins the pending ones. *)
Lemma send_taken ev p a pending e :
  linked p a pending e ->
  Z.of_nat (length (record ev)) + 1
  <= RingBuffer.size a - (RingBuffer.writeIndex a - RingBuffer.readIndex a) ->
  RingBuffer.writeIndex a + (Z.of_nat (length (record ev)) + 1) < 2 ^ 31 ->
  exists a',
    sent ev (Pipeline.main p) = Some true /\
    linked (send ev p) a' (pending ++ [ev]) e /\
    RingBuffer.writeIndex a'
    = RingBuffer.writeIndex a + (Z.of_nat (length (record ev)) + 1).
Proof.
  intros [Hinit Hwl Hworker Ha Hca (b & Hb & Hcb & Hsz & Hwb) He] Hroom Hint.
  destruct (RingBufferFacts.write_accept (record ev) a _ Hca (record_ok ev) Hroom Hint)
    as (a' & Hwrite & Hca' & Hw' & _ & Hsz').
  exists a'.
  assert (Hcs : control (Pipeline.shared a' b) (map record (pending ++ [ev]))).
  { rewrite map_app. apply (Orchestrator.control_shared a' b _ _ Hca' Hcb). congruence. }
  assert (Hca'' : control a' (map record (pending ++ [ev])))
    by (rewrite map_app; exact Hca').
  destruct ev as [note velocity|note]; cbn [sent send record] in *.
  - unfold Pipeline.noteOn, SDK.noteOn. rewrite Hinit, Hwl, Hworker, Ha.
    cbn [negb andb]. rewrite Hwrite. cbn [fst snd].
    split; [reflexivity|]. split; [|exact Hw'].
    unfold Pipeline.publish. cbn [SDK.ringBuffer SDK.with_ringBuffer]. rewrite Hb.
    split; cbn [Pipeline.main Pipeline.synth SDK.initialized SDK.useWorklet SDK.worker
                SDK.ringBuffer SDK.with_ringBuffer Worker.commandRingBuffer
                Worker.moduleInstance Worker.with_command]; try assumption.
    + reflexivity.
    + eexists. split; [reflexivity|]. split; [exact Hcs|].
      cbn. split; [congruence|reflexivity].
  - unfold Pipeline.noteOff, SDK.noteOff. rewrite Hinit, Hwl, Hworker, Ha.
    cbn [negb andb]. rewrite Hwrite. cbn [fst snd].
    split; [reflexivity|]. split; [|exact Hw'].
    unfold Pipeline.publish. cbn [SDK.ringBuffer SDK.with_ringBuffer]. rewrite Hb.
    split; cbn [Pipeline.main Pipeline.synth SDK.initialized SDK.useWorklet SDK.worker
                SDK.ringBuffer SDK.with_ringBuffer Worker.commandRingBuffer
                Worker.moduleInstance Worker.with_command]; try assumption.
    + reflexivity.
    + eexists. split; [reflexivity|]. split; [exact Hcs|].
      cbn. split; [congruence|reflexivity].
Qed.

(** An event whose record does not fit is dropped: [write] returns
    [false] and the pipeline holds what it held. *)
Lemma send_dropped ev p a pending e :
  linked p a pending e ->
  RingBuffer.size a - (RingBuffer.writeIndex a - RingBuffer.readIndex a)
  < Z.of_nat (length (record ev)) + 1 ->
  sent ev (Pipeline.main p) = Some false /\ linked (send ev p) a pending e.
Proof.
  intros [Hinit Hwl Hworker Ha Hca (b & Hb & Hcb & Hsz & Hwb) He] Hfull.
  pose proof (RingBufferFacts.write_reject (record ev) a Hfull) as Hwrite.
  assert (Hcs : control (Pipeline.shared a b) (map record pending))
    by (apply (Orchestrator.control_shared a b _ _ Hca Hcb); exact Hsz).
  destruct ev as [note velocity|note]; cbn [sent send record] in *.
  - unfold Pipeline.noteOn, SDK.noteOn. rewrite Hinit, Hwl, Hworker, Ha.
    cbn [negb andb]. rewrite Hwrite. cbn [fst snd].
    split; [reflexivity|].
    unfold Pipeline.publish. cbn [SDK.ringBuffer SDK.with_ringBuffer]. rewrite Hb.
    split; cbn [Pipeline.main Pipeline.synth SDK.initialized SDK.useWorklet SDK.worker
                SDK.ringBuffer SDK.with_ringBuffer Worker.commandRingBuffer
                Worker.moduleInstance Worker.with_command]; try assumption.
    + reflexivity.
    + eexists. split; [reflexivity|]. split; [exact Hcs|].
      cbn. split; [exact Hsz|reflexivity].
  - unfold Pipeline.noteOff, SDK.noteOff. rewrite Hinit, Hwl, Hworker, Ha.
    cbn [negb andb]. rewrite Hwrite. cbn [fst snd].
    split; [reflexivity|].
    unfold Pipeline.publish. cbn [SDK.ringBuffer SDK.with_ringBuffer]. rewrite Hb.
    split; cbn [Pipeline.main Pipeline.synth SDK.initialized SDK.useWorklet SDK.worker
                SDK.ringBuffer SDK.with_ringBuffer Worker.commandRingBuffer
                Worker.moduleInstance Worker.with_command]; try assumption.
    + reflexivity.
    + eexists. split; [reflexivity|]. split; [exact Hcs|].
      cbn. split; [exact Hsz|reflexivity].
Qed.

(** [processCommands] hands the pending events to the engine, in order,
    and leaves the queue drained. *)
Lemma process_linked p a pending e :
  linked p a pending e ->
  exists a',
    linked (Pipeline.processCommands p) a' [] (e ++ map call pending) /\
    RingBuffer.writeIndex a' = RingBuffer.writeIndex a.
Proof.
  intros [Hinit Hwl Hworker Ha Hca (b & Hb & Hcb & Hsz & Hwb) He].
  destruct (RingBufferFacts.read_drains b _ Hcb) as (b' & Hread & Hcb' & _ & Hw' & Hsz').
  exists (Pipeline.shared b' a).
  unfold Pipeline.processCommands, Worker.processCommands.
  rewrite Hb, Hread, He.
  unfold Pipeline.consume.
  cbn [Worker.commandRingBuffer Worker.with_command Worker.with_engine]. rewrite Ha.
  split.
  - split; cbn [Pipeline.main Pipeline.synth SDK.initialized SDK.useWorklet SDK.worker
                SDK.ringBuffer SDK.with_ringBuffer Worker.commandRingBuffer
                Worker.moduleInstance Worker.with_command Worker.with_engine map];
      try assumption.
    + reflexivity.
    + apply (Orchestrator.control_shared b' a _ _ Hcb' Hca). congruence.
    + exists b'. split; [reflexivity|]. split; [exact Hcb'|].
      cbn. split; [congruence|reflexivity].
    + rewrite commands_records. reflexivity.
  - cbn. congruence.
Qed.

(** Room for the record is all that [write] asks for. *)
Lemma sent_room ev p a pending e :
  linked p a pending e ->
  Z.of_nat (length (record ev)) + 1
  <= RingBuffer.size a - (RingBuffer.writeIndex a - RingBuffer.readIndex a) ->
  sent ev (Pipeline.main p) = Some true.
Proof.
  intros [Hinit Hwl Hworker Ha _ _ _] Hroom.
  destruct (RingBufferFacts.write_indices (record ev) a Hroom) as (a1 & Hwrite & _).
  destruct ev; cbn [sent record] in *; unfold SDK.noteOn, SDK.noteOff;
    rewrite Hinit, Hwl, Hworker, Ha; cbn [negb andb]; rewrite Hwrite; reflexivity.
Qed.

(** The invariant along a run: the events taken so far are the events
    handed to the engine followed by the pending ones. *)
Lemma run_linked steps : forall p a pending e acc p',
  linked p a pending e -> run steps p = (acc, p') ->
  RingBuffer.writeIndex a + 4 * Z.of_nat (length acc) < 2 ^ 31 ->
  exists a' pending' delivered,
    linked p' a' pending' (e ++ map call delivered) /\
    pending ++ acc = delivered ++ pending'.
Proof.
  induction steps as [|[ev|] steps IH]; intros p a pending e acc p' Hl Hrun Hint.
  - cbn [run] in Hrun. injection Hrun as <- <-.
    exists a, pending, []. cbn [map]. rewrite !app_nil_r. auto.
  - cbn [run] in Hrun.
    destruct (run steps (send ev p)) as [acc' p''] eqn:Hrest.
    pose proof (length_record ev) as Hlen.
    destruct (Z.lt_ge_cases
                (RingBuffer.size a - (RingBuffer.writeIndex a - RingBuffer.readIndex a))
                (Z.of_nat (length (record ev)) + 1)) as [Hfull|Hroom].
    + destruct (send_dropped ev p a pending e Hl Hfull) as [Hsent Hl'].
      rewrite Hsent in Hrun. injection Hrun as <- <-.
      exact (IH _ _ _ _ _ _ Hl' Hrest Hint).
    + rewrite (sent_room ev p a pending e Hl Hroom) in Hrun.
      injection Hrun as <- <-. cbn [app length] in Hint.
      destruct (send_taken ev p a pending e Hl Hroom) as (a1 & _ & Hl1 & Hw1); [lia|].
      destruct (IH _ a1 _ _ _ _ Hl1 Hrest) as (a' & pending' & delivered & Hl' & Heq);
        [lia|].
      exists a', pending', delivered. split; [exact Hl'|].
      rewrite <- Heq, <- app_assoc. reflexivity.
  - cbn [run] in Hrun.
    destruct (process_linked p a pending e Hl) as (a1 & Hl1 & Hw1).
    destruct (IH _ a1 _ _ _ _ Hl1 Hrun) as (a' & pending' & delivered & Hl' & Heq);
      [lia|].
    exists a', pending', (pending ++ delivered). split.
    + rewrite map_app, app_assoc. exact Hl'.
    + cbn [app] in Heq. rewrite Heq, app_assoc. reflexivity.
Qed.

End Samples.

End NotesFacts.

(** ** The note path: every interleaving *)

Module NotePath.

Import Rep JSFacts Notes NotesFacts.

(** X4. Note events through the dual-context pipeline, for every
    interleaving of whole calls. Start from a running pipeline whose
    ControlQueue is drained. The main thread calls [noteOn] and [noteOff]
    with any numbers, the worker runs [processCommands] at any points in
    between, and the records stay below the range of [Int32]. After one
    more [processCommands], the engine has received, after the calls it had
    before, exactly one call for every event whose [write] returned [true],
    in the order of the events: [_note_on(note mod 256, (floor(velocity *
    127) mod 256) / 127)] for a [noteOn], the product and the quotient
    being those of the doubles, and [_note_off(note mod 256)] for a
    [noteOff]. *)
Theorem note_stream_delivered {sample : Type} (steps : list step)
    (p p' : Pipeline.t sample) (a b : RingBuffer.t) (e : Engine.handle)
    (acc : list event) :
  SDK.initialized (Pipeline.main p) = true ->
  SDK.useWorklet (Pipeline.main p) = true ->
  SDK.worker (Pipeline.main p) = true ->
  SDK.ringBuffer (Pipeline.main p) = Some a ->
  Worker.commandRingBuffer (Pipeline.synth p) = Some b ->
  Worker.moduleInstance (Pipeline.synth p) = Some e ->
  control a [] -> control b [] ->
  RingBuffer.size b = RingBuffer.size a ->
  RingBuffer.writeIndex b = RingBuffer.writeIndex a ->
  run steps p = (acc, p') ->
  RingBuffer.writeIndex a + 4 * Z.of_nat (length acc) < 2 ^ 31 ->
  Pipeline.engine (Pipeline.processCommands p') = e ++ map call acc.
Proof.
  intros Hinit Hwl Hworker Ha Hb He Hca Hcb Hsz Hw Hrun Hint.
  assert (Hl : linked p a [] e).
  { split; try assumption. exists b. auto. }
  destruct (run_linked steps p a [] e acc p' Hl Hrun Hint)
    as (a' & pending' & delivered & Hl' & Heq).
  destruct (process_linked p' a' pending' _ Hl') as (a'' & [_ _ _ _ _ _ He'] & _).
  unfold Pipeline.engine. rewrite He'. cbn [default].
  cbn [app] in Heq. rewrite Heq, map_app, app_assoc. reflexivity.
Qed.

(** Two keys pressed, the worker drains, the keys are released: the pipeline
    as [init()] leaves it. The velocities are the doubles that [0.8] and
    [1 / 127] denote; the second one arrives as the byte 1. *)
Lemma note_stream_delivered_witness :
  Pipeline.engine
    (Pipeline.processCommands
       (snd (run [Send (On 60 (JS.nearest (4 # 5)));
                  Send (On 64 (JS.nearest (1 # 127))); Process;
                  Send (Off 60); Send (Off 64)] Scenario.ready_pipeline)))
  = [Engine.Init 0 128; Engine.SetVolume 1; Engine.Render 128;
     Engine.NoteOn (Some 60) (Some (JS.nearest (101 # 127)));
     Engine.NoteOn (Some 64) (Some (JS.nearest (1 # 127)));
     Engine.NoteOff (Some 60); Engine.NoteOff (Some 64)].
Proof.
  rewrite (note_stream_delivered
             [Send (On 60 (JS.nearest (4 # 5)));
              Send (On 64 (JS.nearest (1 # 127))); Process;
              Send (Off 60); Send (Off 64)]
             Scenario.ready_pipeline _
             (RingBuffer.create 4096) (RingBuffer.create 4096)
             [Engine.Init 0 128; Engine.SetVolume 1; Engine.Render 128]
             [On 60 (JS.nearest (4 # 5)); On 64 (JS.nearest (1 # 127));
              Off 60; Off 64]).
  - vm_compute. reflexivity.
  - reflexivity.
  - reflexivity.
  - reflexivity.
  - reflexivity.
  - reflexivity.
  - reflexivity.
  - apply RingBufferFacts.control_create. lia.
  - apply RingBufferFacts.control_create. lia.
  - reflexivity.
  - reflexivity.
  - vm_compute. reflexivity.
  - vm_compute. reflexivity.
Defined.

End NotePath.

(** ** The ControlQueue: room and ownership *)

Module QueueRoom.

Import RingBuffer Rep JSFacts RingBufferFacts.

(** Writes of one record, [k] times over, with no drain in between. *)
Lemma burst_accepted (p : list Z) : forall (k : nat) rb pend,
  control rb pend -> payload_ok p ->
  readIndex rb + size rb < 2 ^ 31 ->
  let per := Z.of_nat (length p) + 1 in
  let free := size rb - (writeIndex rb - readIndex rb) in
  fst (fst (run (replicate k (Write p)) rb))
  = replicate (Nat.min k (Z.to_nat (free / per))) p.
Proof.
  induction k as [|k IH]; intros rb pend Hc Hp Hint per free; [reflexivity|].
  pose proof (c_write _ _ Hc) as Hw. pose proof (c_fits _ _ Hc) as Hfits.
  assert (Hfree : 0 <= free) by (subst free; lia).
  cbn [replicate run].
  destruct (Z.lt_ge_cases free per) as [Hfull|Hroom].
  - rewrite write_reject by (subst free per; lia).
    specialize (IH rb pend Hc Hp Hint). cbv zeta in IH. fold per free in IH.
    destruct (run (replicate k (Write p)) rb) as [[acc del] rb'].
    cbn [fst app] in *. rewrite IH.
    rewrite Z.div_small by lia. rewrite !Nat.min_0_r. reflexivity.
  - destruct (write_accept p rb pend Hc Hp) as (rb1 & Hwrite & Hc1 & Hw1 & Hr1 & Hsz1);
      [subst free per; lia | subst free per; lia |].
    rewrite Hwrite.
    specialize (IH rb1 (pend ++ [p]) Hc1 Hp). cbv zeta in IH.
    rewrite Hw1, Hr1, Hsz1 in IH. fold per in IH.
    replace (size rb - (writeIndex rb + per - readIndex rb)) with (free - per) in IH
      by (subst free; lia).
    destruct (run (replicate k (Write p)) rb1) as [[acc del] rb'].
    cbn [fst app] in *. rewrite IH by lia.
    replace free with (free - per + 1 * per) at 2 by lia.
    rewrite Z.div_add by (subst per; lia).
    replace (Z.to_nat ((free - per) / per + 1)) with (S (Z.to_nat ((free - per) / per))).
    + reflexivity.
    + pose proof (Z.div_pos (free - per) per ltac:(lia) ltac:(subst per; lia)). lia.
Qed.

(** X5. The room of the ControlQueue, counted in records. Of [k] writes of
    one record of [n <= 255] bytes into a new queue of [size] bytes, with
    no drain in between, exactly the first [floor(size / (n + 1))] return
    [true] (all of them if [k] is smaller): a record takes its bytes and
    one more for the length, and the queue can be filled to the last
    byte. *)
Theorem queue_room (sz : Z) (p : list Z) (k : nat) :
  0 <= sz < 2 ^ 31 -> payload_ok p ->
  fst (fst (run (replicate k (Write p)) (create sz)))
  = replicate (Nat.min k (Z.to_nat (size (create sz) / (Z.of_nat (length p) + 1)))) p.
Proof.
  intros Hsz Hp.
  rewrite (burst_accepted p k (create sz) [] (control_create sz ltac:(lia)) Hp).
  - cbn [create writeIndex readIndex size]. change (0 - 0) with 0.
    rewrite Z.sub_0_r. reflexivity.
  - cbn [create writeIndex readIndex size]. destruct (sz =? 0); lia.
Qed.

(** The queue of the SDK takes 1024 note-on records, and no more. *)
Lemma queue_room_witness :
  fst (fst (run (replicate 1030 (Write [1; 60; 101])) (create 4096)))
  = replicate 1024 [1; 60; 101].
Proof.
  rewrite (queue_room 4096 [1; 60; 101] 1030).
  - reflexivity.
  - lia.
  - split; [simpl; lia|]. repeat constructor; unfold is_byte; lia.
Defined.

(** X6. Who stores what. [write] of either ring buffer leaves the read
    index (and, in the ControlQueue, the scratch array of the consumer) as
    it is, whether the call is accepted or not; [read] of either ring
    buffer leaves the write index and the data as they are, whether
    anything is delivered or not. The size, the capacity and the channel
    count never change. This holds in every state of the objects. *)
Theorem single_writer_fields {sample : Type} (nan : sample)
    (data : list Z) (rb : RingBuffer.t)
    (input leftOut rightOut : list sample) (frames : Z)
    (arb : AudioRingBuffer.t sample) :
  (readIndex (snd (write data rb)) = readIndex rb /\
   tempBuffer (snd (write data rb)) = tempBuffer rb /\
   size (snd (write data rb)) = size rb) /\
  (writeIndex (snd (read rb)) = writeIndex rb /\
   buffer (snd (read rb)) = buffer rb /\
   size (snd (read rb)) = size rb) /\
  (AudioRingBuffer.readIndex (snd (AudioRingBuffer.write input arb))
   = AudioRingBuffer.readIndex arb /\
   AudioRingBuffer.capacity (snd (AudioRingBuffer.write input arb))
   = AudioRingBuffer.capacity arb /\
   AudioRingBuffer.channelCount (snd (AudioRingBuffer.write input arb))
   = AudioRingBuffer.channelCount arb) /\
  (let after := snd (AudioRingBuffer.read nan leftOut rightOut frames arb) in
   AudioRingBuffer.writeIndex after = AudioRingBuffer.writeIndex arb /\
   AudioRingBuffer.buffer after = AudioRingBuffer.buffer arb /\
   AudioRingBuffer.capacity after = AudioRingBuffer.capacity arb /\
   AudioRingBuffer.channelCount after = AudioRingBuffer.channelCount arb).
Proof.
  split; [|split; [|split]].
  - unfold write. destruct (_ <? _); cbn; auto.
  - unfold read. destruct (_ =? _); [auto|].
    destruct (drain_loop _ _ _ _ _ _) as [[views temp] cursor]. cbn. auto.
  - unfold AudioRingBuffer.write. destruct (negb _); [auto|].
    match goal with
    | |- context [match ?c with inl _ => _ | inr _ => _ end] => destruct c
    end; cbn; auto.
  - unfold AudioRingBuffer.read. destruct (_ <? _); cbn; auto.
Qed.

End QueueRoom.

(** ** Bring-up of the worker *)

Module BringupFacts.

Import Bringup.

Lemma command_extends e data : exists rest, Worker.command e data = e ++ rest.
Proof.
  unfold Worker.command. destruct (data !! 0%nat) as [cmd|].
  - destruct (cmd =? Worker.CMD_NOTE_ON); [eexists; reflexivity|].
    destruct (cmd =? Worker.CMD_NOTE_OFF); [eexists; reflexivity|].
    exists []. rewrite app_nil_r. reflexivity.
  - exists []. rewrite app_nil_r. reflexivity.
Qed.

Lemma commands_extend views : forall e,
  exists rest, foldl Worker.command e views = e ++ rest.
Proof.
  induction views as [|d views IH]; intros e; cbn [foldl].
  - exists []. rewrite app_nil_r. reflexivity.
  - destruct (command_extends e d) as [r1 ->].
    destruct (IH (e ++ r1)) as [r2 ->].
    exists (r1 ++ r2). rewrite app_assoc. reflexivity.
Qed.

Section Samples.

Context {sample : Type} (nan zero : sample).
Context (rendered : Engine.handle -> Z -> list sample * list sample).

Implicit Types w : Worker.t sample.

(** A run of the render loop adds calls to the engine and changes neither
    the settings nor the messages posted. *)
Lemma renderLoop_extends w e :
  Worker.moduleInstance w = Some e ->
  let w' := snd (Worker.renderLoop nan rendered w) in
  (exists rest, Worker.moduleInstance w' = Some (e ++ rest)) /\
  Worker.isReady w' = Worker.isReady w /\
  Worker.bufferSize w' = Worker.bufferSize w /\
  Worker.targetBufferSize w' = Worker.targetBufferSize w /\
  Worker.posted w' = Worker.posted w.
Proof.
  intros He w'. subst w'. unfold Worker.renderLoop.
  destruct (Worker.isReady w) eqn:Hready;
    [|cbn [snd]; split; [exists []; rewrite app_nil_r; exact He|repeat split; auto]].
  destruct (Worker.audioRingBuffer w) as [arb|] eqn:Harb;
    [|cbn [snd]; split; [exists []; rewrite app_nil_r; exact He|repeat split; auto]].
  unfold Worker.processCommands. rewrite He.
  assert (Hpc : exists w1 r1,
            match Worker.commandRingBuffer w with
            | Some rb =>
                let '(views, rb') := RingBuffer.read rb in
                Some (Worker.with_command
                        (Worker.with_engine w (foldl Worker.command e views)) rb')
            | None => Some w
            end = Some w1 /\
            Worker.moduleInstance w1 = Some (e ++ r1) /\
            Worker.isReady w1 = true /\
            Worker.bufferSize w1 = Worker.bufferSize w /\
            Worker.targetBufferSize w1 = Worker.targetBufferSize w /\
            Worker.posted w1 = Worker.posted w).
  { destruct (Worker.commandRingBuffer w) as [rb|].
    - destruct (RingBuffer.read rb) as [views rb'].
      destruct (commands_extend views e) as [r1 Hr1].
      eexists. exists r1. split; [reflexivity|]. cbn. rewrite Hr1.
      repeat split; auto.
    - exists w, []. rewrite app_nil_r. repeat split; auto. }
  destruct Hpc as (w1 & r1 & -> & He1 & Hready1 & Hbs1 & Ht1 & Hp1).
  rewrite <- Hbs1, <- Ht1, <- Hp1.
  destruct (_ <=? _); [cbn [snd]; split; [exists r1; exact He1|repeat split; auto]|].
  destruct (_ <? _); [cbn [snd]; split; [exists r1; exact He1|repeat split; auto]|].
  rewrite He1.
  destruct (rendered _ _) as [leftView rightView].
  destruct (AudioRingBuffer.write _ arb) as [[f|] arb'].
  - destruct (_ <? _); cbn; (split; [|repeat split; auto]);
      exists (r1 ++ [Engine.Render (Worker.bufferSize w1)]);
      rewrite app_assoc; reflexivity.
  - cbn. split; [|repeat split; auto].
    exists (r1 ++ [Engine.Render (Worker.bufferSize w1)]).
    rewrite app_assoc. reflexivity.
Qed.

(** A run of the render loop as the producer of a two-channel audio
    buffer that is in order: it does not throw, it keeps the worker in
    order, it never touches the read index, and it writes one block
    exactly when the gate is open. *)
Lemma renderLoop_producer w (arb : AudioRingBuffer.t sample) (e : Engine.handle) :
  Worker.isReady w = true ->
  Worker.audioRingBuffer w = Some arb ->
  Worker.moduleInstance w = Some e ->
  Rep.audio arb -> AudioRingBuffer.channelCount arb = 2 ->
  0 <= Worker.bufferSize w ->
  Z.of_nat (length (Worker.tempBufferInterleaved w)) = Worker.bufferSize w * 2 ->
  let w' := snd (Worker.renderLoop nan rendered w) in
  fst (Worker.renderLoop nan rendered w) <> Worker.Uncaught /\
  length (Worker.tempBufferInterleaved w') = length (Worker.tempBufferInterleaved w) /\
  exists e1 e' arb',
    Worker.moduleInstance <$> Worker.processCommands w = Some (Some e1) /\
    Worker.moduleInstance w' = Some e' /\
    Worker.audioRingBuffer w' = Some arb' /\
    AudioRingBuffer.channelCount arb' = 2 /\
    AudioRingBuffer.capacity arb' = AudioRingBuffer.capacity arb /\
    AudioRingBuffer.readIndex arb' = AudioRingBuffer.readIndex arb /\
    length (AudioRingBuffer.buffer arb') = length (AudioRingBuffer.buffer arb) /\
    (Worker.targetBufferSize w <= AudioRingBuffer.availableRead arb \/
     AudioRingBuffer.availableWrite arb < Worker.bufferSize w ->
     fst (Worker.renderLoop nan rendered w) = Worker.SetTimeout 1 /\
     e' = e1 /\ arb' = arb) /\
    (AudioRingBuffer.availableRead arb < Worker.targetBufferSize w ->
     Worker.bufferSize w <= AudioRingBuffer.availableWrite arb ->
     fst (Worker.renderLoop nan rendered w)
     = (if AudioRingBuffer.availableRead arb' <? Worker.targetBufferSize w
        then Worker.QueueMicrotask else Worker.SetTimeout 0) /\
     e' = e1 ++ [Engine.Render (Worker.bufferSize w)] /\
     AudioRingBuffer.writeIndex arb'
     = JS.toInt32 (AudioRingBuffer.writeIndex arb + Worker.bufferSize w)).
Proof.
  intros Hready Harb He Ha Hcc Hbs Htemp w'.
  subst w'. unfold Worker.renderLoop. rewrite Hready, Harb.
  destruct (SynthesisWorker.processCommands_engine w e He)
    as (w1 & e1 & Hpc & He1 & Hr1 & Harb1 & Htemp1 & Htarget1 & Hbs1).
  rewrite Hpc, Htarget1, Hbs1. cbn [fmap option_fmap option_map].
  rewrite He1.
  destruct (Z.leb_spec (Worker.targetBufferSize w) (AudioRingBuffer.availableRead arb))
    as [Henough|Hbelow].
  { cbn [fst snd]. split; [discriminate|]. split; [rewrite Htemp1; reflexivity|].
    exists e1, e1, arb. rewrite He1, Harb1, Harb.
    repeat split; try assumption; try reflexivity; lia. }
  destruct (Z.ltb_spec (AudioRingBuffer.availableWrite arb) (Worker.bufferSize w))
    as [Hfull|Hroom].
  { cbn [fst snd]. split; [discriminate|]. split; [rewrite Htemp1; reflexivity|].
    exists e1, e1, arb. rewrite He1, Harb1, Harb.
    repeat split; try assumption; try reflexivity; lia. }
  destruct (rendered (e1 ++ [Engine.Render (Worker.bufferSize w)]) (Worker.bufferSize w))
    as [leftView rightView].
  set (block := Worker.interleave nan (Z.to_nat (Worker.bufferSize w)) 0
                  leftView rightView (Worker.tempBufferInterleaved w1)).
  assert (Hblock : Z.of_nat (length block) = Worker.bufferSize w * 2).
  { subst block. rewrite SynthesisWorker.length_interleave, Htemp1. exact Htemp. }
  destruct (AudioRingBufferFacts.block_accept block arb Ha) as (buf & Hwrite & Hlen).
  { rewrite Hblock, Hcc. lia. }
  rewrite Hwrite. cbv beta iota zeta. rewrite Hblock, Hcc, Z.div_mul by lia.
  set (arb2 := {| AudioRingBuffer.channelCount := 2;
                  AudioRingBuffer.capacity := AudioRingBuffer.capacity arb;
                  AudioRingBuffer.writeIndex :=
                    JS.toInt32 (AudioRingBuffer.writeIndex arb + Worker.bufferSize w);
                  AudioRingBuffer.readIndex := AudioRingBuffer.readIndex arb;
                  AudioRingBuffer.buffer := buf |}).
  destruct (AudioRingBuffer.availableRead arb2 <? Worker.targetBufferSize w) eqn:Hs;
    cbn [fst snd Worker.moduleInstance Worker.audioRingBuffer Worker.with_audio
         Worker.with_engine Worker.tempBufferInterleaved];
    (split; [discriminate|]; split; [lia|];
     exists e1, (e1 ++ [Engine.Render (Worker.bufferSize w)]), arb2;
     split; [reflexivity|]; split; [reflexivity|]; split; [reflexivity|];
     rewrite Hs;
     cbn [AudioRingBuffer.channelCount AudioRingBuffer.capacity
          AudioRingBuffer.readIndex AudioRingBuffer.writeIndex
          AudioRingBuffer.buffer arb2];
     repeat split; try assumption; try reflexivity; lia).
Qed.

(** X7. Bring-up of the worker. When the engine loads and the block size
    is not negative, the ['init'] message makes the worker ready and runs
    the render loop once. The worker that enters this first run has an
    engine whose two calls are [_init(0, bufferSize)] and
    [_render(volume)], with the block size of the message or 128 and its
    volume or 1 (the sample rate handed to the engine is 0, whatever the
    message carries), the regions of the message, a scratch array of two
    samples a frame, the target of the message or 1024, and ['ready']
    posted. What the message leaves is what that run leaves, with its
    schedule; a run that throws is caught and posted as an error. On an
    empty audio buffer in order, with room for a block and a target above
    0, the first run renders one block and writes it. *)
Theorem worker_bringup (h : host) (data : config sample) (w : Worker.t sample) :
  loadEngine h = None ->
  0 <= bufferSize data ->
  let blockSize := if bufferSize data =? 0 then 128 else bufferSize data in
  let target :=
    if targetBufferFrames data =? 0 then 1024 else targetBufferFrames data in
  let gain := if Qeq_bool (volume data) 0 then 1%Q else volume data in
  let ready :=
    {| Worker.moduleInstance :=
         Some [Engine.Init 0 blockSize; Engine.SetVolume gain];
       Worker.audioRingBuffer :=
         match audioSab data with
         | Some region => Some (AudioRingBuffer.attach 2 region)
         | None => Worker.audioRingBuffer w
         end;
       Worker.commandRingBuffer :=
         match commandSab data with
         | Some region => Some (RingBuffer.attach region)
         | None => Worker.commandRingBuffer w
         end;
       Worker.tempBufferInterleaved := replicate (Z.to_nat (blockSize * 2)) zero;
       Worker.isReady := true;
       Worker.targetBufferSize := target;
       Worker.bufferSize := blockSize;
       Worker.posted := Worker.posted w ++ [Worker.Ready] |} in
  let first := Worker.renderLoop nan rendered ready in
  let w' := snd (handleInit nan zero rendered h data w) in
  handleInit nan zero rendered h data w
  = match fst first with
    | Worker.Uncaught =>
        (None, Worker.with_posted (snd first) (Worker.Error (thrown h)))
    | s => (Some s, snd first)
    end /\
  (exists rest,
      Worker.moduleInstance w'
      = Some ([Engine.Init 0 blockSize; Engine.SetVolume gain] ++ rest)) /\
  (exists outcome, Worker.posted w' = Worker.posted w ++ Worker.Ready :: outcome) /\
  Worker.isReady w' = true /\
  Worker.bufferSize w' = blockSize /\
  Worker.targetBufferSize w' = target /\
  (forall arb,
      Worker.audioRingBuffer ready = Some arb ->
      Rep.audio arb -> AudioRingBuffer.channelCount arb = 2 ->
      AudioRingBuffer.readIndex arb = AudioRingBuffer.writeIndex arb ->
      blockSize <= AudioRingBuffer.capacity arb -> 0 < target ->
      exists e1 arb',
        Worker.moduleInstance <$> Worker.processCommands ready = Some (Some e1) /\
        Worker.moduleInstance w' = Some (e1 ++ [Engine.Render blockSize]) /\
        Worker.audioRingBuffer w' = Some arb' /\
        AudioRingBuffer.writeIndex arb'
        = JS.toInt32 (AudioRingBuffer.writeIndex arb + blockSize) /\
        AudioRingBuffer.readIndex arb' = AudioRingBuffer.readIndex arb /\
        fst (handleInit nan zero rendered h data w)
        = Some (if AudioRingBuffer.availableRead arb' <? target
                then Worker.QueueMicrotask else Worker.SetTimeout 0)).
Proof.
  intros Hload Hbs blockSize target gain ready first w'.
  assert (Hneg : (blockSize <? 0) = false).
  { apply Z.ltb_ge. subst blockSize. destruct (bufferSize data =? 0); lia. }
  assert (Hrun : handleInit nan zero rendered h data w
                 = match fst first with
                   | Worker.Uncaught =>
                       (None, Worker.with_posted (snd first) (Worker.Error (thrown h)))
                   | s => (Some s, snd first)
                   end).
  { unfold handleInit, initWasm. rewrite Hload. fold blockSize target gain.
    rewrite Hneg. change (readied zero _ _ _) with ready. fold first.
    destruct first as [[] ?]; reflexivity. }
  pose proof (renderLoop_extends ready
                [Engine.Init 0 blockSize; Engine.SetVolume gain] eq_refl)
    as (Hengine & Hready & Hblock & Htarget & Hposted).
  fold first in Hengine, Hready, Hblock, Htarget, Hposted.
  split; [exact Hrun|]. subst w'. rewrite Hrun.
  assert (Hsame : forall r : Worker.t sample,
             let r' := snd match fst first with
                           | Worker.Uncaught =>
                               (None, Worker.with_posted r (Worker.Error (thrown h)))
                           | s => (Some s, r)
                           end in
             Worker.moduleInstance r' = Worker.moduleInstance r /\
             Worker.isReady r' = Worker.isReady r /\
             Worker.bufferSize r' = Worker.bufferSize r /\
             Worker.targetBufferSize r' = Worker.targetBufferSize r /\
             Worker.audioRingBuffer r' = Worker.audioRingBuffer r).
  { intros r. destruct (fst first); repeat split; reflexivity. }
  destruct (Hsame (snd first)) as (-> & -> & -> & -> & Haudio).
  split; [exact Hengine|]. split.
  { destruct (fst first);
      cbn [snd Worker.with_posted Worker.posted]; rewrite Hposted;
      change (Worker.posted ready) with (Worker.posted w ++ [Worker.Ready]);
      [exists []; reflexivity | exists []; reflexivity
      | exists [Worker.Error (thrown h)]; rewrite <- app_assoc; reflexivity]. }
  split; [exact Hready|]. split; [exact Hblock|]. split; [exact Htarget|].
  intros arb Harb Ha Hcc Hempty Hroom Htpos. rewrite Haudio.
  destruct (renderLoop_producer ready arb
              [Engine.Init 0 blockSize; Engine.SetVolume gain])
    as (Hcaught & _ & e1 & e' & arb' & Hpc & He' & Harb' & _ & _ & Hri & _ & _ & Hopen);
    try reflexivity; try assumption.
  { cbn [Worker.bufferSize ready]. lia. }
  { cbn [Worker.tempBufferInterleaved Worker.bufferSize ready].
    rewrite length_replicate. lia. }
  fold first in Hcaught, He', Harb', Hopen.
  cbn [Worker.bufferSize Worker.targetBufferSize ready] in Hopen.
  destruct Hopen as (Hs & -> & Hwi).
  { unfold AudioRingBuffer.availableRead. lia. }
  { unfold AudioRingBuffer.availableWrite. lia. }
  exists e1, arb'. repeat split; try assumption.
  rewrite <- Hs. destruct (fst first); [reflexivity..|contradiction].
Qed.

(** X8. A bring-up that fails. When the engine cannot be loaded, the
    ['init'] message posts one ['error'] with the message of the failure
    and starts no render loop; a worker that was neither ready nor had an
    engine stays so, and ignores every ['note-on'], ['note-off'],
    ['set-volume'] and ['load-preset'] message that follows. *)
Theorem worker_bringup_failed (h : host) (data : config sample) (w : Worker.t sample)
    (message : string) :
  loadEngine h = Some message ->
  Worker.isReady w = false -> Worker.moduleInstance w = None ->
  let w' := snd (handleInit nan zero rendered h data w) in
  fst (handleInit nan zero rendered h data w) = None /\
  Worker.posted w' = Worker.posted w ++ [Worker.Error message] /\
  Worker.isReady w' = false /\ Worker.moduleInstance w' = None /\
  forall m, Worker.handleCommand m w' = Some w'.
Proof.
  intros Hload Hready He w'. subst w'.
  unfold handleInit, initWasm. rewrite Hload.
  cbn [fst snd Worker.with_posted Worker.posted Worker.isReady Worker.moduleInstance].
  repeat split; try assumption.
  intros m. unfold Worker.handleCommand.
  cbn [Worker.isReady Worker.moduleInstance]. rewrite Hready, He. reflexivity.
Qed.

End Samples.

(** The ['init'] message of the SDK, with the sample rate of the context,
    in a worker that has just been loaded: the first run of the loop has
    rendered one block of 128 frames and asks for the next one at once. *)
Lemma worker_bringup_witness :
  let data :=
    {| Bringup.sampleRate := 48000; Bringup.bufferSize := 128;
       Bringup.volume := 1%Q;
       Bringup.audioSab := Some (AudioRingBuffer.create Scenario.silence 2 4096);
       Bringup.commandSab := Some (RingBuffer.create 4096);
       Bringup.targetBufferFrames := 1024 |} in
  let h := {| Bringup.loadEngine := None; Bringup.thrown := EmptyString |} in
  let r := Bringup.handleInit Scenario.NotANumber Scenario.silence
             Scenario.tone h data Bringup.loaded in
  fst r = Some Worker.QueueMicrotask /\
  Worker.moduleInstance (snd r)
  = Some [Engine.Init 0 128; Engine.SetVolume 1; Engine.Render 128] /\
  Worker.isReady (snd r) = true /\
  Worker.posted (snd r) = [Worker.Ready] /\
  (AudioRingBuffer.writeIndex <$> Worker.audioRingBuffer (snd r)) = Some 128.
Proof.
  intros data h r.
  destruct (worker_bringup Scenario.NotANumber Scenario.silence
              Scenario.tone h data Bringup.loaded)
    as (Hrun & _).
  - reflexivity.
  - vm_compute. discriminate.
  - subst r. rewrite Hrun. vm_compute. repeat split.
Defined.

(** The same message when the import of the engine fails. *)
Lemma worker_bringup_failed_witness :
  let data :=
    {| Bringup.sampleRate := 48000; Bringup.bufferSize := 128;
       Bringup.volume := 1%Q;
       Bringup.audioSab := Some (AudioRingBuffer.create Scenario.silence 2 4096);
       Bringup.commandSab := Some (RingBuffer.create 4096);
       Bringup.targetBufferFrames := 1024 |} in
  let h := {| Bringup.loadEngine := Some "Failed to fetch"%string;
              Bringup.thrown := EmptyString |} in
  let w' := snd (Bringup.handleInit Scenario.NotANumber Scenario.silence
                   Scenario.tone h data Bringup.loaded) in
  Worker.posted w' = [Worker.Error "Failed to fetch"] /\
  Worker.handleCommand (Worker.MsgNoteOn 60 (4 # 5)) w' = Some w'.
Proof.
  intros data h w'.
  destruct (worker_bringup_failed Scenario.NotANumber Scenario.silence
              Scenario.tone h data Bringup.loaded "Failed to fetch")
    as (_ & Hposted & _ & _ & Hignored).
  - reflexivity.
  - reflexivity.
  - reflexivity.
  - split; [exact Hposted|apply Hignored].
Defined.

End BringupFacts.

(** ** Life cycle of a VitalSDK and of the store *)

Module LifecycleFacts.

Import Lifecycle.

Section Samples.

Context {sample : Type} (nan zero : sample).
Context (rendered : Engine.handle -> Z -> list sample * list sample).
Context {preset : Type} (prepare : preset -> SDK.error + list Z).
Context (load_preset_rc : Engine.handle -> list Z -> Z).

Implicit Types s : SDK.t sample.



(** An [init()] that is rejected leaves [initialized] false. *)
Lemma init_rejected (env : SDK.env) s (err : SDK.error) :
  fst (SDK.init nan zero rendered env s) = SDK.Rejected err ->
  SDK.initialized (snd (SDK.init nan zero rendered env s)) = false.
Proof.
  unfold SDK.init.
  destruct (SDK.initialized s) eqn:Hinit; [discriminate|].
  destruct (SDK.newAudioContext env); [intros _; exact Hinit|].
  match goal with
  | |- context [let '(r, s2) := ?x in _] => destruct x as [r s2]
  end.
  destruct r; cbn [fst snd]; try discriminate. reflexivity.
Qed.

(** The methods of an object whose [initialized] is false. *)
Lemma uninitialized_inert s :
  SDK.initialized s = false ->
  (forall note velocity, SDK.noteOn note velocity s = (None, s)) /\
  (forall note, SDK.noteOff note s = (None, s)) /\
  (forall volume, SDK.setVolume volume s = s) /\
  (forall p, SDK.loadPreset prepare load_preset_rc p s
             = (SDK.Rejected (SDK.mkError "Error" "VitalSDK not initialized"), s)) /\
  SDK.isWorklet s = false.
Proof.
  intros Hinit. unfold SDK.noteOn, SDK.noteOff, SDK.setVolume, SDK.loadPreset,
    SDK.isWorklet. rewrite Hinit. repeat split; reflexivity.
Qed.

(** X9. After [destroy()]. Whatever the object was doing, [destroy()]
    leaves it inert: [noteOn], [noteOff] and [setVolume] do nothing,
    [loadPreset] is rejected with ['VitalSDK not initialized'], [isWorklet]
    is false, and an audio-process event of the old script node does not
    reach the engine any more, the output being left as it is. A second
    [destroy()] changes nothing. *)
Theorem destroyed_inert s :
  let d := destroy s in
  (forall note velocity, SDK.noteOn note velocity d = (None, d)) /\
  (forall note, SDK.noteOff note d = (None, d)) /\
  (forall volume, SDK.setVolume volume d = d) /\
  (forall p, SDK.loadPreset prepare load_preset_rc p d
             = (SDK.Rejected (SDK.mkError "Error" "VitalSDK not initialized"), d)) /\
  SDK.isWorklet d = false /\
  (forall bufferL bufferR,
      SDK.onaudioprocess rendered bufferL bufferR d = (Some (bufferL, bufferR), d)) /\
  destroy d = d.
Proof.
  intros d.
  destruct (uninitialized_inert d eq_refl) as (Hon & Hoff & Hvol & Hpreset & Hwl).
  split; [exact Hon|]. split; [exact Hoff|]. split; [exact Hvol|].
  split; [exact Hpreset|]. split; [exact Hwl|].
  subst d. unfold destroy, SDK.onaudioprocess.
  cbn [SDK.moduleInstance SDK.outLPtr SDK.outRPtr SDK.sampleRate SDK.bufferSize
       SDK.toWorker SDK.useWorklet SDK.workletNode SDK.ringBuffer SDK.audioRingBuffer].
  destruct (SDK.moduleInstance s) as [e|] eqn:He.
  - assert (Hsome : bool_decide (is_Some (Some e)) = true)
      by (apply bool_decide_eq_true; eauto).
    rewrite Hsome, !andb_true_r.
    destruct (SDK.outLPtr s =? 0) eqn:Hptr; cbn [negb Z.eqb orb andb].
    + rewrite Hptr. cbn [negb orb]. split; reflexivity.
    + split; reflexivity.
  - assert (Hnone : bool_decide (is_Some (@None Engine.handle)) = false).
    { apply bool_decide_eq_false. intros [x Hx]. discriminate. }
    rewrite Hnone, !andb_false_r. split; reflexivity.
Qed.

(** X10. An [init()] that is rejected leaves the object inert, in either
    mode and whichever step failed: [initialized] is false again, so
    [noteOn], [noteOff] and [setVolume] do nothing and [loadPreset] is
    rejected; and [init()] may be called again, since it does not return at
    its first test. An [init()] that resolved leaves [initialized] true,
    and a second [init()] then resolves at once and changes nothing. *)
Theorem init_settled (env : SDK.env) s :
  let s' := snd (SDK.init nan zero rendered env s) in
  (forall err, fst (SDK.init nan zero rendered env s) = SDK.Rejected err ->
     SDK.initialized s' = false /\
     (forall note velocity, SDK.noteOn note velocity s' = (None, s')) /\
     (forall note, SDK.noteOff note s' = (None, s')) /\
     (forall volume, SDK.setVolume volume s' = s') /\
     (forall p, SDK.loadPreset prepare load_preset_rc p s'
                = (SDK.Rejected (SDK.mkError "Error" "VitalSDK not initialized"), s'))) /\
  (fst (SDK.init nan zero rendered env s) = SDK.Resolved ->
     SDK.initialized s' = true /\
     forall env', SDK.init nan zero rendered env' s' = (SDK.Resolved, s')).
Proof.
  intros s'. split.
  - intros err Hrej. pose proof (init_rejected env s err Hrej) as Hinit.
    fold s' in Hinit.
    destruct (uninitialized_inert s' Hinit) as (Hon & Hoff & Hvol & Hpreset & _).
    auto.
  - intros Hres.
    assert (Hinit : SDK.initialized s' = true).
    { subst s'. revert Hres. unfold SDK.init.
      destruct (SDK.initialized s) eqn:Hi; [intros _; exact Hi|].
      destruct (SDK.newAudioContext env); [discriminate|].
      destruct (SDK.useWorklet _) eqn:Hwl.
      - cbn [SDK.useWorklet] in Hwl.
        destruct (SDK.newWorker env); [discriminate|].
        destruct (SDK.addModule env); [discriminate|].
        unfold SDK.initWorkletAndWorker.
        destruct (SDK.newSharedArrayBuffer env); [discriminate|].
        destruct (SDK.newWorkletNode env); [discriminate|].
        destruct (SDK.workerReply env) as [[|m|]|]; try discriminate.
        reflexivity.
      - unfold SDK.initScriptProcessor.
        destruct (SDK.loadWasm env); [discriminate|].
        destruct (SDK.createScriptProcessor env _); [discriminate|].
        reflexivity. }
    split; [exact Hinit|].
    intros env'. unfold SDK.init at 1. rewrite Hinit. reflexivity.
Qed.

End Samples.

End LifecycleFacts.

(** ** The store: the other ways [initialize()] can end *)

Module StoreInit.

Section Samples.

Context {sample : Type} (nan zero : sample).
Context (rendered : Engine.handle -> Z -> list sample * list sample).


(** X12. An [initialize()] that fails can be tried again. When every
    [init()] that [initialize()] attempts is rejected (the first one, in
    the mode the settings ask for, and, where the script processor is not
    forced, the fallback), the store is
    neither initialized nor loading, it holds an error message, and it
    keeps no instance, so that [noteOn] and [noteOff] of the store do
    nothing; nothing else of the store has changed, and a later
    [initialize()] does exactly what it would have done in the first
    place. *)
Theorem initialize_failed (env : SDK.env) (st : Store.t sample) :
  Store.isInitialized st = false ->
  Store.isLoading st = false ->
  Store.vitalInstance st = None ->
  (exists err,
      fst (SDK.init nan zero rendered env
             (SDK.new (Store.bufferSize st) (negb (Store.forceScriptProcessor st))))
      = SDK.Rejected err) ->
  (Store.forceScriptProcessor st = false ->
   exists err,
     fst (SDK.init nan zero rendered env (SDK.new (Store.bufferSize st) false))
     = SDK.Rejected err) ->
  let st' := Store.initialize nan zero rendered env st in
  Store.isInitialized st' = false /\ Store.isLoading st' = false /\
  is_Some (Store.initializationError st') /\
  Store.vitalInstance st' = None /\
  Store.bufferSize st' = Store.bufferSize st /\
  Store.volume st' = Store.volume st /\
  Store.processorType st' = Store.processorType st /\
  Store.forceScriptProcessor st' = Store.forceScriptProcessor st /\
  (forall note velocity, Store.noteOn note velocity st' = st') /\
  (forall note, Store.noteOff note st' = st') /\
  forall env', Store.initialize nan zero rendered env' st'
               = Store.initialize nan zero rendered env' st.
Proof.
  intros Hinit Hload Hvital Hfirst Hfallback st'.
  assert (Hst' : exists err, st' = Store.failed
            {| Store.isInitialized := Store.isInitialized st; Store.isLoading := true;
               Store.initializationError := None;
               Store.bufferSize := Store.bufferSize st;
               Store.volume := Store.volume st;
               Store.processorType := Store.processorType st;
               Store.forceScriptProcessor := Store.forceScriptProcessor st;
               Store.vitalInstance := Store.vitalInstance st |} err).
  { subst st'. unfold Store.initialize. rewrite Hinit, Hload.
    cbn [orb Store.bufferSize Store.forceScriptProcessor Store.processorType].
    destruct (Store.forceScriptProcessor st) eqn:Hforce; cbn [negb] in *.
    - destruct Hfirst as [err Herr].
      destruct (SDK.init nan zero rendered env (SDK.new (Store.bufferSize st) false))
        as [r v].
      cbn [fst] in Herr. subst r. exists err. reflexivity.
    - destruct Hfirst as [err1 Herr1].
      destruct (SDK.init nan zero rendered env (SDK.new (Store.bufferSize st) true))
        as [r1 v1].
      cbn [fst] in Herr1. subst r1.
      destruct (Hfallback eq_refl) as [err2 Herr2].
      destruct (SDK.init nan zero rendered env (SDK.new (Store.bufferSize st) false))
        as [r2 v2].
      cbn [fst] in Herr2. subst r2. exists err2. reflexivity. }
  destruct Hst' as [err ->]. unfold Store.failed.
  cbn [Store.isInitialized Store.isLoading Store.initializationError
       Store.vitalInstance Store.bufferSize Store.volume Store.processorType
       Store.forceScriptProcessor].
  split; [exact Hinit|]. split; [reflexivity|]. split; [eauto|].
  split; [exact Hvital|]. do 4 (split; [reflexivity|]).
  split; [|split].
  - intros note velocity. unfold Store.noteOn.
    cbn [Store.vitalInstance]. rewrite Hvital. reflexivity.
  - intros note. unfold Store.noteOff.
    cbn [Store.vitalInstance]. rewrite Hvital. reflexivity.
  - intros env'. unfold Store.initialize.
    cbn [Store.isInitialized Store.isLoading Store.initializationError
         Store.vitalInstance Store.bufferSize Store.volume Store.processorType
         Store.forceScriptProcessor].
    rewrite Hinit, Hload. reflexivity.
Qed.

(** X13. A worker that never answers. When every step of the dual-context
    bring-up succeeds on the main thread and the worker posts neither
    ['ready'] nor ['error'], the promise of [init()] never settles:
    [initialize()] leaves the store loading, not initialized, without an
    instance and without an error message, and no fallback is tried; every
    later [initialize()] returns at its first test and changes nothing. *)
Theorem initialize_pending (env env' : SDK.env) (st : Store.t sample) :
  Store.isInitialized st = false ->
  Store.isLoading st = false ->
  Store.forceScriptProcessor st = false ->
  SDK.newAudioContext env = None -> SDK.newWorker env = None ->
  SDK.addModule env = None -> SDK.newSharedArrayBuffer env = None ->
  SDK.newWorkletNode env = None -> SDK.workerReply env = None ->
  let st' := Store.initialize nan zero rendered env st in
  Store.isLoading st' = true /\ Store.isInitialized st' = false /\
  Store.vitalInstance st' = Store.vitalInstance st /\
  Store.initializationError st' = None /\
  Store.processorType st' = Store.processorType st /\
  Store.initialize nan zero rendered env' st' = st'.
Proof.
  intros Hinit Hload Hforce Hctx Hworker Hmodule Hsab Hnode Hreply st'.
  assert (Hrun : st'
                 = {| Store.isInitialized := Store.isInitialized st;
                      Store.isLoading := true;
                      Store.initializationError := None;
                      Store.bufferSize := Store.bufferSize st;
                      Store.volume := Store.volume st;
                      Store.processorType := Store.processorType st;
                      Store.forceScriptProcessor := Store.forceScriptProcessor st;
                      Store.vitalInstance := Store.vitalInstance st |}).
  { assert (Hpending : fst (SDK.init nan zero rendered env
                                 (SDK.new (Store.bufferSize st) true)) = SDK.Pending).
    { unfold SDK.init, SDK.new, SDK.initWorkletAndWorker.
      cbn -[Z.mul Z.eqb RingBuffer.create AudioRingBuffer.create SDK.workerAtReady
            SDK.with_shared_audio].
      rewrite Hctx, Hworker, Hmodule, Hsab, Hnode, Hreply. reflexivity. }
    subst st'. unfold Store.initialize. rewrite Hinit, Hload.
    cbn [orb negb Store.bufferSize Store.forceScriptProcessor]. rewrite Hforce.
    cbn [negb].
    destruct (SDK.init nan zero rendered env (SDK.new (Store.bufferSize st) true))
      as [r v].
    cbn [fst] in Hpending. subst r. reflexivity. }
  rewrite Hrun.
  cbn [Store.isLoading Store.isInitialized Store.vitalInstance
       Store.initializationError Store.processorType].
  repeat (split; [reflexivity || assumption|]).
  unfold Store.initialize. cbn [Store.isLoading Store.isInitialized].
  rewrite orb_true_r. reflexivity.
Qed.

End Samples.


(** The script processor forced by the settings, in a host where the
    engine cannot be loaded on the main thread (the dual-context bring-up
    would succeed there): the one attempt fails, and the retry in a host
    where it works is the first attempt there. *)
Lemma initialize_failed_witness :
  let env :=
    {| SDK.newAudioContext := None;
       SDK.contextSampleRate := 48000;
       SDK.newWorker := None; SDK.addModule := None;
       SDK.newSharedArrayBuffer := None; SDK.newWorkletNode := None;
       SDK.workerReply := Some Worker.Ready; SDK.workerRuns := 0;
       SDK.loadWasm := Some (SDK.mkError "TypeError" "Failed to fetch");
       SDK.malloc := fun bytes => 65536 + bytes;
       SDK.createScriptProcessor := fun _ => None |} in
  let st :=
    {| Store.isInitialized := false; Store.isLoading := false;
       Store.initializationError := None; Store.bufferSize := 1024;
       Store.volume := (4 # 5)%Q; Store.processorType := "Unknown";
       Store.forceScriptProcessor := true;
       Store.vitalInstance := @None (SDK.t Scenario.pcm) |} in
  let st' := Store.initialize Scenario.NotANumber Scenario.silence Scenario.tone
               env st in
  Store.isInitialized st' = false /\
  Store.initializationError st' = Some "Failed to fetch"%string /\
  Store.initialize Scenario.NotANumber Scenario.silence Scenario.tone
    Scenario.ready_env st'
  = Store.initialize Scenario.NotANumber Scenario.silence Scenario.tone
      Scenario.ready_env st.
Proof.
  intros env st st'.
  destruct (initialize_failed Scenario.NotANumber Scenario.silence Scenario.tone
              env st)
    as (Hinit & _ & _ & _ & _ & _ & _ & _ & _ & _ & Hretry).
  - reflexivity.
  - reflexivity.
  - reflexivity.
  - eexists. reflexivity.
  - discriminate.
  - split; [exact Hinit|]. split; [reflexivity|]. apply Hretry.
Defined.

(** A host whose worker script never runs. *)
Lemma initialize_pending_witness :
  let st' := Store.initialize Scenario.NotANumber Scenario.silence Scenario.tone
               Scenario.silent_worker_env Scenario.fresh_store in
  Store.isLoading st' = true /\
  Store.initialize Scenario.NotANumber Scenario.silence Scenario.tone
    Scenario.ready_env st' = st'.
Proof.
  intros st'.
  destruct (initialize_pending Scenario.NotANumber Scenario.silence Scenario.tone
              Scenario.silent_worker_env Scenario.ready_env Scenario.fresh_store)
    as (Hloading & _ & _ & _ & _ & Hretry); try reflexivity.
  split; [exact Hloading|exact Hretry].
Defined.

End StoreInit.

(** ** The single-context render callback *)

Module ScriptProcessor.

Section Samples.

Context {sample : Type}.
Context (rendered : Engine.handle -> Z -> list sample * list sample).

(** X14. The single-context render callback. With an engine and the two
    output pointers in place, an audio-process event makes the engine
    render once, for as many frames as the left output channel holds, and
    copies the two views of the engine to the front of the two output
    channels: when the views are as long as the channels, the channels
    hold the views, left to left and right to right. A view that is
    longer than its channel makes the copy throw, after the engine has
    rendered. *)
Theorem script_processor_block (s : SDK.t sample) (e : Engine.handle)
    (bufferL bufferR : list sample) :
  SDK.moduleInstance s = Some e ->
  SDK.outLPtr s <> 0 -> SDK.outRPtr s <> 0 ->
  let len := Z.of_nat (length bufferL) in
  let e' := e ++ [Engine.Render len] in
  let viewL := fst (rendered e' len) in
  let viewR := snd (rendered e' len) in
  ((length viewL <= length bufferL)%nat -> (length viewR <= length bufferR)%nat ->
   SDK.onaudioprocess rendered bufferL bufferR s
   = (Some (viewL ++ drop (length viewL) bufferL,
            viewR ++ drop (length viewR) bufferR), SDK.with_engine s e')) /\
  (length viewL = length bufferL -> length viewR = length bufferR ->
   SDK.onaudioprocess rendered bufferL bufferR s
   = (Some (viewL, viewR), SDK.with_engine s e')) /\
  ((length bufferL < length viewL)%nat \/ (length bufferR < length viewR)%nat ->
   SDK.onaudioprocess rendered bufferL bufferR s = (None, SDK.with_engine s e')).
Proof.
  intros He HL HR len e' viewL viewR.
  assert (Hrun : SDK.onaudioprocess rendered bufferL bufferR s
                 = match JS.set viewL 0 bufferL, JS.set viewR 0 bufferR with
                   | Some l, Some r => (Some (l, r), SDK.with_engine s e')
                   | _, _ => (None, SDK.with_engine s e')
                   end).
  { unfold SDK.onaudioprocess. rewrite He.
    destruct (Z.eqb_spec (SDK.outLPtr s) 0); [contradiction|].
    destruct (Z.eqb_spec (SDK.outRPtr s) 0); [contradiction|].
    cbn [orb]. fold len. fold e'. subst viewL viewR.
    destruct (rendered e' len) as [l r]. reflexivity. }
  rewrite Hrun. split; [|split].
  - intros HfitL HfitR. rewrite !JSFacts.set_front by assumption. reflexivity.
  - intros HeqL HeqR. rewrite !JSFacts.set_front by lia.
    rewrite !drop_ge, !app_nil_r by lia. reflexivity.
  - intros Hlong. unfold JS.set.
    destruct Hlong as [Hlong|Hlong].
    + destruct (Z.ltb_spec (Z.of_nat (length bufferL)) (0 + Z.of_nat (length viewL)));
        [reflexivity|lia].
    + destruct (Z.ltb_spec (Z.of_nat (length bufferR)) (0 + Z.of_nat (length viewR)));
        [|lia].
      cbn [orb]. destruct (_ || _); reflexivity.
Qed.

End Samples.

(** The instance the store keeps on a host without [SharedArrayBuffer],
    with an output of four frames. *)
Lemma script_processor_block_witness :
  SDK.onaudioprocess Scenario.tone (replicate 4 Scenario.silence)
    (replicate 4 Scenario.silence)
    (snd (SDK.init Scenario.NotANumber Scenario.silence Scenario.tone
            Scenario.unsupported_env (SDK.new 1024 false)))
  = (Some (replicate 4 (Scenario.Level 1), replicate 4 (Scenario.Level (-1))),
     SDK.with_engine
       (snd (SDK.init Scenario.NotANumber Scenario.silence Scenario.tone
               Scenario.unsupported_env (SDK.new 1024 false)))
       [Engine.Init 48000 1024; Engine.Render 4]).
Proof.
  destruct (script_processor_block Scenario.tone
              (snd (SDK.init Scenario.NotANumber Scenario.silence Scenario.tone
                      Scenario.unsupported_env (SDK.new 1024 false)))
              [Engine.Init 48000 1024]
              (replicate 4 Scenario.silence) (replicate 4 Scenario.silence))
    as (_ & Hsame & _).
  - reflexivity.
  - vm_compute. discriminate.
  - vm_compute. discriminate.
  - apply Hsame; reflexivity.
Defined.

End ScriptProcessor.

(** ** Note names and keys: properties *)

Module KeyboardFacts.

Import Keyboard.

(** The offset of a column of the grid. *)
Lemma column_offset c :
  1 <= c <= 7 ->
  exists offset,
    JS.get scaleOffsets (Some (c - 1)) = Some offset /\
    0 <= offset <= 11 /\
    (c = 1 /\ offset = 0 \/ c = 2 /\ offset = 2 \/ c = 3 /\ offset = 4 \/
     c = 4 /\ offset = 5 \/ c = 5 /\ offset = 7 \/ c = 6 /\ offset = 9 \/
     c = 7 /\ offset = 11).
Proof.
  intros Hc.
  assert (Hcases : c = 1 \/ c = 2 \/ c = 3 \/ c = 4 \/ c = 5 \/ c = 6 \/ c = 7) by lia.
  destruct Hcases as [->|[->|[->|[->|[->|[->| ->]]]]]];
    eexists; (split; [reflexivity|]); (split; [lia|]); tauto.
Qed.

(** X15. The notes of the grid. With the base octave between 0 and 8, as
    [shiftOctave] keeps it, the key in row [r] of 3 and column [c] of 7
    sends the note [12 * (baseOctave + 4 - r)] plus the offset of its
    column in the C major scale: the bottom row is the lowest, and the rows
    are an octave apart; two keys that send the same note are the same
    key; every note lies between 12 and 143 and so fits the one byte it
    has in a record of the ControlQueue. Up to base octave 6 every note is
    at most 127; from base octave 7 on the top row goes beyond 127. *)
Theorem grid_notes (baseOctave r c r' c' : Z) :
  0 <= baseOctave <= 8 ->
  1 <= r <= 3 -> 1 <= c <= 7 -> 1 <= r' <= 3 -> 1 <= c' <= 7 ->
  let note := midiNote (getKeyInfo baseOctave r c) in
  (exists offset,
      JS.get scaleOffsets (Some (c - 1)) = Some offset /\
      note = 12 * (baseOctave + 4 - r) + offset) /\
  12 <= note <= 143 /\ JS.toUint8 note = note /\
  (baseOctave <= 6 -> note <= 127) /\
  (7 <= baseOctave -> 127 < midiNote (getKeyInfo baseOctave 1 7)) /\
  (note = midiNote (getKeyInfo baseOctave r' c') -> r = r' /\ c = c') /\
  (r' < r -> note < midiNote (getKeyInfo baseOctave r' c')).
Proof.
  intros Hbase Hr Hc Hr' Hc' note. subst note.
  unfold getKeyInfo, rows. cbn [midiNote].
  destruct (column_offset c Hc) as (offset & -> & Hoff & Hcol).
  destruct (column_offset c' Hc') as (offset' & -> & Hoff' & Hcol').
  cbn [from_option id].
  split; [exists offset; split; [reflexivity|lia]|].
  split; [lia|].
  split; [unfold JS.toUint8; apply Z.mod_small; lia|].
  split; [lia|].
  split.
  { intros Hhigh. change (JS.get scaleOffsets (Some (7 - 1))) with (Some 11).
    cbn [from_option id]. lia. }
  split; [|lia].
  intros Heq.
  assert (Hrow : r = r') by lia. subst r'.
  split; [reflexivity|]. lia.
Qed.

Lemma grid_notes_witness :
  midiNote (getKeyInfo 3 3 1) = 48 /\ midiNote (getKeyInfo 3 1 7) = 83 /\
  127 < midiNote (getKeyInfo 8 1 7).
Proof.
  destruct (grid_notes 3 3 1 1 7) as ((offset & Hoff & Hnote) & _); try lia.
  destruct (grid_notes 3 1 7 3 1) as ((offset' & Hoff' & Hnote') & _); try lia.
  destruct (grid_notes 8 1 7 1 7) as (_ & _ & _ & _ & Hhigh & _); try lia.
  cbv zeta in *. injection Hoff as <-. injection Hoff' as <-.
  split; [exact Hnote|]. split; [exact Hnote'|]. apply Hhigh. lia.
Defined.

(** X16. The base octave stays on the keyboard. From a base octave between
    0 and 8 (the store starts at 3), any sequence of [shiftOctave] calls,
    by whatever amounts, leaves it between 0 and 8; a shift that would
    leave this range is dropped whole, it is not cut short at the end of
    the range. *)
Theorem octave_range (deltas : list Z) (baseOctave delta : Z) :
  0 <= baseOctave <= 8 ->
  0 <= foldl (fun octave delta => shiftOctave delta octave) baseOctave deltas <= 8 /\
  (0 <= baseOctave + delta <= 8 -> shiftOctave delta baseOctave = baseOctave + delta) /\
  (baseOctave + delta < 0 \/ 8 < baseOctave + delta ->
   shiftOctave delta baseOctave = baseOctave).
Proof.
  intros Hbase. split.
  - revert baseOctave Hbase.
    induction deltas as [|d deltas IH]; intros baseOctave Hbase; cbn [foldl].
    + exact Hbase.
    + apply IH. unfold shiftOctave.
      destruct (Z.leb_spec 0 (baseOctave + d));
        destruct (Z.leb_spec (baseOctave + d) 8); cbn [andb]; lia.
  - unfold shiftOctave.
    destruct (Z.leb_spec 0 (baseOctave + delta));
      destruct (Z.leb_spec (baseOctave + delta) 8); cbn [andb]; split; intros; lia.
Qed.

(** Six steps up from 3 end at 8, one step down gives 7; from 7, two
    steps up at once are dropped. *)
Lemma octave_range_witness :
  0 <= foldl (fun octave delta => shiftOctave delta octave) 3 [1; 1; 1; 1; 1; 1; -1] <= 8 /\
  shiftOctave 2 7 = 7.
Proof.
  destruct (octave_range [1; 1; 1; 1; 1; 1; -1] 3 0) as [Hrange _]; [lia|].
  destruct (octave_range [] 7 2) as (_ & _ & Hdropped); [lia|].
  split; [exact Hrange|]. apply Hdropped. lia.
Defined.

(** X17. A key releases a note once. Whatever pointer events reach a key,
    in whatever order, every [noteOff] it sends comes right after a
    [noteOn] it has sent, with no other call in between (a second
    [mouseup], or a [mouseleave] after the [mouseup], sends nothing); all
    its calls carry its own note; and the key reads as pressed exactly
    when the last event was a start. *)
Theorem key_releases_once (midiNote : Z) (gestures : list gesture) :
  let k := foldl (handle midiNote) {| isPressed := false; calls := [] |} gestures in
  (forall (i : nat) m, calls k !! i = Some (NoteOff m) ->
     exists j : nat, i = S j /\ calls k !! j = Some (NoteOn midiNote)) /\
  Forall (fun c => c = NoteOn midiNote \/ c = NoteOff midiNote) (calls k) /\
  isPressed k = match last gestures with Some Start => true | _ => false end.
Proof.
  intros k. subst k.
  set (inv := fun k : key =>
    (forall (i : nat) m, calls k !! i = Some (NoteOff m) ->
       exists j : nat, i = S j /\ calls k !! j = Some (NoteOn midiNote)) /\
    Forall (fun c => c = NoteOn midiNote \/ c = NoteOff midiNote) (calls k) /\
    (isPressed k = true -> last (calls k) = Some (NoteOn midiNote))).
  assert (Hhandle : forall k g, inv k ->
            inv (handle midiNote k g) /\
            isPressed (handle midiNote k g)
            = match g with Start => true | Stop => false end).
  { intros k g (Hoff & Hall & Hlast).
    destruct g; cbn [handle]; unfold startNote, stopNote.
    - split; [|reflexivity]. split; [|split]; cbn [calls isPressed].
      + intros i m Hi.
        destruct (Nat.lt_ge_cases i (length (calls k))) as [Hlt|Hge].
        * rewrite lookup_app_l in Hi by exact Hlt.
          destruct (Hoff i m Hi) as (j & -> & Hj).
          exists j. split; [reflexivity|].
          rewrite lookup_app_l by lia. exact Hj.
        * rewrite lookup_app_r in Hi by exact Hge.
          destruct (i - length (calls k))%nat as [|n]; [discriminate|].
          destruct n; discriminate.
      + apply Forall_app. split; [exact Hall|]. constructor; [auto|constructor].
      + intros _. apply last_snoc.
    - destruct (isPressed k) eqn:Hp.
      + split; [|reflexivity]. split; [|split]; cbn [calls isPressed].
        * intros i m Hi.
          destruct (Nat.lt_ge_cases i (length (calls k))) as [Hlt|Hge].
          -- rewrite lookup_app_l in Hi by exact Hlt.
             destruct (Hoff i m Hi) as (j & -> & Hj).
             exists j. split; [reflexivity|].
             rewrite lookup_app_l by lia. exact Hj.
          -- specialize (Hlast eq_refl). rewrite last_lookup in Hlast.
             assert (Hlen : (0 < length (calls k))%nat).
             { destruct (calls k); [discriminate|cbn [length]; lia]. }
             assert (Hi' : i = length (calls k)).
             { apply lookup_lt_Some in Hi. rewrite length_app in Hi.
               cbn [length] in Hi. lia. }
             exists (pred (length (calls k))). split; [lia|].
             rewrite lookup_app_l by lia. exact Hlast.
        * apply Forall_app. split; [exact Hall|]. constructor; [auto|constructor].
        * discriminate.
      + split; [|exact Hp]. split; [exact Hoff|]. split; [exact Hall|].
        rewrite Hp. discriminate. }
  assert (Hrun : forall gs k, inv k ->
            inv (foldl (handle midiNote) k gs) /\
            isPressed (foldl (handle midiNote) k gs)
            = match last gs with
              | Some Start => true
              | Some Stop => false
              | None => isPressed k
              end).
  { induction gs as [|g gs IH]; intros k Hinv; [split; [exact Hinv|reflexivity]|].
    cbn [foldl]. destruct (Hhandle k g Hinv) as [Hinv' Hp'].
    destruct (IH _ Hinv') as [Hinv'' Hp'']. split; [exact Hinv''|].
    rewrite Hp'', last_cons. destruct (last gs) as [[|]|]; try reflexivity.
    rewrite Hp'. destruct g; reflexivity. }
  destruct (Hrun gestures {| isPressed := false; calls := [] |})
    as ((Hoff & Hall & _) & Hp).
  { split; [intros i m Hi; discriminate|]. split; [constructor|discriminate]. }
  split; [exact Hoff|]. split; [exact Hall|].
  rewrite Hp. cbn [isPressed]. destruct (last gestures) as [[|]|]; reflexivity.
Qed.

End KeyboardFacts.

Module MidiFacts.

Import MidiUtils.

(** Every number of a MIDI note, through its name and back. *)
Lemma round_trip_all :
  forallb (fun n : nat =>
             match noteNameToMidi (midiToNoteName (Z.of_nat n)) with
             | inr midi => midi =? Z.of_nat n
             | inl _ => false
             end) (seq 0 128) = true.
Proof. vm_compute. reflexivity. Qed.

(** X18. Names of notes, there and back. For every MIDI number from 0 to
    127, [noteNameToMidi(midiToNoteName(midi))] returns [midi]: the name
    that [midiToNoteName] writes (a sharp spelling and the octave, from
    ['C-1'] for 0 to ['G9'] for 127) is one that [noteNameToMidi] accepts,
    and it stands for the same number. *)
Theorem note_name_round_trip (midi : Z) :
  0 <= midi <= 127 -> noteNameToMidi (midiToNoteName midi) = inr midi.
Proof.
  intros Hmidi.
  pose proof round_trip_all as Hall. rewrite forallb_forall in Hall.
  specialize (Hall (Z.to_nat midi)).
  rewrite Z2Nat.id in Hall by lia.
  destruct (noteNameToMidi (midiToNoteName midi)) as [err|m].
  - assert (false = true); [|discriminate]. apply Hall. apply in_seq. lia.
  - f_equal. apply Z.eqb_eq. apply Hall. apply in_seq. lia.
Qed.

(** Middle C and the two ends of the range. *)
Lemma note_name_round_trip_witness :
  midiToNoteName 60 = "C4"%string /\ noteNameToMidi "C4" = inr 60 /\
  midiToNoteName 0 = "C-1"%string /\ midiToNoteName 127 = "G9"%string.
Proof.
  pose proof (note_name_round_trip 60 ltac:(lia)) as Hc4.
  split; [reflexivity|]. split; [exact Hc4|]. split; reflexivity.
Defined.

Lemma accidental_cases c :
  is_accidental c = true -> c = "#"%char \/ c = "b"%char.
Proof.
  unfold is_accidental. intros H. apply orb_true_iff in H.
  destruct H as [H|H]; apply Ascii.eqb_eq in H; auto.
Qed.

(** An integer does not start with an accidental. *)
Lemma integer_start digits :
  is_integer digits = true ->
  exists c rest, digits = String c rest /\ is_accidental c = false.
Proof.
  intros Hint. destruct digits as [|c rest]; [discriminate|].
  exists c, rest. split; [reflexivity|].
  destruct (is_accidental c) eqn:Hacc; [|reflexivity].
  destruct (accidental_cases c Hacc) as [-> | ->]; discriminate.
Qed.

(** The match of the expression, on a text that is a note of the table
    followed by an integer. *)
Lemma match_note_entry note digits offset :
  entry note noteMap = Some offset -> is_integer digits = true ->
  match_note (note +:+ digits) = Some (note, digits).
Proof.
  intros Hentry Hint.
  destruct (integer_start digits Hint) as (c & rest & -> & Hacc).
  assert (Hnotes : In note (map fst noteMap)).
  { revert Hentry. unfold noteMap. cbn [entry].
    repeat match goal with
      | |- context [String.eqb ?k note] =>
          destruct (String.eqb_spec k note) as [<-|_]; [intros _; cbn; tauto|]
      end.
    discriminate. }
  cbn in Hnotes.
  repeat (destruct Hnotes as [<-|Hnotes];
          [cbv -[is_integer is_accidental]; rewrite ?Hacc;
           cbv -[is_integer]; rewrite ?Hint; reflexivity|]).
  contradiction.
Qed.

(** What a match tells about the text. *)
Lemma match_note_parts text note digits :
  match_note text = Some (note, digits) ->
  text = (note +:+ digits)%string /\ is_integer digits = true.
Proof.
  unfold match_note. destruct text as [|letter rest]; [discriminate|].
  destruct (is_letter letter); [|discriminate].
  destruct rest as [|a rest2].
  - cbn. discriminate.
  - destruct (is_accidental a).
    + destruct (is_integer rest2) eqn:Hint; [|discriminate].
      intros [= <- <-]. split; [reflexivity|exact Hint].
    + destruct (is_integer (String a rest2)) eqn:Hint; [|discriminate].
      intros [= <- <-]. split; [reflexivity|exact Hint].
Qed.

(** X19. The names [noteNameToMidi] accepts. It returns a number for a
    text exactly when the text is one of the 17 keys of its table (a
    letter from A to G, alone or with the accidentals the table lists)
    followed by an integer in decimal digits, and the number that name
    stands for, [12 * (octave + 1)] plus the offset of the table, lies
    between 0 and 127; the number returned is that number. So it never
    returns a number outside 0..127, and a flat and a sharp that the table
    gives the same offset return the same number. *)
Theorem accepted_note_names (text : string) (midi : Z) :
  noteNameToMidi text = inr midi <->
  exists note digits offset,
    text = (note +:+ digits)%string /\
    entry note noteMap = Some offset /\ is_integer digits = true /\
    midi = (parseInt digits + 1) * 12 + offset /\ 0 <= midi <= 127.
Proof.
  split.
  - unfold noteNameToMidi.
    destruct (match_note text) as [[note digits]|] eqn:Hmatch; [|discriminate].
    destruct (match_note_parts _ _ _ Hmatch) as [Htext Hint].
    destruct (entry note noteMap) as [offset|] eqn:Hentry; [|discriminate].
    destruct (Z.ltb_spec ((parseInt digits + 1) * 12 + offset) 0); [discriminate|].
    destruct (Z.ltb_spec 127 ((parseInt digits + 1) * 12 + offset)); [discriminate|].
    cbn [orb]. intros [= <-].
    exists note, digits, offset. repeat split; try assumption; lia.
  - intros (note & digits & offset & -> & Hentry & Hint & -> & Hrange).
    unfold noteNameToMidi.
    rewrite (match_note_entry note digits offset Hentry Hint), Hentry.
    destruct (Z.ltb_spec ((parseInt digits + 1) * 12 + offset) 0); [lia|].
    destruct (Z.ltb_spec 127 ((parseInt digits + 1) * 12 + offset)); [lia|].
    reflexivity.
Qed.

End MidiFacts.
